(** * Sign Pong multiplayer servers: room/session core

    A shallow embedding of the two session servers of the repository, the
    Socket.io server and the WebSocket server, as event-transition systems
    over one shared data model.

    Modelling conventions.
    - A JS object used as a dictionary whose iteration order is observed
      ([players], [waitingPlayers]: [Object.keys], [for .. in] with [break])
      is an association list in insertion order; player ids are UUID strings,
      which are never integer-like keys, so JS own-property order is
      insertion order.  Dictionaries that are only read by key ([rooms],
      [scores], [paddles], the per-set score snapshots) are [gmap]s.
    - A score is a JS number, an IEEE 754 double: [spec_float] of the
      Standard Library at binary64, with its addition.  The numbers the
      servers compute themselves (the clock, the counters of the match
      timer, the start position of ball and paddles) are integers ([Z]);
      paddle and ball coordinates from a client are only stored and
      relayed.  Strings are byte strings on which [trim] and [toUpperCase]
      act as they do on ASCII text.
    - The payload of an inbound event is optional: a client can emit an
      event alone.  The Socket.io server then calls the handler with
      [data] undefined, and reading a field of it throws; the WebSocket
      server gets the message object with its [type] and no other field.
    - The closure variables [playerId] and [roomId] of a connection live in
      the server state, because the match timer and the ball timeouts read
      the [roomId] variable of the connection that started the game each
      time they fire.
    - Sources of nondeterminism ([Math.random], [Date.now], [uuidv4]) are
      inputs carried by the events.
    - An exception that nothing catches ends the server process
      ([Crashed]). *)

From Stdlib Require Import ZArith Ascii String List SpecFloat.
From stdpp Require Import gmap strings list fin_maps.

Local Open Scope string_scope.

(** ** String primitives *)

(** [String.prototype.toUpperCase] on one ASCII character. *)
Definition upper_char (c : ascii) : ascii :=
  let n := nat_of_ascii c in
  if (97 <=? n)%nat && (n <=? 122)%nat then ascii_of_nat (n - 32) else c.

Fixpoint toUpperCase (s : string) : string :=
  match s with
  | EmptyString => EmptyString
  | String c s' => String (upper_char c) (toUpperCase s')
  end.

(** White space removed by [String.prototype.trim] (ASCII range). *)
Definition is_space (c : ascii) : bool :=
  let n := nat_of_ascii c in
  ((9 <=? n)%nat && (n <=? 13)%nat) || (n =? 32)%nat.

Fixpoint trimStart (s : string) : string :=
  match s with
  | EmptyString => EmptyString
  | String c s' => if is_space c then trimStart s' else s
  end.

Fixpoint trimEnd (s : string) : string :=
  match s with
  | EmptyString => EmptyString
  | String c s' =>
      match trimEnd s' with
      | EmptyString => if is_space c then EmptyString else String c EmptyString
      | t => String c t
      end
  end.

Definition trim (s : string) : string := trimEnd (trimStart s).

(** Truthiness of a string value. *)
Definition truthy (s : string) : bool :=
  match s with EmptyString => false | _ => true end.

(** [data.playerName || "Player"] *)
Definition or_default (o : option string) (d : string) : string :=
  match o with
  | Some s => if truthy s then s else d
  | None => d
  end.

(** [Math.random().toString(36).substring(2, 8).toUpperCase()], as a function
    of the string [random36] that [Math.random().toString(36)] returned.
    JS [substring(2, 8)] keeps the characters at indices 2..7 that exist. *)
Definition gen_room_code (random36 : string) : string :=
  toUpperCase (substring 2 6 random36).

(** ** Numbers *)

(** A JS number: an IEEE 754 binary64 value, that is [spec_float] at 53
    bits of precision with exponents up to 1024. *)
Definition Num : Type := spec_float.

(** The number that an integer denotes (the nearest double). *)
Definition of_Z (n : Z) : Num := binary_normalize 53 1024 n 0 false.

(** [a + b] on numbers. *)
Definition num_add (a b : Num) : Num := SFadd 53 1024 a b.

(** Truthiness of a number: [0], [-0] and [NaN] are falsy. *)
Definition num_truthy (a : Num) : bool :=
  match a with
  | S754_zero _ | S754_nan => false
  | _ => true
  end.

(** [v || 0] for a number that may be [undefined]. *)
Definition or_zero (v : option Num) : Num :=
  match v with
  | Some a => if num_truthy a then a else of_Z 0
  | None => of_Z 0
  end.

(** [p * 2^k] on binary positive numbers. *)
Definition pow2 (k : nat) (p : positive) : positive := Nat.iter k xO p.

(** The double that holds the integer [q] (or [-q], for [s = true]) when
    [q < 2^53]: the mantissa is [q] shifted to 53 binary digits. *)
Definition canon (s : bool) (q : positive) : Num :=
  S754_finite s (pow2 (Z.to_nat (53 - Zpos (digits2_pos q))) q)
              (Zpos (digits2_pos q) - 53)%Z.

(** ** Objects iterated in insertion order *)

Section alist.
Context {A : Type}.

(** [obj[k]] *)
Fixpoint alist_get (k : string) (l : list (string * A)) : option A :=
  match l with
  | [] => None
  | (k', v) :: l' => if String.eqb k k' then Some v else alist_get k l'
  end.

(** [obj[k] = v]: an existing key keeps its position. *)
Fixpoint alist_set (k : string) (v : A) (l : list (string * A))
  : list (string * A) :=
  match l with
  | [] => [(k, v)]
  | (k', v') :: l' =>
      if String.eqb k k' then (k', v) :: l' else (k', v') :: alist_set k v l'
  end.

(** [delete obj[k]] *)
Fixpoint alist_del (k : string) (l : list (string * A)) : list (string * A) :=
  match l with
  | [] => []
  | (k', v') :: l' =>
      if String.eqb k k' then alist_del k l' else (k', v') :: alist_del k l'
  end.

(** [Object.keys(obj)] *)
Definition keys (l : list (string * A)) : list string := map fst l.
End alist.

(** ** Data model *)

(** A connection handle: [socket.id] on Socket.io, the [ws] object on the
    WebSocket server.  Both are always truthy in JS. *)
Definition Sock := nat.

Record Player := mkPlayer {
  socketId : Sock;
  ready : bool;
  isHost : bool;
  name : string
}.

Record Ball := mkBall { x : Z; y : Z; speedX : Z; speedY : Z }.

(** [None] stands for [undefined] wherever a value can be absent. *)
Record GameState := mkGameState {
  ball : option Ball;
  paddles : gmap string (option Z);
  scores : gmap string Num
}.

Record MatchState := mkMatchState {
  currentSet : Z;
  timeRemaining : Z;
  isRestPeriod : bool;
  restTimeRemaining : Z;
  set1Scores : gmap string (option Num);
  set2Scores : gmap string (option Num);
  lastUpdateTime : Z
}.

Record Room := mkRoom {
  players : list (string * Player);
  gameState : GameState;
  gameStarted : bool;
  matchState : option MatchState;
  matchTimer : option nat
}.

Record Waiting := mkWaiting { w_socketId : Sock; w_name : string }.

(** The [let playerId] and [let roomId] of one connection closure. *)
Record Vars := mkVars { playerId : string; roomId : option string; live : bool }.

(** A running [setInterval] match timer: the connection whose [roomId]
    variable its closure reads, and the [playerIds] array it captured. *)
Record Interval := mkInterval { iv_owner : Sock; iv_p0 : string; iv_p1 : string }.

(** A pending [setTimeout]: the ball start (2 s) or its confirmation (500 ms). *)
Inductive Timeout :=
| ball_start (owner : Sock)
| ball_confirm (owner : Sock).

Record Server := mkServer {
  rooms : gmap string Room;
  waitingPlayers : list (string * Waiting);
  vars : gmap Sock Vars;
  intervals : gmap nat Interval;
  timeouts : gmap nat Timeout;
  nextTimer : nat
}.

Definition initial : Server := mkServer ∅ [] ∅ ∅ ∅ 0.

(** ** Events *)

(** The payload object of an inbound event; a field that the client did not
    send reads as [undefined].  A field that is present has the type the
    handlers use it at: names, codes and ids are strings, [scores] maps
    player ids to numbers. *)
Record Data := mkData {
  d_playerName : option string;
  d_roomId : option string;
  d_y : option Z;
  d_ball : option Ball;
  d_scores : option (list (string * Num));
  d_scoringPlayer : option string
}.

Definition no_data : Data := mkData None None None None None None.

Inductive EventName :=
| create_room | join_room | find_game | player_ready | paddle_move
| ball_update | score_update | player_scored | unknown_event.

(** What the platform hands to a handler: the rendering of [Math.random()]
    in base 36 and the clock. *)
Record Env := mkEnv { random36 : string; now : Z }.

(** [Message]: a client emitted the event [type] with the payload [data],
    or with no payload at all ([None]). *)
Inductive Event :=
| Connect (sock : Sock) (uuid : string)
| Message (sock : Sock) (type : EventName) (data : option Data) (env : Env)
| Disconnect (sock : Sock)
| IntervalFires (h : nat) (now : Z)
| TimeoutFires (h : nat) (positiveX positiveY : bool).

Inductive OutEvent :=
| out_connection (playerId : string)
| out_room_created (roomId : string)
| out_player_joined (playerId playerName : string)
| out_room_joined (roomId hostName : string)
| out_error (message : string)
| out_waiting_for_opponent
| out_game_found (roomId : string) (isHost : bool) (opponentName : string)
| out_game_starting (gameState : GameState) (playerIds : list string)
    (playerNames : list (string * string)) (yourId : string)
| out_ball_moving (ball : option Ball)
| out_opponent_move (y : option Z)
| out_ball_update (ball : option Ball)
| out_score_update (scores : gmap string Num)
| out_timer_update (timeRemaining currentSet : Z)
| out_rest_period_starting (matchState : MatchState)
| out_rest_period_update (restTimeRemaining : Z)
| out_set2_starting (matchState : MatchState)
| out_match_results (matchState : MatchState)
| out_opponent_disconnected.

(** One delivery: the connection the server sends to, and the event.  What the
    transport does with an event for a connection that is already closed is
    not part of the model. *)
Definition Out : Type := Sock * OutEvent.

(** A handler body either runs to its end or throws. *)
Inductive Outcome (A : Type) :=
| Done (a : A)
| Thrown.
Arguments Done {A} a.
Arguments Thrown {A}.

(** One transition of the server process. *)
Inductive StepResult :=
| Running (s : Server) (outs : list Out)
| Crashed.

(** ** Field updates *)

Definition set_ready (b : bool) (p : Player) : Player :=
  mkPlayer (socketId p) b (isHost p) (name p).

Definition set_ball (b : option Ball) (g : GameState) : GameState :=
  mkGameState b (paddles g) (scores g).
Definition set_paddles (p : gmap string (option Z)) (g : GameState) : GameState :=
  mkGameState (ball g) p (scores g).
Definition set_scores (sc : gmap string Num) (g : GameState) : GameState :=
  mkGameState (ball g) (paddles g) sc.

Definition set_players (ps : list (string * Player)) (r : Room) : Room :=
  mkRoom ps (gameState r) (gameStarted r) (matchState r) (matchTimer r).
Definition set_gameState (g : GameState) (r : Room) : Room :=
  mkRoom (players r) g (gameStarted r) (matchState r) (matchTimer r).
Definition set_gameStarted (b : bool) (r : Room) : Room :=
  mkRoom (players r) (gameState r) b (matchState r) (matchTimer r).
Definition set_matchState (m : option MatchState) (r : Room) : Room :=
  mkRoom (players r) (gameState r) (gameStarted r) m (matchTimer r).
Definition set_matchTimer (t : option nat) (r : Room) : Room :=
  mkRoom (players r) (gameState r) (gameStarted r) (matchState r) t.

Definition set_rooms (rs : gmap string Room) (s : Server) : Server :=
  mkServer rs (waitingPlayers s) (vars s) (intervals s) (timeouts s) (nextTimer s).
Definition set_waitingPlayers (w : list (string * Waiting)) (s : Server) : Server :=
  mkServer (rooms s) w (vars s) (intervals s) (timeouts s) (nextTimer s).
Definition set_vars (v : gmap Sock Vars) (s : Server) : Server :=
  mkServer (rooms s) (waitingPlayers s) v (intervals s) (timeouts s) (nextTimer s).
Definition set_intervals (i : gmap nat Interval) (s : Server) : Server :=
  mkServer (rooms s) (waitingPlayers s) (vars s) i (timeouts s) (nextTimer s).
Definition set_timeouts (t : gmap nat Timeout) (s : Server) : Server :=
  mkServer (rooms s) (waitingPlayers s) (vars s) (intervals s) t (nextTimer s).
Definition set_nextTimer (n : nat) (s : Server) : Server :=
  mkServer (rooms s) (waitingPlayers s) (vars s) (intervals s) (timeouts s) n.

(** [rooms[roomId]] for a [roomId] variable that may still be [null]. *)
Definition room_at (rid : option string) (s : Server) : option Room :=
  match rid with
  | Some r => rooms s !! r
  | None => None
  end.

(** The guard [roomId && rooms[roomId]]: the room, with its code. *)
Definition bound_room (rid : option string) (s : Server) : option (string * Room) :=
  match rid with
  | Some r => if truthy r then option_map (pair r) (rooms s !! r) else None
  | None => None
  end.

(** [clearInterval(t)]; clearing [undefined] does nothing. *)
Definition clearInterval (t : option nat) (s : Server) : Server :=
  match t with
  | Some h => set_intervals (delete h (intervals s)) s
  | None => s
  end.

(** The state every new room starts from. *)
Definition new_gameState : GameState :=
  mkGameState (Some (mkBall 400 200 0 0)) ∅ ∅.

(** [for (const pid in data.scores) scores[pid] = data.scores[pid]].
    Assigning to [scores["__proto__"]] calls the setter that [scores]
    inherits from [Object.prototype], and the setter ignores a number. *)
Definition assign_scores (upd : list (string * Num)) (sc : gmap string Num)
  : gmap string Num :=
  fold_left
    (fun m kv => if String.eqb kv.1 "__proto__" then m else <[kv.1 := kv.2]> m)
    upd sc.

(** The fresh [matchState] literal of [player_ready]. *)
Definition new_matchState (p0 p1 : string) (now : Z) : MatchState :=
  mkMatchState 1 (2 * 60) false 0
    (<[p1 := Some (of_Z 0)]> (<[p0 := Some (of_Z 0)]> ∅))
    (<[p1 := Some (of_Z 0)]> (<[p0 := Some (of_Z 0)]> ∅))
    now.

Definition Handled : Type := option string * Server * list Out.

(** ** The Socket.io server *)

Module Sio.

(** [for (const pid in players) io.to(players[pid].socketId).emit(ev)] *)
Definition emit_all (ps : list (string * Player)) (ev : OutEvent) : list Out :=
  map (fun kv => (socketId kv.2, ev)) ps.

(** [for .. in players] up to the first [pid !== playerId], then [break]. *)
Definition emit_other (me : string) (ps : list (string * Player))
    (ev : OutEvent) : list Out :=
  match find (fun kv => negb (String.eqb kv.1 me)) ps with
  | Some kv => [(socketId kv.2, ev)]
  | None => []
  end.

Definition on_create_room (sock : Sock) (playerId : string)
    (roomId : option string) (data : option Data) (env : Env) (s : Server)
  : Outcome Handled :=
  let shortRoomId := gen_room_code (random36 env) in
  match data with
  | None => Thrown (* data.playerName on undefined *)
  | Some data =>
      let playerName := or_default (d_playerName data) "Player" in
      let room :=
        mkRoom [(playerId, mkPlayer sock false true playerName)]
               new_gameState false None None in
      Done (Some shortRoomId,
            set_rooms (<[shortRoomId := room]> (rooms s)) s,
            [(sock, out_room_created shortRoomId)])
  end.

Definition on_join_room (sock : Sock) (playerId : string)
    (roomId : option string) (data : option Data) (env : Env) (s : Server)
  : Outcome Handled :=
  match data with
  | None => Thrown (* data.roomId on undefined *)
  | Some data =>
      match d_roomId data with
      | None => Thrown (* data.roomId.trim() on undefined *)
      | Some submitted =>
          let roomCode := toUpperCase (trim submitted) in
          let joiningPlayerName := or_default (d_playerName data) "Player" in
          match rooms s !! roomCode with
          | Some room =>
              (* roomId = roomCode, before the capacity check *)
              if (2 <=? length (keys (players room)))%nat then
                Done (Some roomCode, s, [(sock, out_error "Room is full")])
              else
                let ps :=
                  alist_set playerId (mkPlayer sock false false joiningPlayerName)
                            (players room) in
                let s' :=
                  set_rooms (<[roomCode := set_players ps room]> (rooms s)) s in
                match find (fun kv => isHost kv.2) ps with
                | Some host =>
                    Done (Some roomCode, s',
                          [(socketId host.2,
                            out_player_joined playerId joiningPlayerName);
                           (sock, out_room_joined roomCode (name host.2))])
                | None =>
                    Done (Some roomCode, s',
                          [(sock, out_room_joined roomCode "Host")])
                end
          | None => Done (roomId, s, [(sock, out_error "Room not found")])
          end
      end
  end.

Definition on_find_game (sock : Sock) (playerId : string)
    (roomId : option string) (data : option Data) (env : Env) (s : Server)
  : Outcome Handled :=
  match data with
  | None => Thrown (* data.playerName on undefined *)
  | Some data =>
      let quickMatchPlayerName := or_default (d_playerName data) "Player" in
      let waiting :=
        alist_set playerId (mkWaiting sock quickMatchPlayerName)
                  (waitingPlayers s) in
      let s1 := set_waitingPlayers waiting s in
      let waitingPlayerIds := keys waiting in
      if (2 <=? length waitingPlayerIds)%nat then
        match find (fun pid => negb (String.eqb pid playerId)) waitingPlayerIds with
        | Some otherPlayerId =>
            if truthy otherPlayerId then
              match alist_get otherPlayerId waiting with
              | Some other =>
                  let otherPlayerName := w_name other in
                  let code := gen_room_code (random36 env) in
                  let room :=
                    mkRoom
                      (alist_set otherPlayerId
                         (mkPlayer (w_socketId other) false false otherPlayerName)
                         (alist_set playerId
                            (mkPlayer sock false true quickMatchPlayerName) []))
                      new_gameState false None None in
                  let s2 := set_rooms (<[code := room]> (rooms s1)) s1 in
                  let s3 :=
                    set_waitingPlayers
                      (alist_del otherPlayerId (alist_del playerId waiting)) s2 in
                  Done (Some code, s3,
                        [(sock, out_game_found code true otherPlayerName);
                         (w_socketId other,
                          out_game_found code false quickMatchPlayerName)])
              | None => Thrown (* waitingPlayers[otherPlayerId].name *)
              end
            else Done (roomId, s1, [])
        | None => Done (roomId, s1, [])
        end
      else Done (roomId, s1, [(sock, out_waiting_for_opponent)])
  end.

(** The handler takes no argument: whatever payload came is not looked at. *)
Definition on_player_ready (sock : Sock) (playerId : string)
    (roomId : option string) (data : option Data) (env : Env) (s : Server)
  : Outcome Handled :=
  match bound_room roomId s with
  | Some (r, room) =>
      match alist_get playerId (players room) with
      | Some me =>
          let ps := alist_set playerId (set_ready true me) (players room) in
          let allReady := forallb (fun kv => ready kv.2) ps in
          match allReady, keys ps with
          | true, [p0; p1] =>
              (* allReady && Object.keys(players).length === 2 *)
              let g := gameState room in
              let g1 :=
                set_paddles (<[p1 := Some 150%Z]> (<[p0 := Some 150%Z]> (paddles g))) g in
              let g2 := set_scores (<[p1 := of_Z 0]> (<[p0 := of_Z 0]> (scores g1))) g1 in
              let timer := nextTimer s in
              let room' :=
                mkRoom ps g2 true (Some (new_matchState p0 p1 (now env)))
                       (Some timer) in
              let playerNames := map (fun kv => (kv.1, name kv.2)) ps in
              let s' :=
                mkServer (<[r := room']> (rooms s)) (waitingPlayers s) (vars s)
                  (<[timer := mkInterval sock p0 p1]> (intervals s))
                  (<[S timer := ball_start sock]> (timeouts s))
                  (S (S timer)) in
              Done (roomId, s',
                    map (fun kv =>
                           (socketId kv.2,
                            out_game_starting g2 [p0; p1] playerNames kv.1)) ps)
          | _, _ =>
              Done (roomId,
                    set_rooms (<[r := set_players ps room]> (rooms s)) s, [])
          end
      | None => Done (roomId, s, [])
      end
  | None => Done (roomId, s, [])
  end.

Definition on_paddle_move (sock : Sock) (playerId : string)
    (roomId : option string) (data : option Data) (env : Env) (s : Server)
  : Outcome Handled :=
  match bound_room roomId s with
  | Some (r, room) =>
      match alist_get playerId (players room) with
      | Some _ =>
          if gameStarted room then
            let g := gameState room in
            match paddles g !! playerId, data with
            | Some _, Some data =>
                let g' := set_paddles (<[playerId := d_y data]> (paddles g)) g in
                Done (roomId,
                      set_rooms (<[r := set_gameState g' room]> (rooms s)) s,
                      emit_other playerId (players room)
                                 (out_opponent_move (d_y data)))
            | _, _ =>
                (* paddles[playerId].y = data.y with paddles[playerId] or
                   data undefined *)
                Thrown
            end
          else Done (roomId, s, [])
      | None => Done (roomId, s, [])
      end
  | None => Done (roomId, s, [])
  end.

Definition on_ball_update (sock : Sock) (playerId : string)
    (roomId : option string) (data : option Data) (env : Env) (s : Server)
  : Outcome Handled :=
  match bound_room roomId s with
  | Some (r, room) =>
      match alist_get playerId (players room) with
      | Some me =>
          if gameStarted room then
            if isHost me then
              match data with
              | None => Thrown (* data.ball on undefined *)
              | Some data =>
                  let g' := set_ball (d_ball data) (gameState room) in
                  Done (roomId,
                        set_rooms (<[r := set_gameState g' room]> (rooms s)) s,
                        emit_other playerId (players room)
                                   (out_ball_update (d_ball data)))
              end
            else Done (roomId, s, [])
          else Done (roomId, s, [])
      | None => Done (roomId, s, [])
      end
  | None => Done (roomId, s, [])
  end.

Definition on_score_update (sock : Sock) (playerId : string)
    (roomId : option string) (data : option Data) (env : Env) (s : Server)
  : Outcome Handled :=
  match bound_room roomId s with
  | Some (r, room) =>
      match data with
      | None => Thrown (* data.scores on undefined *)
      | Some data =>
          match d_scores data with
          | Some upd =>
              let g := gameState room in
              let sc := assign_scores upd (scores g) in
              Done (roomId,
                    set_rooms
                      (<[r := set_gameState (set_scores sc g) room]> (rooms s)) s,
                    emit_all (players room) (out_score_update sc))
          | None => Done (roomId, s, [])
          end
      end
  | None => Done (roomId, s, [])
  end.

Definition on_player_scored (sock : Sock) (playerId : string)
    (roomId : option string) (data : option Data) (env : Env) (s : Server)
  : Outcome Handled :=
  match bound_room roomId s with
  | Some (r, room) =>
      match data with
      | None => Thrown (* data.scoringPlayer on undefined *)
      | Some data =>
          match d_scoringPlayer data with
          | Some scoringPlayerId =>
              if truthy scoringPlayerId then
                let playerIds := keys (players room) in
                if existsb (String.eqb scoringPlayerId) playerIds then
                  let g := gameState room in
                  let sc :=
                    <[scoringPlayerId :=
                        num_add (or_zero (scores g !! scoringPlayerId)) (of_Z 1)]>
                      (scores g) in
                  Done (roomId,
                        set_rooms
                          (<[r := set_gameState (set_scores sc g) room]> (rooms s)) s,
                        emit_all (players room) (out_score_update sc))
                else Done (roomId, s, [])
              else Done (roomId, s, [])
          | None => Done (roomId, s, [])
          end
      end
  | None => Done (roomId, s, [])
  end.

(** [socket.on('disconnect')].  The conjunct [&& players[pid].socketId] of
    the notification loop is always true: see [Sock]. *)
Definition on_disconnect (sock : Sock) (playerId : string)
    (roomId : option string) (s : Server) : Server * list Out :=
  let s1 :=
    match alist_get playerId (waitingPlayers s) with
    | Some _ => set_waitingPlayers (alist_del playerId (waitingPlayers s)) s
    | None => s
    end in
  match bound_room roomId s1 with
  | Some (r, room) =>
      let outs :=
        map (fun kv => (socketId kv.2, out_opponent_disconnected))
            (filter (fun kv => kv.1 ≠ playerId) (players room)) in
      let ps := alist_del playerId (players room) in
      if (length (keys ps) =? 0)%nat then
        let s2 := clearInterval (matchTimer room) s1 in
        (set_rooms (delete r (rooms s2)) s2, outs)
      else
        (set_rooms (<[r := set_players ps room]> (rooms s1)) s1, outs)
  | None => (s1, [])
  end.

(** The [setInterval] callback of [player_ready]; [roomId] is the current
    value of the owner's variable, [p0], [p1] the captured [playerIds]. *)
Definition matchTimer_callback (p0 p1 : string) (roomId : option string)
    (now : Z) (s : Server) : Outcome (Server * list Out) :=
  match roomId, room_at roomId s with
  | Some r, Some room =>
      match matchState room with
      | None => Thrown (* rooms[roomId].matchState.lastUpdateTime *)
      | Some ms =>
          let elapsedSeconds := ((now - lastUpdateTime ms) / 1000)%Z in
          let g := gameState room in
          if isRestPeriod ms then
            let rest := (restTimeRemaining ms - elapsedSeconds)%Z in
            if (rest <=? 0)%Z then
              let ms' :=
                mkMatchState 2 (2 * 60) false rest
                  (set1Scores ms) (set2Scores ms) now in
              let g' := set_scores (<[p1 := of_Z 0]> (<[p0 := of_Z 0]> (scores g))) g in
              let room' := set_gameState g' (set_matchState (Some ms') room) in
              Done (set_rooms (<[r := room']> (rooms s)) s,
                    emit_all (players room) (out_set2_starting ms'))
            else
              let ms' :=
                mkMatchState (currentSet ms) (timeRemaining ms) true rest
                  (set1Scores ms) (set2Scores ms) now in
              Done (set_rooms (<[r := set_matchState (Some ms') room]> (rooms s)) s,
                    emit_all (players room) (out_rest_period_update rest))
          else
            let time := (timeRemaining ms - elapsedSeconds)%Z in
            if (time <=? 0)%Z then
              if (currentSet ms =? 1)%Z then
                let ms' :=
                  mkMatchState (currentSet ms) time true 30
                    (<[p1 := scores g !! p1]> (<[p0 := scores g !! p0]> (set1Scores ms)))
                    (set2Scores ms) now in
                Done (set_rooms (<[r := set_matchState (Some ms') room]> (rooms s)) s,
                      emit_all (players room) (out_rest_period_starting ms'))
              else
                let ms' :=
                  mkMatchState (currentSet ms) time false (restTimeRemaining ms)
                    (set1Scores ms)
                    (<[p1 := scores g !! p1]> (<[p0 := scores g !! p0]> (set2Scores ms)))
                    now in
                let s' := set_rooms (<[r := set_matchState (Some ms') room]> (rooms s)) s in
                Done (clearInterval (matchTimer room) s',
                      emit_all (players room) (out_match_results ms'))
            else
              let ms' :=
                mkMatchState (currentSet ms) time false (restTimeRemaining ms)
                  (set1Scores ms) (set2Scores ms) now in
              Done (set_rooms (<[r := set_matchState (Some ms') room]> (rooms s)) s,
                    emit_all (players room)
                             (out_timer_update time (currentSet ms)))
      end
  | _, _ => Thrown (* clearInterval(rooms[roomId].matchTimer) on undefined *)
  end.

(** The 2 s [setTimeout] callback of [player_ready]; [h] is the handle the
    nested 500 ms timeout gets. *)
Definition ball_start_callback (owner : Sock) (roomId : option string)
    (positiveX positiveY : bool) (s : Server) : Outcome (Server * list Out) :=
  match roomId, room_at roomId s with
  | Some r, Some room =>
      match ball (gameState room) with
      | None => Thrown (* rooms[roomId].gameState.ball.x = 400 *)
      | Some _ =>
          let b :=
            mkBall 400 200 (10 * (if positiveX then 1 else -1))
                   (10 * (if positiveY then 1 else -1)) in
          let room' := set_gameState (set_ball (Some b) (gameState room)) room in
          let h := nextTimer s in
          Done (mkServer (<[r := room']> (rooms s)) (waitingPlayers s) (vars s)
                  (intervals s) (<[h := ball_confirm owner]> (timeouts s)) (S h),
                emit_all (players room) (out_ball_moving (Some b)))
      end
  | _, _ => Done (s, [])
  end.

(** The nested 500 ms [setTimeout] callback. *)
Definition ball_confirm_callback (roomId : option string) (s : Server)
  : Outcome (Server * list Out) :=
  match room_at roomId s with
  | Some room =>
      Done (s, emit_all (players room) (out_ball_moving (ball (gameState room))))
  | None => Done (s, [])
  end.

Definition handler (type : EventName) :=
  match type with
  | create_room => on_create_room
  | join_room => on_join_room
  | find_game => on_find_game
  | player_ready => on_player_ready
  | paddle_move => on_paddle_move
  | ball_update => on_ball_update
  | score_update => on_score_update
  | player_scored => on_player_scored
  | unknown_event => fun _ _ roomId _ _ s => Done (roomId, s, [])
  end.

(** The [roomId] variable of a connection, as a timer closure reads it. *)
Definition roomId_of (sock : Sock) (s : Server) : option string :=
  match vars s !! sock with
  | Some v => roomId v
  | None => None
  end.

(** One transition.  No handler or timer callback of this server runs
    under a [try], so a throw ends the process.  Connection handles are
    fresh: a [Connect] on a known handle, and anything from a handle that is
    unknown or already closed, does nothing. *)
Definition step (s : Server) (e : Event) : StepResult :=
  match e with
  | Connect sock uuid =>
      match vars s !! sock with
      | Some _ => Running s []
      | None =>
          Running (set_vars (<[sock := mkVars uuid None true]> (vars s)) s)
                  [(sock, out_connection uuid)]
      end
  | Message sock type data env =>
      match vars s !! sock with
      | Some v =>
          if live v then
            match handler type sock (playerId v) (roomId v) data env s with
            | Done (rid, s', outs) =>
                Running (set_vars (<[sock := mkVars (playerId v) rid true]> (vars s')) s')
                        outs
            | Thrown => Crashed
            end
          else Running s []
      | None => Running s []
      end
  | Disconnect sock =>
      match vars s !! sock with
      | Some v =>
          if live v then
            let '(s', outs) := on_disconnect sock (playerId v) (roomId v) s in
            Running (set_vars (<[sock := mkVars (playerId v) (roomId v) false]> (vars s')) s')
                    outs
          else Running s []
      | None => Running s []
      end
  | IntervalFires h now =>
      match intervals s !! h with
      | Some iv =>
          match matchTimer_callback (iv_p0 iv) (iv_p1 iv)
                  (roomId_of (iv_owner iv) s) now s with
          | Done (s', outs) => Running s' outs
          | Thrown => Crashed
          end
      | None => Running s []
      end
  | TimeoutFires h positiveX positiveY =>
      match timeouts s !! h with
      | Some t =>
          let s0 := set_timeouts (delete h (timeouts s)) s in
          match
            match t with
            | ball_start owner =>
                ball_start_callback owner (roomId_of owner s0)
                                    positiveX positiveY s0
            | ball_confirm owner => ball_confirm_callback (roomId_of owner s0) s0
            end
          with
          | Done (s', outs) => Running s' outs
          | Thrown => Crashed
          end
      | None => Running s []
      end
  end.

End Sio.

(** ** The WebSocket server *)

Module Ws.

(** [for (const pid in players) players[pid].ws.send(JSON.stringify(ev))];
    the [ws] reference of a player is its [socketId] field. *)
Definition send_all (ps : list (string * Player)) (ev : OutEvent) : list Out :=
  map (fun kv => (socketId kv.2, ev)) ps.

(** [for .. in players] up to the first [pid !== playerId], then [break]. *)
Definition send_other (me : string) (ps : list (string * Player))
    (ev : OutEvent) : list Out :=
  match find (fun kv => negb (String.eqb kv.1 me)) ps with
  | Some kv => [(socketId kv.2, ev)]
  | None => []
  end.

Definition on_create_room (sock : Sock) (playerId : string)
    (roomId : option string) (data : Data) (env : Env) (s : Server)
  : Outcome Handled :=
  let shortRoomId := gen_room_code (random36 env) in
  let playerName := or_default (d_playerName data) "Player" in
  let room :=
    mkRoom [(playerId, mkPlayer sock false true playerName)]
           new_gameState false None None in
  Done (Some shortRoomId,
        set_rooms (<[shortRoomId := room]> (rooms s)) s,
        [(sock, out_room_created shortRoomId)]).

Definition on_join_room (sock : Sock) (playerId : string)
    (roomId : option string) (data : Data) (env : Env) (s : Server)
  : Outcome Handled :=
  match d_roomId data with
  | None => Thrown (* data.roomId.trim() on undefined *)
  | Some submitted =>
      let roomCode := toUpperCase (trim submitted) in
      let joiningPlayerName := or_default (d_playerName data) "Player" in
      match rooms s !! roomCode with
      | Some room =>
          (* roomId = roomCode, then the capacity check and its return *)
          if (2 <=? length (keys (players room)))%nat then
            Done (Some roomCode, s, [(sock, out_error "Room is full")])
          else
            let ps :=
              alist_set playerId (mkPlayer sock false false joiningPlayerName)
                        (players room) in
            let s' := set_rooms (<[roomCode := set_players ps room]> (rooms s)) s in
            match find (fun kv => isHost kv.2) ps with
            | Some host =>
                Done (Some roomCode, s',
                      [(socketId host.2,
                        out_player_joined playerId joiningPlayerName);
                       (sock, out_room_joined roomCode (name host.2))])
            | None =>
                Done (Some roomCode, s', [(sock, out_room_joined roomCode "Host")])
            end
      | None => Done (roomId, s, [(sock, out_error "Room not found")])
      end
  end.

Definition on_find_game (sock : Sock) (playerId : string)
    (roomId : option string) (data : Data) (env : Env) (s : Server)
  : Outcome Handled :=
  let quickMatchPlayerName := or_default (d_playerName data) "Player" in
  let waiting :=
    alist_set playerId (mkWaiting sock quickMatchPlayerName) (waitingPlayers s) in
  let s1 := set_waitingPlayers waiting s in
  let waitingPlayerIds := keys waiting in
  if (2 <=? length waitingPlayerIds)%nat then
    match find (fun pid => negb (String.eqb pid playerId)) waitingPlayerIds with
    | Some otherPlayerId =>
        if truthy otherPlayerId then
          match alist_get otherPlayerId waiting with
          | Some other =>
              let otherPlayerName := w_name other in
              let code := gen_room_code (random36 env) in
              let room :=
                mkRoom
                  (alist_set otherPlayerId
                     (mkPlayer (w_socketId other) false false otherPlayerName)
                     (alist_set playerId
                        (mkPlayer sock false true quickMatchPlayerName) []))
                  new_gameState false None None in
              let s2 := set_rooms (<[code := room]> (rooms s1)) s1 in
              let s3 :=
                set_waitingPlayers
                  (alist_del otherPlayerId (alist_del playerId waiting)) s2 in
              Done (Some code, s3,
                    [(sock, out_game_found code true otherPlayerName);
                     (w_socketId other,
                      out_game_found code false quickMatchPlayerName)])
          | None => Thrown (* waitingPlayers[otherPlayerId].name *)
          end
        else Done (roomId, s1, [])
    | None => Done (roomId, s1, [])
    end
  else Done (roomId, s1, [(sock, out_waiting_for_opponent)]).

Definition on_player_ready (sock : Sock) (playerId : string)
    (roomId : option string) (data : Data) (env : Env) (s : Server)
  : Outcome Handled :=
  match bound_room roomId s with
  | Some (r, room) =>
      match alist_get playerId (players room) with
      | Some me =>
          let ps := alist_set playerId (set_ready true me) (players room) in
          let allReady := forallb (fun kv => ready kv.2) ps in
          match allReady, keys ps with
          | true, [p0; p1] =>
              (* allReady && Object.keys(players).length === 2 *)
              let g := gameState room in
              let g1 :=
                set_paddles (<[p1 := Some 150%Z]> (<[p0 := Some 150%Z]> (paddles g))) g in
              let g2 := set_scores (<[p1 := of_Z 0]> (<[p0 := of_Z 0]> (scores g1))) g1 in
              let timer := nextTimer s in
              let room' :=
                mkRoom ps g2 true (Some (new_matchState p0 p1 (now env)))
                       (Some timer) in
              let playerNames := map (fun kv => (kv.1, name kv.2)) ps in
              let s' :=
                mkServer (<[r := room']> (rooms s)) (waitingPlayers s) (vars s)
                  (<[timer := mkInterval sock p0 p1]> (intervals s))
                  (<[S timer := ball_start sock]> (timeouts s))
                  (S (S timer)) in
              Done (roomId, s',
                    map (fun kv =>
                           (socketId kv.2,
                            out_game_starting g2 [p0; p1] playerNames kv.1)) ps)
          | _, _ =>
              Done (roomId,
                    set_rooms (<[r := set_players ps room]> (rooms s)) s, [])
          end
      | None => Done (roomId, s, [])
      end
  | None => Done (roomId, s, [])
  end.

Definition on_paddle_move (sock : Sock) (playerId : string)
    (roomId : option string) (data : Data) (env : Env) (s : Server)
  : Outcome Handled :=
  match bound_room roomId s with
  | Some (r, room) =>
      match alist_get playerId (players room) with
      | Some _ =>
          if gameStarted room then
            let g := gameState room in
            match paddles g !! playerId with
            | Some _ =>
                let g' := set_paddles (<[playerId := d_y data]> (paddles g)) g in
                Done (roomId,
                      set_rooms (<[r := set_gameState g' room]> (rooms s)) s,
                      send_other playerId (players room)
                                 (out_opponent_move (d_y data)))
            | None => Thrown (* paddles[playerId].y = ... on undefined *)
            end
          else Done (roomId, s, [])
      | None => Done (roomId, s, [])
      end
  | None => Done (roomId, s, [])
  end.

Definition on_ball_update (sock : Sock) (playerId : string)
    (roomId : option string) (data : Data) (env : Env) (s : Server)
  : Outcome Handled :=
  match bound_room roomId s with
  | Some (r, room) =>
      match alist_get playerId (players room) with
      | Some me =>
          if gameStarted room then
            if isHost me then
              let g' := set_ball (d_ball data) (gameState room) in
              Done (roomId,
                    set_rooms (<[r := set_gameState g' room]> (rooms s)) s,
                    send_other playerId (players room)
                               (out_ball_update (d_ball data)))
            else Done (roomId, s, [])
          else Done (roomId, s, [])
      | None => Done (roomId, s, [])
      end
  | None => Done (roomId, s, [])
  end.

Definition on_score_update (sock : Sock) (playerId : string)
    (roomId : option string) (data : Data) (env : Env) (s : Server)
  : Outcome Handled :=
  match bound_room roomId s with
  | Some (r, room) =>
      match d_scores data with
      | Some upd =>
          let g := gameState room in
          let sc := assign_scores upd (scores g) in
          Done (roomId,
                set_rooms (<[r := set_gameState (set_scores sc g) room]> (rooms s)) s,
                send_all (players room) (out_score_update sc))
      | None => Done (roomId, s, [])
      end
  | None => Done (roomId, s, [])
  end.

Definition on_player_scored (sock : Sock) (playerId : string)
    (roomId : option string) (data : Data) (env : Env) (s : Server)
  : Outcome Handled :=
  match bound_room roomId s with
  | Some (r, room) =>
      match d_scoringPlayer data with
      | Some scoringPlayerId =>
          if truthy scoringPlayerId then
            let playerIds := keys (players room) in
            if existsb (String.eqb scoringPlayerId) playerIds then
              let g := gameState room in
              let sc :=
                <[scoringPlayerId :=
                    num_add (or_zero (scores g !! scoringPlayerId)) (of_Z 1)]>
                  (scores g) in
              Done (roomId,
                    set_rooms
                      (<[r := set_gameState (set_scores sc g) room]> (rooms s)) s,
                    send_all (players room) (out_score_update sc))
            else Done (roomId, s, [])
          else Done (roomId, s, [])
      | None => Done (roomId, s, [])
      end
  | None => Done (roomId, s, [])
  end.

(** [ws.on('close')]: the room is deleted without clearing its timer.  The
    conjunct [&& players[pid].ws] of the notification loop is always true:
    see [Sock]. *)
Definition on_close (sock : Sock) (playerId : string)
    (roomId : option string) (s : Server) : Server * list Out :=
  let s1 :=
    match alist_get playerId (waitingPlayers s) with
    | Some _ => set_waitingPlayers (alist_del playerId (waitingPlayers s)) s
    | None => s
    end in
  match bound_room roomId s1 with
  | Some (r, room) =>
      let outs :=
        map (fun kv => (socketId kv.2, out_opponent_disconnected))
            (filter (fun kv => kv.1 ≠ playerId) (players room)) in
      let ps := alist_del playerId (players room) in
      if (length (keys ps) =? 0)%nat then
        (set_rooms (delete r (rooms s1)) s1, outs)
      else
        (set_rooms (<[r := set_players ps room]> (rooms s1)) s1, outs)
  | None => (s1, [])
  end.

(** The [setInterval] callback of [player_ready]; [roomId] is the current
    value of the owner's variable, [p0], [p1] the captured [playerIds]. *)
Definition matchTimer_callback (p0 p1 : string) (roomId : option string)
    (now : Z) (s : Server) : Outcome (Server * list Out) :=
  match roomId, room_at roomId s with
  | Some r, Some room =>
      match matchState room with
      | None => Thrown (* rooms[roomId].matchState.lastUpdateTime *)
      | Some ms =>
          let elapsedSeconds := ((now - lastUpdateTime ms) / 1000)%Z in
          let g := gameState room in
          if isRestPeriod ms then
            let rest := (restTimeRemaining ms - elapsedSeconds)%Z in
            if (rest <=? 0)%Z then
              let ms' :=
                mkMatchState 2 (2 * 60) false rest
                  (set1Scores ms) (set2Scores ms) now in
              let g' := set_scores (<[p1 := of_Z 0]> (<[p0 := of_Z 0]> (scores g))) g in
              let room' := set_gameState g' (set_matchState (Some ms') room) in
              Done (set_rooms (<[r := room']> (rooms s)) s,
                    send_all (players room) (out_set2_starting ms'))
            else
              let ms' :=
                mkMatchState (currentSet ms) (timeRemaining ms) true rest
                  (set1Scores ms) (set2Scores ms) now in
              Done (set_rooms (<[r := set_matchState (Some ms') room]> (rooms s)) s,
                    send_all (players room) (out_rest_period_update rest))
          else
            let time := (timeRemaining ms - elapsedSeconds)%Z in
            if (time <=? 0)%Z then
              if (currentSet ms =? 1)%Z then
                let ms' :=
                  mkMatchState (currentSet ms) time true 30
                    (<[p1 := scores g !! p1]> (<[p0 := scores g !! p0]> (set1Scores ms)))
                    (set2Scores ms) now in
                Done (set_rooms (<[r := set_matchState (Some ms') room]> (rooms s)) s,
                      send_all (players room) (out_rest_period_starting ms'))
              else
                let ms' :=
                  mkMatchState (currentSet ms) time false (restTimeRemaining ms)
                    (set1Scores ms)
                    (<[p1 := scores g !! p1]> (<[p0 := scores g !! p0]> (set2Scores ms)))
                    now in
                let s' := set_rooms (<[r := set_matchState (Some ms') room]> (rooms s)) s in
                Done (clearInterval (matchTimer room) s',
                      send_all (players room) (out_match_results ms'))
            else
              let ms' :=
                mkMatchState (currentSet ms) time false (restTimeRemaining ms)
                  (set1Scores ms) (set2Scores ms) now in
              Done (set_rooms (<[r := set_matchState (Some ms') room]> (rooms s)) s,
                    send_all (players room)
                             (out_timer_update time (currentSet ms)))
      end
  | _, _ => Thrown (* clearInterval(rooms[roomId].matchTimer) on undefined *)
  end.

(** The 2 s [setTimeout] callback of [player_ready]; [h] is the handle the
    nested 500 ms timeout gets. *)
Definition ball_start_callback (owner : Sock) (roomId : option string)
    (positiveX positiveY : bool) (s : Server) : Outcome (Server * list Out) :=
  match roomId, room_at roomId s with
  | Some r, Some room =>
      match ball (gameState room) with
      | None => Thrown (* rooms[roomId].gameState.ball.x = 400 *)
      | Some _ =>
          let b :=
            mkBall 400 200 (10 * (if positiveX then 1 else -1))
                   (10 * (if positiveY then 1 else -1)) in
          let room' := set_gameState (set_ball (Some b) (gameState room)) room in
          let h := nextTimer s in
          Done (mkServer (<[r := room']> (rooms s)) (waitingPlayers s) (vars s)
                  (intervals s) (<[h := ball_confirm owner]> (timeouts s)) (S h),
                send_all (players room) (out_ball_moving (Some b)))
      end
  | _, _ => Done (s, [])
  end.

(** The nested 500 ms [setTimeout] callback. *)
Definition ball_confirm_callback (roomId : option string) (s : Server)
  : Outcome (Server * list Out) :=
  match room_at roomId s with
  | Some room =>
      Done (s, send_all (players room) (out_ball_moving (ball (gameState room))))
  | None => Done (s, [])
  end.

Definition handler (type : EventName) :=
  match type with
  | create_room => on_create_room
  | join_room => on_join_room
  | find_game => on_find_game
  | player_ready => on_player_ready
  | paddle_move => on_paddle_move
  | ball_update => on_ball_update
  | score_update => on_score_update
  | player_scored => on_player_scored
  | unknown_event => fun _ _ roomId _ _ s => Done (roomId, s, [])
  end.

(** The [roomId] variable of a connection, as a timer closure reads it. *)
Definition roomId_of (sock : Sock) (s : Server) : option string :=
  match vars s !! sock with
  | Some v => roomId v
  | None => None
  end.

(** The object that [JSON.parse(message)] gives for an event: its payload
    next to the [type] field, and nothing but the [type] field when the
    client sent no payload. *)
Definition message_object (data : option Data) : Data :=
  match data with
  | Some d => d
  | None => no_data
  end.

(** One transition.  The message handler runs its [switch] under
    [try { .. } catch (error) { console.error(..) }]; every throw point of
    the cases comes before the first write of its case, so a caught throw
    leaves the state as it was.  Timer callbacks run outside the [try].
    Connection handles are fresh, as for the Socket.io server. *)
Definition step (s : Server) (e : Event) : StepResult :=
  match e with
  | Connect sock uuid =>
      match vars s !! sock with
      | Some _ => Running s []
      | None =>
          Running (set_vars (<[sock := mkVars uuid None true]> (vars s)) s)
                  [(sock, out_connection uuid)]
      end
  | Message sock type data env =>
      match vars s !! sock with
      | Some v =>
          if live v then
            match handler type sock (playerId v) (roomId v)
                    (message_object data) env s with
            | Done (rid, s', outs) =>
                Running (set_vars (<[sock := mkVars (playerId v) rid true]> (vars s')) s')
                        outs
            | Thrown => Running s []
            end
          else Running s []
      | None => Running s []
      end
  | Disconnect sock =>
      match vars s !! sock with
      | Some v =>
          if live v then
            let '(s', outs) := on_close sock (playerId v) (roomId v) s in
            Running (set_vars (<[sock := mkVars (playerId v) (roomId v) false]> (vars s')) s')
                    outs
          else Running s []
      | None => Running s []
      end
  | IntervalFires h now =>
      match intervals s !! h with
      | Some iv =>
          match matchTimer_callback (iv_p0 iv) (iv_p1 iv)
                  (roomId_of (iv_owner iv) s) now s with
          | Done (s', outs) => Running s' outs
          | Thrown => Crashed
          end
      | None => Running s []
      end
  | TimeoutFires h positiveX positiveY =>
      match timeouts s !! h with
      | Some t =>
          let s0 := set_timeouts (delete h (timeouts s)) s in
          match
            match t with
            | ball_start owner =>
                ball_start_callback owner (roomId_of owner s0)
                                    positiveX positiveY s0
            | ball_confirm owner => ball_confirm_callback (roomId_of owner s0) s0
            end
          with
          | Done (s', outs) => Running s' outs
          | Thrown => Crashed
          end
      | None => Running s []
      end
  end.

End Ws.

(** Handlers are unfolded by name in the proofs. *)
Arguments Sio.on_create_room : simpl never.
Arguments Sio.on_join_room : simpl never.
Arguments Sio.on_find_game : simpl never.
Arguments Sio.on_player_ready : simpl never.
Arguments Sio.on_paddle_move : simpl never.
Arguments Sio.on_ball_update : simpl never.
Arguments Sio.on_score_update : simpl never.
Arguments Sio.on_player_scored : simpl never.
Arguments Ws.on_create_room : simpl never.
Arguments Ws.on_join_room : simpl never.
Arguments Ws.on_find_game : simpl never.
Arguments Ws.on_player_ready : simpl never.
Arguments Ws.on_paddle_move : simpl never.
Arguments Ws.on_ball_update : simpl never.
Arguments Ws.on_score_update : simpl never.
Arguments Ws.on_player_scored : simpl never.

(** ** The two servers as transition systems *)

Inductive Transport := SocketIO | WebSocket.

Definition step (t : Transport) : Server → Event → StepResult :=
  match t with
  | SocketIO => Sio.step
  | WebSocket => Ws.step
  end.

(** Runs a sequence of events, collecting the deliveries in order. *)
Fixpoint run (t : Transport) (s : Server) (evs : list Event) : StepResult :=
  match evs with
  | [] => Running s []
  | e :: evs' =>
      match step t s e with
      | Running s' outs =>
          match run t s' evs' with
          | Running s'' outs' => Running s'' (outs ++ outs')
          | Crashed => Crashed
          end
      | Crashed => Crashed
      end
  end.

(** States the server can be in after some sequence of events. *)
Definition reachable (t : Transport) (s : Server) : Prop :=
  ∃ evs outs, run t initial evs = Running s outs.

(** The message handlers of a server, on the payload of an event. *)
Definition handler (t : Transport) (type : EventName) (sock : Sock)
    (playerId : string) (roomId : option string) (data : option Data)
    (env : Env) (s : Server) : Outcome Handled :=
  match t with
  | SocketIO => Sio.handler type sock playerId roomId data env s
  | WebSocket =>
      Ws.handler type sock playerId roomId (Ws.message_object data) env s
  end.

(** ** Predicates of the statements *)

Local Close Scope string_scope.

(** Number of players of a roster flagged as host. *)
Definition hosts (ps : list (string * Player)) : nat :=
  length (List.filter (λ kv, isHost kv.2) ps).

Record room_wf (room : Room) : Prop := mk_room_wf {
  wf_nodup : NoDup (keys (players room));
  wf_size : length (keys (players room)) ≤ 2;
  wf_hosts : hosts (players room) ≤ 1
}.

Definition rooms_wf (s : Server) : Prop :=
  map_Forall (λ _ room, room_wf room) (rooms s).

(** The room code under which an event may allocate a new room object:
    [create_room] and the pairing of [find_game] assign
    [rooms[code] = { .. }] for the code drawn from [Math.random]. *)
Definition may_allocate (e : Event) : option string :=
  match e with
  | Message _ create_room _ env | Message _ find_game _ env =>
      Some (gen_room_code (random36 env))
  | _ => None
  end.

(** The event is a [player_ready] that the handler accepts for room [r]
    (sender connected, bound to [r], a member of it) and after which the
    roster of [r] has exactly two players, all of them ready. *)
Definition ready_completes (s : Server) (e : Event) (r : string) (room : Room)
  : Prop :=
  ∃ sock data env v me,
    e = Message sock player_ready data env ∧
    vars s !! sock = Some v ∧ live v = true ∧
    roomId v = Some r ∧ truthy r = true ∧
    alist_get (playerId v) (players room) = Some me ∧
    let ps := alist_set (playerId v) (set_ready true me) (players room) in
    length (keys ps) = 2 ∧ forallb (λ kv, ready kv.2) ps = true.

(** ** Concrete sessions *)

Module Scenario.
Local Open Scope string_scope.

Definition named (n : string) : option Data :=
  Some (mkData (Some n) None None None None None).
Definition joining (n code : string) : option Data :=
  Some (mkData (Some n) (Some code) None None None None).
Definition scored (pid : string) : option Data :=
  Some (mkData None None None None None (Some pid)).
Definition bulk (sc : list (string * Num)) : option Data :=
  Some (mkData None None None None (Some sc) None).
Definition with_ball (b : Ball) : option Data :=
  Some (mkData None None None (Some b) None None).
(** A payload object without any of the fields. *)
Definition empty : option Data := Some no_data.

Definition at_time (t : Z) : Env := mkEnv "0.abc123xyz" t.

(** A creates a room (code ABC123), B joins it. *)
Definition lobby : list Event :=
  [Connect 1 "ua"; Connect 2 "ub";
   Message 1 create_room (named "A") (at_time 0);
   Message 2 join_room (joining "B" " abc123 ") (at_time 0)].

(** Both players get ready; the game starts at time 1000 ms. *)
Definition started : list Event :=
  lobby ++ [Message 1 player_ready empty (at_time 500);
            Message 2 player_ready empty (at_time 1000)].

(** A scores three times during set 1. *)
Definition set1_played : list Event :=
  started ++ [Message 1 player_scored (scored "ua") (at_time 2000);
              Message 1 player_scored (scored "ua") (at_time 3000);
              Message 2 player_scored (scored "ua") (at_time 4000)].

(** Both players leave. *)
Definition abandoned : list Event := started ++ [Disconnect 1; Disconnect 2].

(** While the game runs a third client creates a room, and [Math.random]
    gives the digits of the running game's code again. *)
Definition code_drawn_again : list Event :=
  started ++ [Connect 3 "uc"; Message 3 create_room (named "C") (at_time 2000)].

(** B reports a score of 2^53 for A. *)
Definition score_at_2_53 : list Event :=
  started ++
  [Message 2 score_update (bulk [("ua", of_Z 9007199254740992)]) (at_time 2000)].

(** A client sends [join_room] without a [roomId]. *)
Definition malformed_join : list Event :=
  [Connect 3 "uc"; Message 3 join_room (named "C") (at_time 0)].

(** The state a session leaves the server in. *)
Definition state_after (t : Transport) (evs : list Event) : Server :=
  match run t initial evs with
  | Running s _ => s
  | Crashed => initial
  end.

Definition outs_after (t : Transport) (evs : list Event) : list Out :=
  match run t initial evs with
  | Running _ outs => outs
  | Crashed => []
  end.
End Scenario.

(** Events that come from clients, as opposed to timers. *)
Definition inbound (e : Event) : bool :=
  match e with
  | Connect _ _ | Message _ _ _ _ | Disconnect _ => true
  | IntervalFires _ _ | TimeoutFires _ _ _ => false
  end.

(** Two states with the same rooms, queue, connection variables and pending
    timeouts; they may differ in the set of running match timers. *)
Definition same_session_state (s1 s2 : Server) : Prop :=
  rooms s1 = rooms s2 ∧ waitingPlayers s1 = waitingPlayers s2 ∧
  vars s1 = vars s2 ∧ timeouts s1 = timeouts s2 ∧ nextTimer s1 = nextTimer s2.

(** A digit of the base-36 rendering of a number. *)
Definition is_base36 (c : ascii) : bool :=
  let n := nat_of_ascii c in
  ((48 <=? n) && (n <=? 57)) || ((97 <=? n) && (n <=? 122)).

(** An upper-case letter or a digit. *)
Definition is_code_char (c : ascii) : bool :=
  let n := nat_of_ascii c in
  ((48 <=? n) && (n <=? 57)) || ((65 <=? n) && (n <=? 90)).

Fixpoint string_forall (P : ascii → bool) (s : string) : bool :=
  match s with
  | EmptyString => true
  | String c s' => P c && string_forall P s'
  end.

(** ** Further predicates *)

(** A room of a running server: somebody is in it, and the match state and
    the timer handle exist exactly from the moment the game started. *)
Record room_live (room : Room) : Prop := mk_room_live {
  live_roster : players room ≠ [];
  live_matchState : gameStarted room = true ↔ is_Some (matchState room);
  live_matchTimer : gameStarted room = true → is_Some (matchTimer room)
}.

Definition rooms_live (s : Server) : Prop :=
  map_Forall (λ _ room, room_live room) (rooms s).



(** ** Further concrete sessions *)

Module Session.
Local Open Scope string_scope.


(** Two connected players, nothing else. *)
Definition two_connected : list Event := [Connect 1 "ua"; Connect 2 "ub"].

(** B leaves a started game and C takes the free place. *)
Definition late_joiner : list Event :=
  Scenario.started ++
  [Disconnect 2; Connect 3 "uc";
   Message 3 join_room (Scenario.joining "C" "ABC123") (Scenario.at_time 3000)].

(** B, whose [player_ready] started the game, creates a room of its own. *)
Definition starter_moves_on : list Event :=
  Scenario.started ++
  [Message 2 create_room (Scenario.named "B") (mkEnv "0.zzzzzzzz" 3000)].
(** A and B were paired by a quick match; A was the one waiting. *)
Definition quick_paired : list Event :=
  two_connected ++
  [Message 1 find_game (Scenario.named "A") (Scenario.at_time 0);
   Message 2 find_game (Scenario.named "B") (Scenario.at_time 0)].
(** Set 1 and the rest period have run out; set 2 is being played. *)
Definition set2_running : list Event :=
  Scenario.set1_played ++ [IntervalFires 0 121000; IntervalFires 0 151000].

(** The ball was released two seconds after the start. *)
Definition ball_released : list Event :=
  Scenario.started ++ [TimeoutFires 1 true false].
End Session.

(** Timer handles are handed out in increasing order: every running match
    timer has a handle below the next one to be given. *)
Definition timers_fresh (s : Server) : Prop :=
  ∀ h, is_Some (intervals s !! h) → h < nextTimer s.

(** ** The client-side socket adapter *)

(** [class SocketAdapter] of socket-adapter.js.  Callbacks are opaque
    functions: a registered callback is a number, and what the adapter does
    with it is the list of calls it makes, in order.  The one callback the
    adapter registers itself, in [connect], is [resolve_connect].  JSON
    values are an abstract type [V]; [str] makes a string a value and
    [to_key] is the conversion of a value to a property key.  A message on
    the wire is the object itself: [JSON.stringify] followed by [JSON.parse]
    gives an equal object.  Event names are not names of [Object.prototype]
    properties. *)
Module Adapter.
Section adapter.
Context {V : Type} (str : string → V) (to_key : V → string).

Local Open Scope string_scope.

Inductive ConnectionType := socketio | websocket.

Inductive Callback :=
| user_callback (id : nat)
| resolve_connect.

Record SocketAdapter := mkAdapter {
  callbacks : list (string * list Callback);
  connected : bool;
  connectionType : option ConnectionType
}.

(** [constructor()] *)
Definition new : SocketAdapter := mkAdapter [] false None.

Definition set_connected (b : bool) (a : SocketAdapter) : SocketAdapter :=
  mkAdapter (callbacks a) b (connectionType a).

(** [this.callbacks[event]], an absent entry read as no callbacks. *)
Definition registered (event : string) (a : SocketAdapter) : list Callback :=
  default [] (alist_get event (callbacks a)).

(** [on(event, callback)] *)
Definition on (event : string) (callback : Callback) (a : SocketAdapter)
  : SocketAdapter :=
  mkAdapter (alist_set event (registered event a ++ [callback])%list (callbacks a))
            (connected a) (connectionType a).

(** The test on [window.location.hostname] in [connect]. *)
Definition isProduction (hostname : string) : bool :=
  negb (String.eqb hostname "localhost") && negb (String.eqb hostname "127.0.0.1").

(** [connect(url)]: picks the transport, then registers the callback that
    marks the adapter connected when the server's [connection] event comes. *)
Definition connect (hostname : string) (a : SocketAdapter) : SocketAdapter :=
  let type := if isProduction hostname then socketio else websocket in
  on "connection" resolve_connect
     (mkAdapter (callbacks a) (connected a) (Some type)).

(** One call of a user callback: its number and its argument ([None] when it
    is called without argument). *)
Definition Call : Type := nat * option (list (string * V)).

(** [callbacks.forEach(callback => callback(payload))] *)
Definition invoke (payload : option (list (string * V)))
    (acc : SocketAdapter * list Call) (cb : Callback) : SocketAdapter * list Call :=
  match cb with
  | user_callback id => (acc.1, (acc.2 ++ [(id, payload)])%list)
  | resolve_connect => (set_connected true acc.1, acc.2)
  end.

Definition dispatch (cbs : list Callback) (payload : option (list (string * V)))
    (a : SocketAdapter) : SocketAdapter * list Call :=
  fold_left (invoke payload) cbs (a, []).

(** [socket.onmessage] of the WebSocket transport; [None] is a message that
    [JSON.parse] rejects. *)
Definition onmessage (message : option (list (string * V))) (a : SocketAdapter)
  : SocketAdapter * list Call :=
  match message with
  | None => (a, [])
  | Some data =>
      let eventType :=
        match alist_get "type" data with
        | Some v => to_key v
        | None => "undefined"
        end in
      match alist_get eventType (callbacks a) with
      | Some cbs => dispatch cbs (Some (alist_del "type" data)) a
      | None => (a, [])
      end
  end.

(** [socket.onAny] of the Socket.io transport. *)
Definition onAny (eventName : string) (args : option (list (string * V)))
    (a : SocketAdapter) : SocketAdapter * list Call :=
  match alist_get eventName (callbacks a) with
  | Some cbs => dispatch cbs args a
  | None => (a, [])
  end.

(** [socket.onclose] and the Socket.io [disconnect] handler. *)
Definition onclose (a : SocketAdapter) : SocketAdapter * list Call :=
  let a' := set_connected false a in
  match alist_get "disconnect" (callbacks a') with
  | Some cbs => dispatch cbs None a'
  | None => (a', [])
  end.

(** What [emit] hands to the transport. *)
Inductive Sent :=
| sio_emit (event : string) (data : option (list (string * V)))
| ws_send (message : list (string * V)).

(** The object literal [{ type: event, ...data }]. *)
Definition frame (event : string) (data : list (string * V)) : list (string * V) :=
  fold_left (λ o kv, alist_set kv.1 kv.2 o) data [("type", str event)].

(** [emit(event, data)]; with no transport chosen [this.socket] is [null]
    and the [send] throws. *)
Definition emit (event : string) (data : option (list (string * V)))
    (a : SocketAdapter) : Outcome (list Sent) :=
  if connected a then
    match connectionType a with
    | Some socketio => Done [sio_emit event data]
    | Some websocket => Done [ws_send (frame event (default [] data))]
    | None => Thrown
    end
  else Done [].

(** A series of [on(event, callback)] calls with user callbacks. *)
Definition register (regs : list (string * nat)) (a : SocketAdapter) : SocketAdapter :=
  fold_left (λ a r, on r.1 (user_callback r.2) a) regs a.

(** The numbers of the user callbacks in a list of callbacks, in order. *)
Definition user_ids (cbs : list Callback) : list nat :=
  flat_map (λ cb, match cb with user_callback id => [id] | resolve_connect => [] end) cbs.

End adapter.
End Adapter.

(** * Properties *)

(** ** Association-list facts *)

Section alist_facts.
Context {A : Type}.
Implicit Types (l : list (string * A)) (k : string) (v : A).

Lemma alist_get_None k l : alist_get k l = None ↔ k ∉ keys l.
Proof.
  induction l as [|[k' v'] l IH]; simpl.
  - split; [intros _; apply not_elem_of_nil | done].
  - destruct (String.eqb_spec k k') as [->|Hne].
    + split; [done | intros []; left].
    + rewrite IH, not_elem_of_cons. tauto.
Qed.

Lemma alist_get_Some_elem k v l : alist_get k l = Some v → (k, v) ∈ l.
Proof.
  induction l as [|[k' v'] l IH]; simpl; [done|].
  destruct (String.eqb_spec k k') as [->|Hne].
  - intros [= ->]. left.
  - intros H. right. auto.
Qed.

Lemma alist_get_is_Some k l : is_Some (alist_get k l) ↔ k ∈ keys l.
Proof.
  rewrite <- not_eq_None_Some, alist_get_None.
  split; [apply dec_stable | auto].
Qed.

Lemma keys_alist_set_present k v l :
  k ∈ keys l → keys (alist_set k v l) = keys l.
Proof.
  induction l as [|[k' v'] l IH]; simpl.
  - intros H. by apply elem_of_nil in H.
  - destruct (String.eqb_spec k k') as [->|Hne]; [done|].
    intros [?|?]%elem_of_cons; [done|]. simpl. f_equal. auto.
Qed.

Lemma keys_alist_set_absent k v l :
  k ∉ keys l → keys (alist_set k v l) = keys l ++ [k].
Proof.
  induction l as [|[k' v'] l IH]; simpl; [done|].
  intros [? ?]%not_elem_of_cons.
  destruct (String.eqb_spec k k') as [->|Hne]; [done|].
  simpl. f_equal. auto.
Qed.

Lemma length_alist_set k v l :
  length (alist_set k v l) =
  if decide (k ∈ keys l) then length l else S (length l).
Proof.
  assert (Hlen : ∀ l', length l' = length (keys l'))
    by (intros; unfold keys; by rewrite length_map).
  rewrite (Hlen (alist_set k v l)), (Hlen l).
  case_decide.
  - by rewrite keys_alist_set_present.
  - rewrite keys_alist_set_absent by done. rewrite length_app. simpl. lia.
Qed.

Lemma NoDup_keys_alist_set k v l :
  NoDup (keys l) → NoDup (keys (alist_set k v l)).
Proof.
  intros Hnd. destruct (decide (k ∈ keys l)).
  - by rewrite keys_alist_set_present.
  - rewrite keys_alist_set_absent by done.
    apply NoDup_app. split_and!; [done | | apply NoDup_singleton].
    intros k' Hin ->%list_elem_of_singleton. done.
Qed.

Lemma keys_alist_del k l : keys (alist_del k l) = filter (λ k', k' ≠ k) (keys l).
Proof.
  induction l as [|[k' v'] l IH]; simpl; [done|].
  destruct (String.eqb_spec k k') as [->|Hne].
  - rewrite filter_cons_False by (intros H; by apply H). done.
  - rewrite filter_cons_True by congruence. simpl. by f_equal.
Qed.

Lemma length_alist_del k l : length (alist_del k l) ≤ length l.
Proof.
  induction l as [|[k' v'] l IH]; simpl; [done|].
  destruct (String.eqb k k'); simpl; lia.
Qed.

Lemma NoDup_keys_alist_del k l : NoDup (keys l) → NoDup (keys (alist_del k l)).
Proof. rewrite keys_alist_del. apply NoDup_filter. Qed.

Lemma alist_del_absent k l : k ∉ keys l → alist_del k l = l.
Proof.
  induction l as [|[k' v'] l IH]; simpl; [done|].
  intros [? ?]%not_elem_of_cons.
  destruct (String.eqb_spec k k') as [->|Hne]; [done|]. f_equal. auto.
Qed.

End alist_facts.

(** ** Numbers *)

Section num_facts.
Local Open Scope Z_scope.

Lemma iter_pos_nat {A} (f : A → A) n x :
  SpecFloat.iter_pos f n x = Nat.iter (Pos.to_nat n) f x.
Proof.
  revert x. induction n as [n IH|n IH|]; intros x; cbn [SpecFloat.iter_pos].
  - rewrite !IH, Pos2Nat.inj_xI, <- Nat.iter_add, <- Nat.iter_succ_r.
    f_equal. lia.
  - rewrite !IH, Pos2Nat.inj_xO, <- Nat.iter_add. f_equal. lia.
  - done.
Qed.

Lemma pow2_add j k p : pow2 j (pow2 k p) = pow2 (j + k) p.
Proof. unfold pow2. by rewrite Nat.iter_add. Qed.

Lemma Pos_iter_pow2 d p : Pos.iter xO p d = pow2 (Pos.to_nat d) p.
Proof. unfold pow2. by rewrite Pos2Nat.inj_iter. Qed.

Lemma Zpos_pow2 k p : Zpos (pow2 k p) = Zpos p * 2 ^ Z.of_nat k.
Proof.
  induction k as [|k IH].
  - simpl. lia.
  - change (pow2 (S k) p) with (xO (pow2 k p)).
    rewrite Pos2Z.inj_xO, IH, Nat2Z.inj_succ, Z.pow_succ_r; lia.
Qed.

Lemma digits_pow2 k p :
  Zpos (digits2_pos (pow2 k p)) = Zpos (digits2_pos p) + Z.of_nat k.
Proof.
  induction k as [|k IH].
  - simpl. lia.
  - change (pow2 (S k) p) with (xO (pow2 k p)). simpl digits2_pos.
    rewrite Pos2Z.inj_succ, IH. lia.
Qed.

Lemma digits2_size p : digits2_pos p = Pos.size p.
Proof. induction p; simpl; by rewrite ?IHp. Qed.

Lemma digits_bound (p : positive) (k : Z) :
  (0 ≤ k → Zpos p < 2 ^ k → Zpos (digits2_pos p) ≤ k)%Z.
Proof.
  intros Hk Hp. rewrite digits2_size.
  pose proof (Pos.size_le p) as Hle.
  apply Pos2Z.pos_le_pos in Hle. rewrite Pos2Z.inj_pow, (Pos2Z.inj_xO p) in Hle.
  assert (2 ^ Zpos (Pos.size p) < 2 ^ (k + 1)) as Hlt.
  { rewrite Z.pow_add_r, Z.pow_1_r by lia. lia. }
  apply Z.pow_lt_mono_r_iff in Hlt; lia.
Qed.

Lemma shr_exact k m e :
  shr (Build_shr_record (Zpos (pow2 k m)) false false) e (Z.of_nat k) =
  (Build_shr_record (Zpos m) false false, e + Z.of_nat k).
Proof.
  destruct k as [|k].
  - simpl. by rewrite Z.add_0_r.
  - unfold shr. cbn [Z.of_nat]. f_equal. rewrite iter_pos_nat, SuccNat2Pos.id_succ.
    generalize (S k). clear k. intros k. revert m.
    induction k as [|k IH]; intros m; [done|].
    rewrite Nat.iter_succ_r. change (pow2 (S k) m) with (xO (pow2 k m)).
    simpl shr_1. apply IH.
Qed.

(** Rounding a mantissa of 53 digits followed by [k] zero bits loses
    nothing. *)
Lemma round_aux_exact s m k e :
  Zpos (digits2_pos m) = 53 → -1074 ≤ e + Z.of_nat k ≤ 971 →
  binary_round_aux 53 1024 s (Zpos (pow2 k m)) e loc_Exact =
  S754_finite s m (e + Z.of_nat k).
Proof.
  intros Hd He. unfold binary_round_aux, shr_fexp.
  simpl Zdigits2. rewrite digits_pow2, Hd.
  replace (fexp 53 1024 (53 + Z.of_nat k + e) - e) with (Z.of_nat k)
    by (unfold fexp, emin; lia).
  simpl shr_record_of_loc. rewrite shr_exact. simpl.
  rewrite Hd.
  replace (fexp 53 1024 (53 + (e + Z.of_nat k)) - (e + Z.of_nat k)) with 0
    by (unfold fexp, emin; lia).
  simpl. case_match eqn:Hle; [done|]. apply Z.leb_gt in Hle. lia.
Qed.

Lemma binary_round_exact s q j :
  Zpos (digits2_pos q) ≤ 53 → (j ≤ 1000)%nat →
  binary_round 53 1024 s (pow2 j q) (- Z.of_nat j) = canon s q.
Proof.
  intros Hd Hj. unfold binary_round, canon.
  set (d := Zpos (digits2_pos q)) in *.
  assert (0 < d) by (unfold d; lia).
  set (K := Z.to_nat (53 - d)).
  assert (Zpos (digits2_pos (pow2 K q)) = 53) as HdK
    by (rewrite digits_pow2; fold d; lia).
  rewrite digits_pow2. fold d.
  replace (fexp 53 1024 (d + Z.of_nat j + - Z.of_nat j)) with (d - 53)
    by (unfold fexp, emin; lia).
  unfold shl_align.
  destruct (d - 53 - - Z.of_nat j) as [|p|p] eqn:Hdelta.
  - replace (pow2 j q) with (pow2 0 (pow2 K q))
      by (rewrite pow2_add; f_equal; lia).
    rewrite round_aux_exact by (simpl; lia). f_equal. simpl. lia.
  - replace (pow2 j q) with (pow2 (Pos.to_nat p) (pow2 K q))
      by (rewrite pow2_add; f_equal; lia).
    rewrite round_aux_exact by lia. f_equal. lia.
  - rewrite Pos_iter_pow2, pow2_add.
    replace (pow2 (Pos.to_nat p + j) q) with (pow2 0 (pow2 K q))
      by (rewrite pow2_add; f_equal; lia).
    rewrite round_aux_exact by (simpl; lia). f_equal. simpl. lia.
Qed.

Lemma of_Z_pos q : Zpos q < 2 ^ 53 → of_Z (Zpos q) = canon false q.
Proof.
  intros Hq. apply (binary_round_exact false q 0); [|lia].
  by apply digits_bound.
Qed.

Lemma of_Z_neg q : Zpos q < 2 ^ 53 → of_Z (Zneg q) = canon true q.
Proof.
  intros Hq. apply (binary_round_exact true q 0); [|lia].
  by apply digits_bound.
Qed.

Lemma of_Z_scaled n :
  - 2 ^ 53 < n < 2 ^ 53 →
  binary_normalize 53 1024 (n * 2 ^ 52) (-52) false = of_Z n.
Proof.
  intros Hn. destruct n as [|q|q].
  - done.
  - rewrite of_Z_pos by lia.
    replace (Zpos q * 2 ^ 52) with (Zpos (pow2 52 q)) by apply Zpos_pow2.
    apply (binary_round_exact false q 52); [|lia]. apply digits_bound; lia.
  - rewrite of_Z_neg by lia.
    replace (Zneg q * 2 ^ 52) with (Zneg (pow2 52 q))
      by (rewrite <- !Pos2Z.opp_pos, Zpos_pow2; lia).
    apply (binary_round_exact true q 52); [|lia]. apply digits_bound; lia.
Qed.

(** Adding 1 to the double of an integer: the sum before it is rounded. *)
Lemma add_canon_one s q :
  Zpos q < 2 ^ 53 →
  num_add (canon s q) (of_Z 1) =
  binary_normalize 53 1024 ((cond_Zopp s (Zpos q) + 1) * 2 ^ 52) (-52) false.
Proof.
  intros Hq. pose proof (digits_bound q 53 ltac:(lia) Hq) as Hd.
  assert (0 < Zpos (digits2_pos q)) by lia.
  unfold num_add, canon. change (of_Z 1) with (S754_finite false (pow2 52 1) (-52)).
  set (d := Zpos (digits2_pos q)) in *.
  cbn [SFadd]. rewrite Z.min_r by lia.
  f_equal.
  assert (fst (shl_align (pow2 (Z.to_nat (53 - d)) q) (d - 53) (-52)) = pow2 52 q)
    as ->.
  { unfold shl_align. destruct (-52 - (d - 53)) as [|p|p] eqn:Hdelta; cbn [fst].
    - f_equal. lia.
    - exfalso. lia.
    - rewrite Pos_iter_pow2, pow2_add. f_equal. lia. }
  change (fst (shl_align (pow2 52 1) (-52) (-52))) with (pow2 52 1).
  rewrite !Zpos_pow2. destruct s; simpl cond_Zopp; lia.
Qed.

(** Below [2^53] in absolute value, adding 1 to the double of an integer
    gives the double of the next integer. *)
Lemma add_one_exact n :
  - 2 ^ 53 ≤ n < 2 ^ 53 → num_add (of_Z n) (of_Z 1) = of_Z (n + 1).
Proof.
  intros Hn.
  destruct (decide (n = - 2 ^ 53)) as [->|]; [by vm_compute|].
  destruct (decide (n = 2 ^ 53 - 1)) as [->|]; [by vm_compute|].
  destruct n as [|q|q].
  - by vm_compute.
  - rewrite of_Z_pos, add_canon_one by lia. apply of_Z_scaled. simpl cond_Zopp. lia.
  - rewrite of_Z_neg, add_canon_one by lia. apply of_Z_scaled. simpl cond_Zopp. lia.
Qed.
End num_facts.

Lemma or_zero_of_Z n :
  (- 2 ^ 53 ≤ n < 2 ^ 53)%Z → or_zero (Some (of_Z n)) = of_Z n.
Proof.
  intros Hn.
  destruct (decide (n = - 2 ^ 53)%Z) as [->|]; [by vm_compute|].
  destruct n as [|q|q]; [done| |].
  - by rewrite of_Z_pos by lia.
  - by rewrite of_Z_neg by lia.
Qed.

(** ** The WebSocket cases are the Socket.io handlers *)

Lemma ws_handler_eq type sock pid rid d env s :
  Ws.handler type sock pid rid d env s =
  Sio.handler type sock pid rid (Some d) env s.
Proof. by destruct type. Qed.

Ltac ws_as_sio_at W S :=
  repeat match goal with
  | |- context [W ?a ?b ?c ?d ?e ?f] =>
      change (W a b c d e f) with (S a b c (Some d) e f)
  | H : context [W ?a ?b ?c ?d ?e ?f] |- _ =>
      change (W a b c d e f) with (S a b c (Some d) e f) in H
  end.

(** Reads every WebSocket case as the Socket.io handler of the event. *)
Ltac ws_as_sio :=
  repeat match goal with
  | |- context [Ws.message_object (Some ?d)] =>
      change (Ws.message_object (Some d)) with d
  | |- context [Ws.message_object None] =>
      change (Ws.message_object None) with no_data
  | H : context [Ws.message_object (Some ?d)] |- _ =>
      change (Ws.message_object (Some d)) with d in H
  | H : context [Ws.message_object None] |- _ =>
      change (Ws.message_object None) with no_data in H
  end;
  rewrite ?ws_handler_eq in *;
  ws_as_sio_at Ws.on_create_room Sio.on_create_room;
  ws_as_sio_at Ws.on_join_room Sio.on_join_room;
  ws_as_sio_at Ws.on_find_game Sio.on_find_game;
  ws_as_sio_at Ws.on_player_ready Sio.on_player_ready;
  ws_as_sio_at Ws.on_paddle_move Sio.on_paddle_move;
  ws_as_sio_at Ws.on_ball_update Sio.on_ball_update;
  ws_as_sio_at Ws.on_score_update Sio.on_score_update;
  ws_as_sio_at Ws.on_player_scored Sio.on_player_scored.

Lemma ws_matchTimer_callback_eq : Ws.matchTimer_callback = Sio.matchTimer_callback.
Proof. reflexivity. Qed.

Lemma ws_ball_start_callback_eq : Ws.ball_start_callback = Sio.ball_start_callback.
Proof. reflexivity. Qed.

Lemma ws_ball_confirm_callback_eq :
  Ws.ball_confirm_callback = Sio.ball_confirm_callback.
Proof. reflexivity. Qed.

(** ** Room well-formedness *)

Lemma length_keys {A} (l : list (string * A)) : length (keys l) = length l.
Proof. unfold keys. apply length_map. Qed.

Lemma hosts_alist_set_nonhost k p ps :
  isHost p = false → hosts (alist_set k p ps) ≤ hosts ps.
Proof.
  intros Hp. unfold hosts.
  induction ps as [|[k' p'] ps IH]; simpl.
  - by rewrite Hp.
  - destruct (String.eqb k k'); simpl.
    + rewrite Hp. destruct (isHost p'); simpl; lia.
    + destruct (isHost p'); simpl; lia.
Qed.

Lemma hosts_alist_set_same k p me ps :
  alist_get k ps = Some me → isHost p = isHost me →
  hosts (alist_set k p ps) = hosts ps.
Proof.
  intros Hget Hp. unfold hosts.
  induction ps as [|[k' p'] ps IH]; simpl in *; [done|].
  destruct (String.eqb k k'); simpl.
  - injection Hget as ->. rewrite Hp. by destruct (isHost me).
  - destruct (isHost p'); simpl; auto.
Qed.

Lemma hosts_alist_del k ps : hosts (alist_del k ps) ≤ hosts ps.
Proof.
  unfold hosts. induction ps as [|[k' p'] ps IH]; simpl; [done|].
  destruct (String.eqb k k'); simpl; destruct (isHost p'); simpl; lia.
Qed.

Lemma room_wf_same_players room room' :
  players room' = players room → room_wf room → room_wf room'.
Proof. intros Heq [? ? ?]. split; by rewrite Heq. Qed.

Lemma room_wf_join k p room :
  isHost p = false → length (keys (players room)) < 2 → room_wf room →
  room_wf (set_players (alist_set k p (players room)) room).
Proof.
  intros Hp Hlt [Hnd Hsz Hh]. split; simpl.
  - by apply NoDup_keys_alist_set.
  - rewrite length_keys, length_alist_set. rewrite length_keys in Hlt.
    case_decide; lia.
  - pose proof (hosts_alist_set_nonhost k p (players room) Hp). lia.
Qed.

Lemma room_wf_ready k me room room' :
  players room' = alist_set k (set_ready true me) (players room) →
  alist_get k (players room) = Some me → room_wf room → room_wf room'.
Proof.
  intros Heq Hget [Hnd Hsz Hh].
  assert (k ∈ keys (players room)) by (apply alist_get_is_Some; eauto).
  split; rewrite Heq.
  - by apply NoDup_keys_alist_set.
  - by rewrite keys_alist_set_present.
  - by rewrite (hosts_alist_set_same k _ me).
Qed.

Lemma room_wf_leave k room :
  room_wf room → room_wf (set_players (alist_del k (players room)) room).
Proof.
  intros [Hnd Hsz Hh]. split; simpl.
  - by apply NoDup_keys_alist_del.
  - rewrite length_keys in *. pose proof (length_alist_del k (players room)). lia.
  - pose proof (hosts_alist_del k (players room)). lia.
Qed.

Lemma bound_room_Some rid s r room :
  bound_room rid s = Some (r, room) →
  rid = Some r ∧ truthy r = true ∧ rooms s !! r = Some room.
Proof.
  unfold bound_room. destruct rid as [r0|]; [|done].
  destruct (truthy r0) eqn:Ht; [|done].
  destruct (rooms s !! r0) eqn:Hr; simpl; [|done].
  intros [= <- <-]. done.
Qed.

Lemma bound_room_intro s r room :
  truthy r = true → rooms s !! r = Some room →
  bound_room (Some r) s = Some (r, room).
Proof. intros Ht Hr. unfold bound_room. by rewrite Ht, Hr. Qed.

Ltac bound_room_inv :=
  repeat match goal with
  | H : bound_room _ _ = Some (_, _) |- _ =>
      apply bound_room_Some in H; destruct H as (? & ? & ?)
  end.

Lemma rooms_wf_insert s r room :
  room_wf room → rooms_wf s → map_Forall (λ _ room, room_wf room) (<[r := room]> (rooms s)).
Proof. intros. by apply map_Forall_insert_2. Qed.

Lemma fresh_room_wf k p g :
  room_wf (mkRoom [(k, p)] g false None None).
Proof.
  split; simpl; [apply NoDup_singleton | lia |].
  unfold hosts. simpl. destruct (isHost p); simpl; lia.
Qed.

Lemma paired_room_wf k1 k2 p1 p2 g :
  k2 ≠ k1 → isHost p2 = false →
  room_wf (mkRoom (alist_set k2 p2 (alist_set k1 p1 [])) g false None None).
Proof.
  intros Hne Hp2. simpl.
  destruct (String.eqb_spec k2 k1) as [?|_]; [done|].
  split; simpl.
  - apply NoDup_cons. split; [|apply NoDup_singleton].
    intros ?%list_elem_of_singleton. done.
  - lia.
  - unfold hosts. simpl. rewrite Hp2. destruct (isHost p1); simpl; lia.
Qed.

Lemma find_negb_eqb_Some me (l : list string) k :
  find (λ pid, negb (String.eqb pid me)) l = Some k → k ≠ me ∧ k ∈ l.
Proof.
  intros H. apply find_some in H as [Hin Hneq].
  split; [|by apply list_elem_of_In].
  intros ->. by rewrite String.eqb_refl in Hneq.
Qed.

Lemma handler_wf type sock pid rid data env s rid' s' outs :
  Sio.handler type sock pid rid data env s = Done (rid', s', outs) →
  rooms_wf s → rooms_wf s'.
Proof.
  intros H Hwf. destruct type; simpl in H.
  - unfold Sio.on_create_room in H. case_match; simplify_eq. 
    apply rooms_wf_insert; [apply fresh_room_wf | done].
  - unfold Sio.on_join_room in H. repeat case_match; simplify_eq; try done.
    all: apply rooms_wf_insert; [|done].
    all: apply room_wf_join; [done | | by eapply Hwf].
    all: match goal with H : (2 <=? _) = false |- _ => apply Nat.leb_gt in H end; done.
  - unfold Sio.on_find_game in H. repeat case_match; simplify_eq; try done.
    apply rooms_wf_insert; [|done].
    match goal with H : find _ _ = Some _ |- _ => apply find_negb_eqb_Some in H as [? ?] end.
    by apply paired_room_wf.
  - unfold Sio.on_player_ready in H. repeat case_match; simplify_eq; try done.
    all: bound_room_inv.
    all: apply rooms_wf_insert; [|done].
    all: eapply room_wf_ready; [| eassumption | by eapply Hwf]; done.
  - unfold Sio.on_paddle_move in H. repeat case_match; simplify_eq; try done.
    bound_room_inv. apply rooms_wf_insert; [|done].
    eapply room_wf_same_players; [|by eapply Hwf]. done.
  - unfold Sio.on_ball_update in H. repeat case_match; simplify_eq; try done.
    bound_room_inv. apply rooms_wf_insert; [|done].
    eapply room_wf_same_players; [|by eapply Hwf]. done.
  - unfold Sio.on_score_update in H. repeat case_match; simplify_eq; try done.
    bound_room_inv. apply rooms_wf_insert; [|done].
    eapply room_wf_same_players; [|by eapply Hwf]. done.
  - unfold Sio.on_player_scored in H. repeat case_match; simplify_eq; try done.
    bound_room_inv. apply rooms_wf_insert; [|done].
    eapply room_wf_same_players; [|by eapply Hwf]. done.
  - by simplify_eq.
Qed.

Lemma rooms_wf_ext s s' : rooms s' = rooms s → rooms_wf s → rooms_wf s'.
Proof. unfold rooms_wf. by intros ->. Qed.

Lemma rooms_clearInterval t s : rooms (clearInterval t s) = rooms s.
Proof. by destruct t. Qed.

Lemma on_disconnect_wf sock pid rid s s' outs :
  Sio.on_disconnect sock pid rid s = (s', outs) → rooms_wf s → rooms_wf s'.
Proof.
  unfold Sio.on_disconnect. intros H Hwf.
  repeat case_match; simplify_eq; try done; bound_room_inv; simpl in *.
  all: try (rewrite rooms_clearInterval; simpl).
  all: try (by apply map_Forall_delete).
  all: apply rooms_wf_insert; [|done].
  all: apply room_wf_leave; by eapply Hwf.
Qed.

Lemma on_close_wf sock pid rid s s' outs :
  Ws.on_close sock pid rid s = (s', outs) → rooms_wf s → rooms_wf s'.
Proof.
  unfold Ws.on_close. intros H Hwf.
  repeat case_match; simplify_eq; try done; bound_room_inv; simpl in *.
  all: try (by apply map_Forall_delete).
  all: apply rooms_wf_insert; [|done].
  all: apply room_wf_leave; by eapply Hwf.
Qed.


Lemma matchTimer_callback_wf p0 p1 rid now s s' outs :
  Sio.matchTimer_callback p0 p1 rid now s = Done (s', outs) →
  rooms_wf s → rooms_wf s'.
Proof.
  unfold Sio.matchTimer_callback. intros H Hwf.
  repeat case_match; simplify_eq; simpl in *.
  all: eapply rooms_wf_ext; [try apply rooms_clearInterval; reflexivity|].
  all: apply rooms_wf_insert; [|done].
  all: eapply room_wf_same_players; [|by eapply Hwf]; done.
Qed.

Lemma ball_start_callback_wf owner rid px py s s' outs :
  Sio.ball_start_callback owner rid px py s = Done (s', outs) →
  rooms_wf s → rooms_wf s'.
Proof.
  unfold Sio.ball_start_callback. intros H Hwf.
  repeat case_match; simplify_eq; simpl in *; try done.
  all: apply rooms_wf_insert; [|done].
  all: eapply room_wf_same_players; [|by eapply Hwf]; done.
Qed.

Lemma ball_confirm_callback_wf rid s s' outs :
  Sio.ball_confirm_callback rid s = Done (s', outs) → rooms_wf s → rooms_wf s'.
Proof.
  unfold Sio.ball_confirm_callback. intros H Hwf.
  repeat case_match; by simplify_eq.
Qed.

Lemma step_wf t s e s' outs :
  step t s e = Running s' outs → rooms_wf s → rooms_wf s'.
Proof.
  intros H Hwf. destruct t, e; simpl in H.
  all: repeat case_match; simplify_eq; try done.
  all: rewrite ?ws_handler_eq in *.
  all: try match goal with
       | |- rooms_wf (set_vars _ ?s0) => apply (rooms_wf_ext s0); [reflexivity|]
       end.
  all: try (by eapply handler_wf).
  all: try (by eapply on_disconnect_wf).
  all: try (by eapply on_close_wf).
  all: try (by eapply matchTimer_callback_wf).
  all: try (eapply ball_start_callback_wf; [eassumption|]; by apply (rooms_wf_ext s)).
  all: try (eapply ball_confirm_callback_wf; [eassumption|]; by apply (rooms_wf_ext s)).
Qed.

Lemma run_wf t evs : ∀ s s' outs,
  run t s evs = Running s' outs → rooms_wf s → rooms_wf s'.
Proof.
  induction evs as [|e evs IH]; simpl; intros s s' outs H Hwf.
  - by simplify_eq.
  - destruct (step t s e) as [s1 o1|] eqn:Hstep; [|done].
    destruct (run t s1 evs) as [s2 o2|] eqn:Hrun; [|done].
    simplify_eq. eapply IH; [eassumption|]. by eapply step_wf.
Qed.

Lemma reachable_wf t s : reachable t s → rooms_wf s.
Proof.
  intros (evs & outs & Hrun). eapply run_wf; [eassumption|].
  unfold rooms_wf. simpl. apply map_Forall_empty.
Qed.

(** What the handlers of either server do is what the Socket.io handlers
    do, for the WebSocket server on the message object. *)
Lemma handler_sio t type sock pid rid data env s :
  handler t type sock pid rid data env s =
  Sio.handler type sock pid rid
    (match t with
     | SocketIO => data
     | WebSocket => Some (Ws.message_object data)
     end) env s.
Proof. destruct t; [done|]. apply ws_handler_eq. Qed.

Lemma handler_Some t type sock pid rid d env s :
  handler t type sock pid rid (Some d) env s =
  Sio.handler type sock pid rid (Some d) env s.
Proof. by rewrite handler_sio; destruct t. Qed.

(** ** Room capacity *)

(** What [join_room] does with a submitted code, by the state of the target. *)
Lemma join_room_cases sock pid rid data env s submitted :
  d_roomId data = Some submitted →
  let code := toUpperCase (trim submitted) in
  let joining :=
    mkPlayer sock false false (or_default (d_playerName data) "Player") in
  match rooms s !! code with
  | Some room =>
      if decide (length (keys (players room)) < 2) then
        ∃ outs,
          Sio.on_join_room sock pid rid (Some data) env s =
          Done (Some code,
                set_rooms
                  (<[code := set_players (alist_set pid joining (players room)) room]>
                     (rooms s)) s,
                outs)
      else
        Sio.on_join_room sock pid rid (Some data) env s =
        Done (Some code, s, [(sock, out_error "Room is full")])
  | None =>
      Sio.on_join_room sock pid rid (Some data) env s =
      Done (rid, s, [(sock, out_error "Room not found")])
  end.
Proof.
  intros Hd. unfold Sio.on_join_room. cbv beta iota zeta. rewrite Hd.
  destruct (rooms s !! toUpperCase (trim submitted)) as [room|]; [|done].
  case_decide as Hlt.
  - apply Nat.leb_gt in Hlt. rewrite Hlt. case_match; eauto.
  - apply Nat.nlt_ge, Nat.leb_le in Hlt. by rewrite Hlt.
Qed.

(** A [find_game] either pairs the caller with a waiting player in a new
    two-player room, or creates no room. *)
Lemma find_game_cases sock pid rid data env s rid' s' outs :
  Sio.on_find_game sock pid rid data env s = Done (rid', s', outs) →
  (rooms s' = rooms s ∧ ∀ o, o ∈ outs → o = (sock, out_waiting_for_opponent))
  ∨ (∃ other room,
       other ≠ pid ∧ rid' = Some (gen_room_code (random36 env)) ∧
       rooms s' = <[gen_room_code (random36 env) := room]> (rooms s) ∧
       keys (players room) = [pid; other] ∧
       gameStarted room = false).
Proof.
  unfold Sio.on_find_game. intros H.
  repeat case_match; simplify_eq; simpl.
  2-4: left; split; [done|]; intros o Ho; simpl in Ho.
  2-3: by apply elem_of_nil in Ho.
  2: by apply list_elem_of_singleton in Ho.
  right.
  match goal with H : find _ _ = Some _ |- _ => apply find_negb_eqb_Some in H as [Hne ?] end.
  eexists _, _. split_and!; [done | done | done | | done]. simpl.
  destruct (String.eqb_spec s0 pid); done.
Qed.

(** C1: in every reachable state of either server every room has at most
    two players (its roster has no repeated key and at most two entries);
    [join_room] adds the caller only to an existing room with fewer than two
    players, and otherwise sends exactly one error, "Room is full" or "Room
    not found", to the caller alone and leaves the state of all rooms as it
    was; a room created by quick match has exactly two players. *)
Theorem room_capacity (t : Transport) :
  (∀ s r room, reachable t s → rooms s !! r = Some room →
     NoDup (keys (players room)) ∧ length (keys (players room)) ≤ 2)
  ∧ (∀ sock pid rid data env s submitted,
       d_roomId data = Some submitted →
       let code := toUpperCase (trim submitted) in
       let joining :=
         mkPlayer sock false false (or_default (d_playerName data) "Player") in
       match rooms s !! code with
       | Some room =>
           if decide (length (keys (players room)) < 2) then
             ∃ outs,
               handler t join_room sock pid rid (Some data) env s =
               Done (Some code,
                     set_rooms
                       (<[code := set_players (alist_set pid joining (players room)) room]>
                          (rooms s)) s,
                     outs)
           else
             handler t join_room sock pid rid (Some data) env s =
             Done (Some code, s, [(sock, out_error "Room is full")])
       | None =>
           handler t join_room sock pid rid (Some data) env s =
           Done (rid, s, [(sock, out_error "Room not found")])
       end)
  ∧ (∀ sock pid rid data env s rid' s' outs,
       handler t find_game sock pid rid data env s = Done (rid', s', outs) →
       (rooms s' = rooms s ∧ ∀ o, o ∈ outs → o = (sock, out_waiting_for_opponent))
       ∨ (∃ other room,
            other ≠ pid ∧ rid' = Some (gen_room_code (random36 env)) ∧
            rooms s' = <[gen_room_code (random36 env) := room]> (rooms s) ∧
            keys (players room) = [pid; other] ∧
            gameStarted room = false)).
Proof.
  split_and!.
  - intros s r room Hreach Hr.
    destruct (reachable_wf t s Hreach r room Hr) as [? ? _]. done.
  - intros. rewrite handler_Some. by apply join_room_cases.
  - intros sock pid rid data env s rid' s' outs H. rewrite handler_sio in H.
    by eapply find_game_cases.
Qed.

(** ** The [gameStarted] flag *)

Ltac room_lookup :=
  simpl in *; rewrite ?rooms_clearInterval in *; simpl in *;
  repeat match goal with
  | H : <[?a := _]> _ !! ?b = Some _ |- _ =>
      destruct (decide (a = b)); simplify_map_eq
  | H : delete ?a _ !! ?b = Some _ |- _ =>
      destruct (decide (a = b)); simplify_map_eq
  end.

(** Without an allocation under code [r], the room found at [r] after a
    handler ran was there before, and [gameStarted] either kept its value or
    was set by [player_ready]. *)
Lemma handler_room_origin type sock pid rid data env s rid' s' outs r room' :
  Sio.handler type sock pid rid data env s = Done (rid', s', outs) →
  may_allocate (Message sock type data env) ≠ Some r →
  rooms s' !! r = Some room' →
  ∃ room, rooms s !! r = Some room ∧
          (gameStarted room' = gameStarted room ∨
           (type = player_ready ∧ gameStarted room' = true)).
Proof.
  intros H Hfresh Hr. destruct type; simpl in H, Hfresh.
  - unfold Sio.on_create_room in H. case_match; simplify_eq. room_lookup. eauto.
  - unfold Sio.on_join_room in H.
    repeat case_match; simplify_eq; room_lookup; eauto.
  - unfold Sio.on_find_game in H.
    repeat case_match; simplify_eq; room_lookup; eauto.
  - unfold Sio.on_player_ready in H.
    repeat case_match; simplify_eq; bound_room_inv; room_lookup; eauto.
  - unfold Sio.on_paddle_move in H.
    repeat case_match; simplify_eq; bound_room_inv; room_lookup; eauto.
  - unfold Sio.on_ball_update in H.
    repeat case_match; simplify_eq; bound_room_inv; room_lookup; eauto.
  - unfold Sio.on_score_update in H.
    repeat case_match; simplify_eq; bound_room_inv; room_lookup; eauto.
  - unfold Sio.on_player_scored in H.
    repeat case_match; simplify_eq; bound_room_inv; room_lookup; eauto.
  - simplify_eq. eauto.
Qed.

Lemma on_disconnect_room_origin sock pid rid s s' outs r room' :
  Sio.on_disconnect sock pid rid s = (s', outs) → rooms s' !! r = Some room' →
  ∃ room, rooms s !! r = Some room ∧ gameStarted room' = gameStarted room.
Proof.
  unfold Sio.on_disconnect. intros H Hr.
  repeat case_match; simplify_eq; bound_room_inv; room_lookup; eauto.
Qed.

Lemma on_close_room_origin sock pid rid s s' outs r room' :
  Ws.on_close sock pid rid s = (s', outs) → rooms s' !! r = Some room' →
  ∃ room, rooms s !! r = Some room ∧ gameStarted room' = gameStarted room.
Proof.
  unfold Ws.on_close. intros H Hr.
  repeat case_match; simplify_eq; bound_room_inv; room_lookup; eauto.
Qed.

Lemma matchTimer_callback_room_origin p0 p1 rid now s s' outs r room' :
  Sio.matchTimer_callback p0 p1 rid now s = Done (s', outs) →
  rooms s' !! r = Some room' →
  ∃ room, rooms s !! r = Some room ∧ gameStarted room' = gameStarted room.
Proof.
  unfold Sio.matchTimer_callback. intros H Hr.
  repeat case_match; simplify_eq; room_lookup; eauto.
Qed.

Lemma ball_start_callback_room_origin owner rid px py s s' outs r room' :
  Sio.ball_start_callback owner rid px py s = Done (s', outs) →
  rooms s' !! r = Some room' →
  ∃ room, rooms s !! r = Some room ∧ gameStarted room' = gameStarted room.
Proof.
  unfold Sio.ball_start_callback. intros H Hr.
  repeat case_match; simplify_eq; room_lookup; eauto.
Qed.

Lemma ball_confirm_callback_room_origin rid s s' outs r room' :
  Sio.ball_confirm_callback rid s = Done (s', outs) →
  rooms s' !! r = Some room' →
  ∃ room, rooms s !! r = Some room ∧ gameStarted room' = gameStarted room.
Proof.
  unfold Sio.ball_confirm_callback. intros H Hr.
  repeat case_match; simplify_eq; eauto.
Qed.

(** The same for a whole transition of either server. *)
Lemma step_room_origin t s e s' outs r room' :
  step t s e = Running s' outs →
  may_allocate e ≠ Some r →
  rooms s' !! r = Some room' →
  ∃ room, rooms s !! r = Some room ∧
          (gameStarted room = true → gameStarted room' = true).
Proof.
  intros H Hfresh Hr.
  assert (Hweak : ∀ room, gameStarted room' = gameStarted room →
                          gameStarted room = true → gameStarted room' = true)
    by (intros ? -> ?; done).
  destruct t, e; simpl in H; repeat case_match; simplify_eq; simpl in Hr; eauto.
  all: rewrite ?ws_handler_eq in *.
  all: try (edestruct handler_room_origin as (room & ? & [?|[_ ?]]);
            [eassumption | eassumption | eassumption | | ]; by eauto).
  all: try (edestruct on_disconnect_room_origin as (room & ? & ?);
            [eassumption | eassumption | ]; by eauto).
  all: try (edestruct on_close_room_origin as (room & ? & ?);
            [eassumption | eassumption | ]; by eauto).
  all: try (edestruct matchTimer_callback_room_origin as (room & ? & ?);
            [eassumption | eassumption | ]; by eauto).
  all: try (edestruct ball_start_callback_room_origin as (room & ? & ?);
            [eassumption | eassumption | ]; by eauto).
  all: try (edestruct ball_confirm_callback_room_origin as (room & ? & ?);
            [eassumption | eassumption | ]; by eauto).
Qed.

(** While no room is allocated under its code, a room found at the end of a
    run existed throughout it, and stayed started once it was. *)
Lemma run_room_origin t evs : ∀ s s' outs r room',
  run t s evs = Running s' outs →
  Forall (λ e, may_allocate e ≠ Some r) evs →
  rooms s' !! r = Some room' →
  ∃ room, rooms s !! r = Some room ∧
          (gameStarted room = true → gameStarted room' = true).
Proof.
  induction evs as [|e evs IH]; simpl; intros s s' outs r room' H Hf Hr'.
  - simplify_eq. eauto.
  - destruct (step t s e) as [s1 o1|] eqn:Hstep; [|done].
    destruct (run t s1 evs) as [s2 o2|] eqn:Hrun; [|done].
    simplify_eq. apply Forall_cons in Hf as [Hfe Hf].
    destruct (IH _ _ _ _ _ Hrun Hf Hr') as (room1 & Hr1 & Hs1).
    destruct (step_room_origin _ _ _ _ _ _ _ Hstep Hfe Hr1) as (room & Hr & Hs).
    eauto.
Qed.

(** Only an accepted [player_ready] that completes the roster sets the flag. *)
Lemma handler_starts type sock pid rid data env s rid' s' outs r room room' :
  Sio.handler type sock pid rid data env s = Done (rid', s', outs) →
  rooms s !! r = Some room → gameStarted room = false →
  rooms s' !! r = Some room' → gameStarted room' = true →
  type = player_ready ∧ rid = Some r ∧ truthy r = true ∧
  ∃ me, alist_get pid (players room) = Some me ∧
    let ps := alist_set pid (set_ready true me) (players room) in
    length (keys ps) = 2 ∧ forallb (λ kv, ready kv.2) ps = true.
Proof.
  intros H Hr Hf Hr' Ht. destruct type; simpl in H.
  - unfold Sio.on_create_room in H. case_match; simplify_eq. room_lookup. congruence.
  - unfold Sio.on_join_room in H.
    repeat case_match; simplify_eq; room_lookup; congruence.
  - unfold Sio.on_find_game in H.
    repeat case_match; simplify_eq; room_lookup; congruence.
  - unfold Sio.on_player_ready in H.
    repeat case_match; simplify_eq; bound_room_inv; room_lookup; try congruence.
    split_and!; try done. eexists; split; [done|]. simpl.
    match goal with H : keys _ = [_; _] |- _ => rewrite H end. done.
  - unfold Sio.on_paddle_move in H.
    repeat case_match; simplify_eq; bound_room_inv; room_lookup; congruence.
  - unfold Sio.on_ball_update in H.
    repeat case_match; simplify_eq; bound_room_inv; room_lookup; congruence.
  - unfold Sio.on_score_update in H.
    repeat case_match; simplify_eq; bound_room_inv; room_lookup; congruence.
  - unfold Sio.on_player_scored in H.
    repeat case_match; simplify_eq; bound_room_inv; room_lookup; congruence.
  - simplify_eq. congruence.
Qed.

(** An accepted [player_ready] that completes the roster starts the game. *)
Lemma on_player_ready_starts sock pid data env s r room me :
  truthy r = true → rooms s !! r = Some room →
  alist_get pid (players room) = Some me →
  let ps := alist_set pid (set_ready true me) (players room) in
  length (keys ps) = 2 → forallb (λ kv, ready kv.2) ps = true →
  ∃ s' outs room',
    Sio.on_player_ready sock pid (Some r) data env s = Done (Some r, s', outs) ∧
    rooms s' !! r = Some room' ∧ gameStarted room' = true ∧ players room' = ps.
Proof.
  intros Ht Hr Hme ps Hlen Hall. unfold Sio.on_player_ready.
  rewrite (bound_room_intro s r room Ht Hr), Hme. fold ps. rewrite Hall.
  destruct (keys ps) as [|p0 [|p1 [|? ?]]] eqn:Hk; simpl in Hlen; try lia.
  eexists _, _, _. split; [done|]. simpl. rewrite lookup_insert_eq. done.
Qed.

(** C2, as stated, fails: a room code is drawn without a check that it is
    free.  While the game of A and B runs under the code ABC123, a third
    client creates a room and [Math.random] gives the same digits again:
    [rooms["ABC123"]] is replaced by the new room, with the third client
    alone in it and [gameStarted] false, while the connections of A and B
    are still bound to that code.  The next tick of the match timer finds
    no match state there and ends the server. *)
Lemma gameStarted_reverts_on_code_reuse :
  (let s := Scenario.state_after SocketIO Scenario.started in
   let s' := Scenario.state_after SocketIO Scenario.code_drawn_again in
   ∃ room room' outs,
     rooms s !! "ABC123"%string = Some room ∧ gameStarted room = true ∧
     run SocketIO s [Connect 3 "uc";
                Message 3 create_room (Scenario.named "C") (Scenario.at_time 2000)] =
       Running s' outs ∧
     rooms s' !! "ABC123"%string = Some room' ∧ gameStarted room' = false ∧
     keys (players room') = ["uc"%string] ∧
     Sio.roomId_of 1 s' = Some "ABC123"%string ∧
     Sio.roomId_of 2 s' = Some "ABC123"%string ∧
     step SocketIO s' (IntervalFires 0 3000) = Crashed)
  ∧ (let s := Scenario.state_after WebSocket Scenario.started in
   let s' := Scenario.state_after WebSocket Scenario.code_drawn_again in
   ∃ room room' outs,
     rooms s !! "ABC123"%string = Some room ∧ gameStarted room = true ∧
     run WebSocket s [Connect 3 "uc";
                Message 3 create_room (Scenario.named "C") (Scenario.at_time 2000)] =
       Running s' outs ∧
     rooms s' !! "ABC123"%string = Some room' ∧ gameStarted room' = false ∧
     keys (players room') = ["uc"%string] ∧
     Ws.roomId_of 1 s' = Some "ABC123"%string ∧
     Ws.roomId_of 2 s' = Some "ABC123"%string ∧
     step WebSocket s' (IntervalFires 0 3000) = Crashed).
Proof.
  split; simpl; eexists _, _, _.
  all: split; [vm_compute; reflexivity|].
  all: split; [vm_compute; reflexivity|].
  all: split; [vm_compute; reflexivity|].
  all: split; [vm_compute; reflexivity|].
  all: split; [vm_compute; reflexivity|].
  all: split; [vm_compute; reflexivity|].
  all: split; [vm_compute; reflexivity|].
  all: split; vm_compute; reflexivity.
Qed.

(** C2 (as the code has it): in either server, a room whose [gameStarted]
    is false has it true after a transition exactly when the transition is
    a [player_ready] that the handler accepts for that room and that leaves
    its roster with exactly two players, all ready; and a started room stays
    started for as long as it exists, under any sequence of events in which
    no [create_room] and no [find_game] draws the code of the room again. *)
Theorem gameStarted_transitions (t : Transport) :
  (∀ s e s' outs r room,
     step t s e = Running s' outs →
     rooms s !! r = Some room → gameStarted room = false →
     (ready_completes s e r room ↔
      ∃ room', rooms s' !! r = Some room' ∧ gameStarted room' = true))
  ∧ (∀ evs s s' outs r room room',
       run t s evs = Running s' outs →
       Forall (λ e, may_allocate e ≠ Some r) evs →
       rooms s !! r = Some room → gameStarted room = true →
       rooms s' !! r = Some room' → gameStarted room' = true).
Proof.
  split.
  - intros s e s' outs r room Hstep Hr Hf. split.
    + intros (sock & data & env & v & me & -> & Hv & Hlive & Hrid & Ht & Hme & Hlen & Hall).
      destruct t; simpl in Hstep; rewrite Hv, Hlive, Hrid in Hstep; simpl in Hstep.
      all: ws_as_sio.
      all: match type of Hstep with
           | context [Sio.on_player_ready _ _ _ ?d _ _] =>
               destruct (on_player_ready_starts sock (playerId v) d env s r room me
                           Ht Hr Hme Hlen Hall)
                 as (s1 & o1 & room' & Hh & Hr' & Hs' & _)
           end.
      all: exists room'; split; [|done]; rewrite Hh in Hstep; by simplify_eq.
    + intros (room' & Hr' & Hs').
      destruct t, e; simpl in Hstep; repeat case_match; simplify_eq;
        try congruence; simpl in Hr'; try congruence.
      all: rewrite ?ws_handler_eq in *.
      all: try (edestruct handler_starts as (-> & ? & ? & me & ? & ? & ?);
                [eassumption | exact Hr | exact Hf | exact Hr' | exact Hs' |];
                by eexists _, _, _, _, _).
      all: try (edestruct on_disconnect_room_origin as (room0 & ? & ?);
                [eassumption | exact Hr' |]; congruence).
      all: try (edestruct on_close_room_origin as (room0 & ? & ?);
                [eassumption | exact Hr' |]; congruence).
      all: try (edestruct matchTimer_callback_room_origin as (room0 & ? & ?);
                [eassumption | exact Hr' |]; simpl in *; congruence).
      all: try (edestruct ball_start_callback_room_origin as (room0 & ? & ?);
                [eassumption | exact Hr' |]; simpl in *; congruence).
      all: try (edestruct ball_confirm_callback_room_origin as (room0 & ? & ?);
                [eassumption | exact Hr' |]; simpl in *; congruence).
  - intros evs s s' outs r room room' Hrun Hfresh Hr Hs Hr'.
    destruct (run_room_origin t evs _ _ _ _ _ Hrun Hfresh Hr') as (room0 & ? & Himp).
    simplify_eq. auto.
Qed.

(** ** The match timer *)

Lemma set1_expiry_callback p0 p1 r now s room ms :
  rooms s !! r = Some room → matchState room = Some ms →
  isRestPeriod ms = false → currentSet ms = 1%Z →
  (timeRemaining ms - (now - lastUpdateTime ms) / 1000 ≤ 0)%Z →
  let g := gameState room in
  let ms' :=
    mkMatchState 1 (timeRemaining ms - (now - lastUpdateTime ms) / 1000) true 30
      (<[p1 := scores g !! p1]> (<[p0 := scores g !! p0]> (set1Scores ms)))
      (set2Scores ms) now in
  Sio.matchTimer_callback p0 p1 (Some r) now s =
  Done (set_rooms (<[r := set_matchState (Some ms') room]> (rooms s)) s,
        map (λ kv, (socketId kv.2, out_rest_period_starting ms')) (players room)).
Proof.
  intros Hr Hms Hrest Hset Hle. simpl. unfold Sio.matchTimer_callback. simpl.
  rewrite Hr, Hms, Hrest, Hset.
  apply Z.leb_le in Hle. rewrite Hle. simpl. done.
Qed.

Lemma rest_expiry_callback p0 p1 r now s room ms :
  rooms s !! r = Some room → matchState room = Some ms →
  isRestPeriod ms = true →
  (restTimeRemaining ms - (now - lastUpdateTime ms) / 1000 ≤ 0)%Z →
  let g := gameState room in
  let ms' :=
    mkMatchState 2 120 false
      (restTimeRemaining ms - (now - lastUpdateTime ms) / 1000)
      (set1Scores ms) (set2Scores ms) now in
  let g' := set_scores (<[p1 := of_Z 0]> (<[p0 := of_Z 0]> (scores g))) g in
  Sio.matchTimer_callback p0 p1 (Some r) now s =
  Done (set_rooms
          (<[r := set_gameState g' (set_matchState (Some ms') room)]> (rooms s)) s,
        map (λ kv, (socketId kv.2, out_set2_starting ms')) (players room)).
Proof.
  intros Hr Hms Hrest Hle. simpl. unfold Sio.matchTimer_callback. simpl.
  rewrite Hr, Hms, Hrest.
  apply Z.leb_le in Hle. rewrite Hle. done.
Qed.

(** C3 (as the code has it): when a tick of the match timer brings
    [timeRemaining] of set 1 to 0 or below, the handler copies the live
    scores of the two captured player ids into [set1Scores], enters the rest
    period with [restTimeRemaining = 30] and sends [rest_period_starting]
    with the new match state to every member of the room; the game state,
    and with it the live scores, stays as it was.  The live scores of both
    players are set to 0 by the later tick that ends the rest period, which
    starts set 2 with 120 seconds and sends [set2_starting] to every member. *)
Theorem set1_expiry_snapshots_then_rests (t : Transport) s h now iv r room ms :
  intervals s !! h = Some iv →
  Sio.roomId_of (iv_owner iv) s = Some r →
  rooms s !! r = Some room → matchState room = Some ms →
  let g := gameState room in
  let p0 := iv_p0 iv in
  let p1 := iv_p1 iv in
  (isRestPeriod ms = false → currentSet ms = 1%Z →
   (timeRemaining ms - (now - lastUpdateTime ms) / 1000 ≤ 0)%Z →
   ∃ ms' room',
     step t s (IntervalFires h now) =
     Running (set_rooms (<[r := room']> (rooms s)) s)
             (map (λ kv, (socketId kv.2, out_rest_period_starting ms'))
                  (players room)) ∧
     matchState room' = Some ms' ∧
     set1Scores ms' =
       <[p1 := scores g !! p1]> (<[p0 := scores g !! p0]> (set1Scores ms)) ∧
     isRestPeriod ms' = true ∧ restTimeRemaining ms' = 30%Z ∧
     currentSet ms' = 1%Z ∧
     gameState room' = g ∧ players room' = players room)
  ∧ (isRestPeriod ms = true →
     (restTimeRemaining ms - (now - lastUpdateTime ms) / 1000 ≤ 0)%Z →
     ∃ ms' room',
       step t s (IntervalFires h now) =
       Running (set_rooms (<[r := room']> (rooms s)) s)
               (map (λ kv, (socketId kv.2, out_set2_starting ms'))
                    (players room)) ∧
       matchState room' = Some ms' ∧
       scores (gameState room') = <[p1 := of_Z 0]> (<[p0 := of_Z 0]> (scores g)) ∧
       isRestPeriod ms' = false ∧ currentSet ms' = 2%Z ∧
       timeRemaining ms' = 120%Z ∧ set1Scores ms' = set1Scores ms).
Proof.
  intros Hiv Hrid Hr Hms. simpl. split.
  - intros Hrest Hset Hle. eexists _, _. split.
    + destruct t; simpl; rewrite Hiv;
        change (Ws.roomId_of (iv_owner iv) s) with (Sio.roomId_of (iv_owner iv) s);
        rewrite Hrid; try rewrite ws_matchTimer_callback_eq;
        by rewrite (set1_expiry_callback _ _ r now s room ms).
    + by split_and!.
  - intros Hrest Hle. eexists _, _. split.
    + destruct t; simpl; rewrite Hiv;
        change (Ws.roomId_of (iv_owner iv) s) with (Sio.roomId_of (iv_owner iv) s);
        rewrite Hrid; try rewrite ws_matchTimer_callback_eq;
        by rewrite (rest_expiry_callback _ _ r now s room ms).
    + by split_and!.
Qed.

(** C3, as stated, fails: in the session where A scored three times during
    set 1, the tick that ends set 1 (120 s have elapsed, [timeRemaining]
    reaches 0) enters the rest period with 30 s and snapshots A's score, but
    A's live score is still 3 afterwards, not 0. *)
Lemma set1_expiry_keeps_live_scores :
  let s := Scenario.state_after SocketIO Scenario.set1_played in
  ∃ room ms s' outs room' ms',
    rooms s !! "ABC123"%string = Some room ∧ matchState room = Some ms ∧
    currentSet ms = 1%Z ∧ isRestPeriod ms = false ∧
    (timeRemaining ms - (121000 - lastUpdateTime ms) / 1000 ≤ 0)%Z ∧
    step SocketIO s (IntervalFires 0 121000) = Running s' outs ∧
    rooms s' !! "ABC123"%string = Some room' ∧ matchState room' = Some ms' ∧
    isRestPeriod ms' = true ∧ restTimeRemaining ms' = 30%Z ∧
    set1Scores ms' !! "ua"%string = Some (Some (of_Z 3)) ∧
    scores (gameState room') !! "ua"%string = Some (of_Z 3) ∧
    scores (gameState room') !! "ua"%string ≠ Some (of_Z 0).
Proof.
  simpl. eexists _, _, _, _, _, _.
  split; [vm_compute; reflexivity|].
  split; [vm_compute; reflexivity|].
  split; [vm_compute; reflexivity|].
  split; [vm_compute; reflexivity|].
  split; [vm_compute; discriminate|].
  split; [vm_compute; reflexivity|].
  split; [vm_compute; reflexivity|].
  split; [vm_compute; reflexivity|].
  split; [vm_compute; reflexivity|].
  split; [vm_compute; reflexivity|].
  split; [vm_compute; reflexivity|].
  split; [vm_compute; reflexivity|].
  vm_compute. discriminate.
Qed.

Lemma set1_expiry_snapshots_then_rests_witness :
  let s := Scenario.state_after WebSocket Scenario.set1_played in
  ∃ ms' room',
    step WebSocket s (IntervalFires 0 121000) =
    Running (set_rooms (<["ABC123"%string := room']> (rooms s)) s)
            [(1, out_rest_period_starting ms'); (2, out_rest_period_starting ms')] ∧
    set1Scores ms' !! "ua"%string = Some (Some (of_Z 3)) ∧
    restTimeRemaining ms' = 30%Z ∧
    scores (gameState room') !! "ua"%string = Some (of_Z 3).
Proof.
  simpl.
  edestruct (set1_expiry_snapshots_then_rests WebSocket
               (Scenario.state_after WebSocket Scenario.set1_played) 0 121000)
    as [Hset1 _].
  - vm_compute. reflexivity.
  - vm_compute. reflexivity.
  - vm_compute. reflexivity.
  - vm_compute. reflexivity.
  - destruct Hset1 as (ms' & room' & Hstep & Hms & Hsnap & _ & Hrest & _ & Hg & _).
    + vm_compute. reflexivity.
    + vm_compute. reflexivity.
    + vm_compute. discriminate.
    + exists ms', room'. split; [exact Hstep|]. split.
      * rewrite Hsnap. vm_compute. reflexivity.
      * split; [exact Hrest|]. rewrite Hg. vm_compute. reflexivity.
Defined.

(** ** Room teardown and the match timer *)

(** The close handler of the WebSocket server never stops a timer. *)
Lemma on_close_keeps_intervals sock pid rid s :
  intervals (Ws.on_close sock pid rid s).1 = intervals s.
Proof.
  unfold Ws.on_close. repeat case_match; simplify_eq; done.
Qed.

(** The disconnect handler of the Socket.io server stops the timer recorded
    in a room when it deletes the room. *)
Lemma on_disconnect_clears_timer sock pid rid s r room h :
  bound_room rid s = Some (r, room) → keys (players room) = [pid] →
  matchTimer room = Some h →
  let s' := (Sio.on_disconnect sock pid rid s).1 in
  rooms s' !! r = None ∧ intervals s' !! h = None.
Proof.
  intros Hb Hk Ht. simpl. unfold Sio.on_disconnect.
  assert (Hb' : ∀ w, bound_room rid (set_waitingPlayers w s) = Some (r, room))
    by (intros; exact Hb).
  assert (Hdel : length (keys (alist_del pid (players room))) = 0).
  { destruct (players room) as [|[k p] [|? ?]]; simplify_eq/=.
    by rewrite String.eqb_refl. }
  destruct (alist_get pid (waitingPlayers s)); rewrite ?Hb', ?Hb, Hdel, Ht; simpl.
  all: by rewrite !lookup_delete_eq.
Qed.

(** A tick of a timer whose room is gone throws, in both servers. *)
Lemma matchTimer_callback_deleted_room p0 p1 rid now s :
  room_at rid s = None → Sio.matchTimer_callback p0 p1 rid now s = Thrown.
Proof.
  intros H. unfold Sio.matchTimer_callback.
  destruct rid as [r|]; simpl in *; [by rewrite H | done].
Qed.

(** C4 fails on the WebSocket server: after A and B started a game and both
    closed their connections, the room is gone but its match timer is still
    registered, and its next tick throws in the deleted-room guard, outside
    any [try], which ends the process.  On the Socket.io server the same
    session leaves no timer behind. *)
Theorem ws_close_leaves_timer_running :
  let s := Scenario.state_after WebSocket Scenario.abandoned in
  let s_io := Scenario.state_after SocketIO Scenario.abandoned in
  rooms s = ∅ ∧
  intervals s !! 0 = Some (mkInterval 2 "ua" "ub") ∧
  step WebSocket s (IntervalFires 0 2000) = Crashed ∧
  rooms s_io = ∅ ∧ intervals s_io = ∅.
Proof. vm_compute. done. Qed.

(** ** The two servers compared *)

Lemma bound_room_ext rid s1 s2 :
  rooms s1 = rooms s2 → bound_room rid s1 = bound_room rid s2.
Proof. unfold bound_room. by intros ->. Qed.

(** No message handler reads the set of running timers. *)
Lemma handler_frame type sock pid rid data env s1 s2 rid' s1' outs :
  same_session_state s1 s2 →
  Sio.handler type sock pid rid data env s1 = Done (rid', s1', outs) →
  ∃ s2', Sio.handler type sock pid rid data env s2 = Done (rid', s2', outs) ∧
         same_session_state s1' s2'.
Proof.
  intros (Hr & Hw & Hv & Ht & Hn) H.
  destruct type; simpl in *.
  - unfold Sio.on_create_room in *. rewrite <- Hr.
    repeat case_match; simplify_eq; eexists; (split; [done|]); by split_and!.
  - unfold Sio.on_join_room in *. rewrite <- Hr.
    repeat case_match; simplify_eq; eexists; (split; [done|]); by split_and!.
  - unfold Sio.on_find_game in *. simpl in *. rewrite <- Hr, <- Hw.
    repeat case_match; simplify_eq; eexists; (split; [done|]); by split_and!.
  - unfold Sio.on_player_ready in *.
    rewrite <- (bound_room_ext rid s1 s2 Hr), <- Hr, <- Hw, <- Hv, <- Ht, <- Hn.
    repeat case_match; simplify_eq; eexists; (split; [done|]); by split_and!.
  - unfold Sio.on_paddle_move in *.
    rewrite <- (bound_room_ext rid s1 s2 Hr), <- Hr.
    repeat case_match; simplify_eq; eexists; (split; [done|]); by split_and!.
  - unfold Sio.on_ball_update in *.
    rewrite <- (bound_room_ext rid s1 s2 Hr), <- Hr.
    repeat case_match; simplify_eq; eexists; (split; [done|]); by split_and!.
  - unfold Sio.on_score_update in *.
    rewrite <- (bound_room_ext rid s1 s2 Hr), <- Hr.
    repeat case_match; simplify_eq; eexists; (split; [done|]); by split_and!.
  - unfold Sio.on_player_scored in *.
    rewrite <- (bound_room_ext rid s1 s2 Hr), <- Hr.
    repeat case_match; simplify_eq; eexists; (split; [done|]); by split_and!.
  - simplify_eq. eexists. split; [done|]. by split_and!.
Qed.

(** A handler that ran to its end on an event without payload did not
    read the payload: it does the same on the message object that has the
    [type] field only. *)
Lemma handler_message_object type sock pid rid data env s h :
  Sio.handler type sock pid rid data env s = Done h →
  Sio.handler type sock pid rid (Some (Ws.message_object data)) env s = Done h.
Proof.
  destruct data as [d|]; [done|]. destruct type; simpl; try done.
  - unfold Sio.on_paddle_move. by repeat case_match.
  - unfold Sio.on_ball_update. by repeat case_match.
  - unfold Sio.on_score_update. by repeat case_match.
  - unfold Sio.on_player_scored. by repeat case_match.
Qed.

Lemma disconnect_close_frame sock pid rid s1 s2 :
  same_session_state s1 s2 →
  (Sio.on_disconnect sock pid rid s1).2 = (Ws.on_close sock pid rid s2).2 ∧
  same_session_state (Sio.on_disconnect sock pid rid s1).1
                     (Ws.on_close sock pid rid s2).1.
Proof.
  intros (Hr & Hw & Hv & Ht & Hn).
  unfold Sio.on_disconnect, Ws.on_close. rewrite <- Hw.
  destruct (alist_get pid (waitingPlayers s1)).
  - rewrite <- (bound_room_ext rid
                  (set_waitingPlayers (alist_del pid (waitingPlayers s1)) s1)
                  (set_waitingPlayers (alist_del pid (waitingPlayers s1)) s2) Hr).
    simpl. rewrite <- Hr.
    repeat case_match; simpl; rewrite ?rooms_clearInterval;
      (split; [done|]); split_and!; simpl; try done.
    all: by destruct (matchTimer _).
  - rewrite <- (bound_room_ext rid s1 s2 Hr). rewrite <- Hr.
    repeat case_match; simpl; rewrite ?rooms_clearInterval;
      (split; [done|]); split_and!; simpl; try done.
    all: by destruct (matchTimer _).
Qed.

Lemma inbound_step_agree s1 s2 e s1' outs :
  same_session_state s1 s2 → inbound e = true →
  Sio.step s1 e = Running s1' outs →
  ∃ s2', Ws.step s2 e = Running s2' outs ∧ same_session_state s1' s2'.
Proof.
  intros Hsim Hin H. pose proof Hsim as (Hr & Hw & Hv & Ht & Hn).
  destruct e; simpl in *; try done; rewrite <- Hv.
  - repeat case_match; simplify_eq; eexists; (split; [done|]); try done.
    all: split_and!; simpl; congruence.
  - destruct (vars s1 !! sock) as [v|]; [|simplify_eq; eauto].
    destruct (live v); [|simplify_eq; eauto].
    destruct (Sio.handler type sock (playerId v) (roomId v) data env s1)
      as [[[rid' s3] o3]|] eqn:Hh; [|done].
    simplify_eq.
    destruct (handler_frame _ _ _ _ _ _ _ _ _ _ _ Hsim Hh)
      as (s4 & Hh' & (Hr4 & Hw4 & Hv4 & Ht4 & Hn4)).
    rewrite ws_handler_eq, (handler_message_object _ _ _ _ _ _ _ _ Hh').
    eexists. split; [done|]. split_and!; simpl; congruence.
  - destruct (vars s1 !! sock) as [v|]; [|simplify_eq; eauto].
    destruct (live v); [|simplify_eq; eauto].
    destruct (disconnect_close_frame sock (playerId v) (roomId v) s1 s2 Hsim)
      as (Ho & (Hr4 & Hw4 & Hv4 & Ht4 & Hn4)).
    destruct (Sio.on_disconnect sock (playerId v) (roomId v) s1) as [s3 o3].
    destruct (Ws.on_close sock (playerId v) (roomId v) s2) as [s4 o4].
    simpl in *. simplify_eq.
    eexists. split; [done|]. split_and!; simpl; congruence.
Qed.

Lemma inbound_run_agree evs : ∀ s1 s2 s1' outs,
  same_session_state s1 s2 → Forall (λ e, inbound e = true) evs →
  run SocketIO s1 evs = Running s1' outs →
  ∃ s2', run WebSocket s2 evs = Running s2' outs ∧ same_session_state s1' s2'.
Proof.
  induction evs as [|e evs IH]; simpl; intros s1 s2 s1' outs Hsim Hin H.
  - simplify_eq. eauto.
  - apply Forall_cons in Hin as [He Hin].
    destruct (Sio.step s1 e) as [s3 o3|] eqn:Hstep; [|done].
    destruct (run SocketIO s3 evs) as [s5 o5|] eqn:Hrun; [|done].
    simplify_eq.
    destruct (inbound_step_agree _ _ _ _ _ Hsim He Hstep) as (s4 & -> & Hsim').
    destruct (IH _ _ _ _ Hsim' Hin Hrun) as (s6 & -> & Hsim'').
    eauto.
Qed.

(** C5, as stated, fails.  A [join_room] without [roomId] throws: the
    Socket.io server has no [try] around its handlers and stops, the
    WebSocket server catches and carries on.  And after a started game was
    abandoned by both players the two servers differ in their running
    timers: a further tick is a no-op on one and a crash on the other. *)
Lemma variants_differ :
  run SocketIO initial Scenario.malformed_join = Crashed ∧
  run WebSocket initial Scenario.malformed_join =
    Running (Scenario.state_after WebSocket Scenario.malformed_join)
            [(3, out_connection "uc")] ∧
  intervals (Scenario.state_after SocketIO Scenario.abandoned) ≠
  intervals (Scenario.state_after WebSocket Scenario.abandoned) ∧
  run SocketIO initial (Scenario.abandoned ++ [IntervalFires 0 2000]) =
    Running (Scenario.state_after SocketIO Scenario.abandoned)
            (Scenario.outs_after SocketIO Scenario.abandoned) ∧
  run WebSocket initial (Scenario.abandoned ++ [IntervalFires 0 2000]) = Crashed.
Proof.
  split_and!; try (vm_compute; reflexivity).
  intros Heq.
  assert (H : intervals (Scenario.state_after SocketIO Scenario.abandoned) !! 0 =
              intervals (Scenario.state_after WebSocket Scenario.abandoned) !! 0)
    by (by rewrite Heq).
  vm_compute in H. discriminate.
Qed.

(** C5 (as the code has it): on every sequence of inbound events
    (connections, messages, disconnections) that the Socket.io server
    handles without a handler throwing, the WebSocket server produces the
    same outbound events to the same connections and ends with the same
    rooms, queue and connection bindings; and a timer or timeout callback
    does the same in both servers. *)
Theorem variants_agree_on_inbound evs s1 s2 s1' outs :
  same_session_state s1 s2 → Forall (λ e, inbound e = true) evs →
  run SocketIO s1 evs = Running s1' outs →
  (∃ s2', run WebSocket s2 evs = Running s2' outs ∧ same_session_state s1' s2')
  ∧ (∀ s h now,
       step WebSocket s (IntervalFires h now) = step SocketIO s (IntervalFires h now))
  ∧ (∀ s h px py,
       step WebSocket s (TimeoutFires h px py) = step SocketIO s (TimeoutFires h px py)).
Proof.
  intros Hsim Hin Hrun. split_and!.
  - by eapply inbound_run_agree.
  - reflexivity.
  - reflexivity.
Qed.

Lemma variants_agree_on_inbound_witness :
  ∃ s2',
    run WebSocket initial Scenario.abandoned =
      Running s2' (Scenario.outs_after SocketIO Scenario.abandoned) ∧
    same_session_state (Scenario.state_after SocketIO Scenario.abandoned) s2'.
Proof.
  apply (variants_agree_on_inbound Scenario.abandoned initial initial).
  - by split_and!.
  - vm_compute. repeat constructor.
  - vm_compute. reflexivity.
Defined.

(** ** Host authority over the ball *)

Lemma find_other_elem me (ps : list (string * Player)) kv :
  find (λ kv, negb (String.eqb kv.1 me)) ps = Some kv → kv ∈ ps ∧ kv.1 ≠ me.
Proof.
  intros H. apply find_some in H as [Hin Hneq].
  split; [by apply list_elem_of_In|].
  intros Heq. rewrite Heq, String.eqb_refl in Hneq. done.
Qed.

Lemma find_other_None me (ps : list (string * Player)) :
  find (λ kv, negb (String.eqb kv.1 me)) ps = None → ∀ kv, kv ∈ ps → kv.1 = me.
Proof.
  intros H kv Hin. apply list_elem_of_In in Hin.
  pose proof (find_none _ _ H kv Hin) as Hk. simpl in Hk.
  destruct (String.eqb_spec kv.1 me); done.
Qed.

(** In a roster with at most one host, the members other than the host are
    not hosts. *)
Lemma single_host_others ps k1 p1 k2 p2 :
  hosts ps ≤ 1 → (k1, p1) ∈ ps → (k2, p2) ∈ ps → k1 ≠ k2 →
  isHost p1 = true → isHost p2 = false.
Proof.
  unfold hosts. intros Hh H1 H2 Hne Hp1.
  destruct (isHost p2) eqn:Hp2; [|done]. exfalso.
  induction ps as [|[k p] ps IH]; [by apply elem_of_nil in H1|].
  simpl in Hh. apply elem_of_cons in H1, H2.
  assert (Hpos : ∀ k' p', (k', p') ∈ ps → isHost p' = true →
                 1 ≤ length (List.filter (λ kv, isHost kv.2) ps)).
  { clear. intros k' p' Hin Hp'. induction ps as [|[k0 p0] ps IH].
    - by apply elem_of_nil in Hin.
    - simpl. apply elem_of_cons in Hin as [Heq|Hin].
      + simplify_eq. rewrite Hp'. simpl. lia.
      + destruct (isHost p0); simpl; [lia | auto]. }
  destruct H1 as [H1|H1], H2 as [H2|H2]; simplify_eq.
  - rewrite Hp1 in Hh. simpl in Hh. pose proof (Hpos _ _ H2 Hp2). lia.
  - rewrite Hp2 in Hh. simpl in Hh. pose proof (Hpos _ _ H1 Hp1). lia.
  - destruct (isHost p); simpl in Hh; [|by apply IH].
    pose proof (Hpos _ _ H1 Hp1). apply IH; [lia | done | done].
Qed.

(** C6: a [ball_update] from a room member who is not the host, or sent
    before the game started, leaves the whole state (the ball included) as
    it was and emits nothing, whatever its payload; the handler changes the
    state or emits something only for the host of a started room, and then,
    for an event that carries a payload, it stores the submitted ball as
    the ball of the room and relays it, in a [ball_update] event, to the
    first other member of the room and to nobody else.  In a reachable
    state that member is not a host. *)
Theorem ball_update_host_only (t : Transport) sock pid rid data env s :
  (∀ r room me,
     bound_room rid s = Some (r, room) →
     alist_get pid (players room) = Some me →
     isHost me = false ∨ gameStarted room = false →
     handler t ball_update sock pid rid data env s = Done (rid, s, []))
  ∧ (∀ rid' s' outs,
       handler t ball_update sock pid rid data env s = Done (rid', s', outs) →
       s' ≠ s ∨ outs ≠ [] →
       ∃ r room me,
         bound_room rid s = Some (r, room) ∧
         alist_get pid (players room) = Some me ∧
         isHost me = true ∧ gameStarted room = true)
  ∧ (∀ r room me d,
       data = Some d →
       bound_room rid s = Some (r, room) →
       alist_get pid (players room) = Some me →
       isHost me = true → gameStarted room = true →
       ∃ s' outs room',
         handler t ball_update sock pid rid data env s = Done (rid, s', outs) ∧
         rooms s' !! r = Some room' ∧
         ball (gameState room') = d_ball d ∧
         (∀ r', r' ≠ r → rooms s' !! r' = rooms s !! r') ∧
         match find (λ kv, negb (String.eqb kv.1 pid)) (players room) with
         | Some other =>
             outs = [(socketId other.2, out_ball_update (d_ball d))] ∧
             other ∈ players room ∧ other.1 ≠ pid ∧
             (reachable t s → isHost other.2 = false)
         | None => outs = [] ∧ ∀ kv, kv ∈ players room → kv.1 = pid
         end).
Proof.
  split_and!.
  - rewrite handler_sio. simpl. unfold Sio.on_ball_update.
    intros r room me -> -> [->| ->]; by destruct (gameStarted room).
  - rewrite handler_sio. simpl. unfold Sio.on_ball_update.
    intros rid' s' outs H Hch.
    repeat case_match; simplify_eq; try (by destruct Hch).
    all: eauto 10.
  - intros r room me d -> Hb Hme Hhost Hst.
    rewrite handler_Some. simpl. unfold Sio.on_ball_update.
    rewrite Hb, Hme, Hst, Hhost.
    apply bound_room_Some in Hb as (-> & _ & Hr).
    eexists _, _, _. split; [done|]. simpl.
    split; [apply lookup_insert_eq|]. split; [done|].
    split; [intros r' ?; by rewrite lookup_insert_ne|].
    unfold Sio.emit_other.
    destruct (find _ (players room)) as [other|] eqn:Hfind.
    + apply find_other_elem in Hfind as [Hin Hne].
      split_and!; try done.
      intros Hreach. destruct (reachable_wf t s Hreach r room Hr) as [_ _ Hh].
      destruct other as [k2 p2]. simpl in *.
      eapply (single_host_others _ pid me k2 p2); try done;
        try (by apply alist_get_Some_elem); congruence.
    + split; [done|]. by apply find_other_None.
Qed.

Lemma ball_update_host_only_witness :
  let s := Scenario.state_after SocketIO Scenario.started in
  let b := mkBall 10 20 3 (-4) in
  handler SocketIO ball_update 2 "ub" (Some "ABC123"%string)
          (Scenario.with_ball b) (Scenario.at_time 1500) s =
  Done (Some "ABC123"%string, s, []).
Proof.
  simpl.
  eapply (proj1 (ball_update_host_only SocketIO 2 "ub" (Some "ABC123"%string)
                   (Scenario.with_ball (mkBall 10 20 3 (-4)))
                   (Scenario.at_time 1500)
                   (Scenario.state_after SocketIO Scenario.started))).
  - vm_compute. reflexivity.
  - vm_compute. reflexivity.
  - left. vm_compute. reflexivity.
Defined.

(** ** Score convergence *)

Lemma existsb_eqb_elem k (l : list string) :
  existsb (String.eqb k) l = true ↔ k ∈ l.
Proof.
  rewrite existsb_exists. split.
  - intros (k' & Hin & Heq). apply String.eqb_eq in Heq as ->.
    by apply list_elem_of_In.
  - intros Hin. exists k. split; [by apply list_elem_of_In | apply String.eqb_refl].
Qed.

(** C9, as stated, fails: scores are JS numbers, and [(score || 0) + 1] on
    a double is not always the score plus 1.  B reports a score of 2^53 for
    A, which [score_update] stores as sent; when A scores next, every
    member is sent the same score map, but A's score in it is 2^53 as
    before, in both servers. *)
Lemma player_scored_keeps_large_score :
  (let s := Scenario.state_after SocketIO Scenario.score_at_2_53 in
   ∃ room s' outs room',
     rooms s !! "ABC123"%string = Some room ∧
     scores (gameState room) !! "ua"%string = Some (of_Z (2 ^ 53)) ∧
     step SocketIO s (Message 1 player_scored (Scenario.scored "ua")
                       (Scenario.at_time 3000)) =
       Running s' outs ∧
     rooms s' !! "ABC123"%string = Some room' ∧
     outs = [(1, out_score_update (scores (gameState room')));
             (2, out_score_update (scores (gameState room')))] ∧
     scores (gameState room') !! "ua"%string = Some (of_Z (2 ^ 53)))
  ∧ (let s := Scenario.state_after WebSocket Scenario.score_at_2_53 in
   ∃ room s' outs room',
     rooms s !! "ABC123"%string = Some room ∧
     scores (gameState room) !! "ua"%string = Some (of_Z (2 ^ 53)) ∧
     step WebSocket s (Message 1 player_scored (Scenario.scored "ua")
                       (Scenario.at_time 3000)) =
       Running s' outs ∧
     rooms s' !! "ABC123"%string = Some room' ∧
     outs = [(1, out_score_update (scores (gameState room')));
             (2, out_score_update (scores (gameState room')))] ∧
     scores (gameState room') !! "ua"%string = Some (of_Z (2 ^ 53))).
Proof.
  split; simpl; eexists _, _, _, _.
  all: split; [vm_compute; reflexivity|].
  all: split; [vm_compute; reflexivity|].
  all: split; [vm_compute; reflexivity|].
  all: split; [vm_compute; reflexivity|].
  all: split; vm_compute; reflexivity.
Qed.

(** C9 (as the code has it): when the handler accepts a [score_update] (the
    sender is bound to an existing room and the payload has [scores]) or a
    [player_scored] (bound to an existing room, [scoringPlayer] names a
    member of it), every member of the room is sent one [score_update]
    event, all carrying the same map, which is the live score map of the
    room after the event; for [score_update] it is the old map overwritten
    with the submitted entries, for [player_scored] the old map with the
    score of the scoring member replaced by [(score || 0) + 1] in double
    arithmetic and every other score as it was.  That is 1 when the member
    had no score, and the old score plus exactly 1 when the old score is
    an integer [n] with [-2^53 ≤ n < 2^53]. *)
Theorem score_events_converge (t : Transport) sock pid rid data env s r room :
  bound_room rid s = Some (r, room) →
  (∀ upd, d_scores data = Some upd →
     ∃ s' room',
       let sc := scores (gameState room') in
       handler t score_update sock pid rid (Some data) env s =
       Done (rid, s', map (λ kv, (socketId kv.2, out_score_update sc)) (players room)) ∧
       rooms s' !! r = Some room' ∧ players room' = players room ∧
       sc = assign_scores upd (scores (gameState room)) ∧
       ∀ k p, (k, p) ∈ players room →
         (socketId p, out_score_update sc) ∈
         map (λ kv, (socketId kv.2, out_score_update sc)) (players room))
  ∧ (∀ sp, d_scoringPlayer data = Some sp → truthy sp = true →
       sp ∈ keys (players room) →
       ∃ s' room',
         let old := scores (gameState room) in
         let sc := scores (gameState room') in
         handler t player_scored sock pid rid (Some data) env s =
         Done (rid, s', map (λ kv, (socketId kv.2, out_score_update sc)) (players room)) ∧
         rooms s' !! r = Some room' ∧ players room' = players room ∧
         sc !! sp = Some (num_add (or_zero (old !! sp)) (of_Z 1)) ∧
         (old !! sp = None → sc !! sp = Some (of_Z 1)) ∧
         (∀ n, (- 2 ^ 53 ≤ n < 2 ^ 53)%Z → old !! sp = Some (of_Z n) →
               sc !! sp = Some (of_Z (n + 1))) ∧
         (∀ k, k ≠ sp → sc !! k = old !! k) ∧
         ∀ k p, (k, p) ∈ players room →
           (socketId p, out_score_update sc) ∈
           map (λ kv, (socketId kv.2, out_score_update sc)) (players room)).
Proof.
  intros Hb. rewrite !handler_Some. simpl. split.
  - intros upd Hupd. unfold Sio.on_score_update. rewrite Hb, Hupd.
    apply bound_room_Some in Hb as (-> & _ & Hr).
    eexists _, (set_gameState
                  (set_scores (assign_scores upd (scores (gameState room)))
                              (gameState room)) room).
    split; [reflexivity|]. simpl.
    split; [apply lookup_insert_eq|]. split_and!; try done.
    intros k p Hin. apply list_elem_of_In, in_map_iff.
    exists (k, p). split; [done | by apply list_elem_of_In].
  - intros sp Hsp Ht Hin. unfold Sio.on_player_scored. rewrite Hb, Hsp, Ht.
    apply existsb_eqb_elem in Hin. rewrite Hin.
    apply bound_room_Some in Hb as (-> & _ & Hr).
    eexists _, (set_gameState
                  (set_scores
                     (<[sp := num_add (or_zero (scores (gameState room) !! sp))
                                      (of_Z 1)]>
                        (scores (gameState room)))
                     (gameState room)) room).
    split; [reflexivity|]. simpl.
    split; [apply lookup_insert_eq|]. split_and!; try done.
    + apply lookup_insert_eq.
    + intros ->. by rewrite lookup_insert_eq.
    + intros n Hn ->. rewrite lookup_insert_eq, or_zero_of_Z by done.
      by rewrite add_one_exact.
    + intros k Hk. by apply lookup_insert_ne.
    + intros k p Hp. apply list_elem_of_In, in_map_iff.
      exists (k, p). split; [done | by apply list_elem_of_In].
Qed.

Lemma score_events_converge_witness :
  let s := Scenario.state_after WebSocket Scenario.set1_played in
  ∃ s' room',
    handler WebSocket player_scored 1 "ua" (Some "ABC123"%string)
            (Scenario.scored "ua") (Scenario.at_time 5000) s =
    Done (Some "ABC123"%string, s',
          [(1, out_score_update (scores (gameState room')));
           (2, out_score_update (scores (gameState room')))]) ∧
    scores (gameState room') !! "ua"%string = Some (of_Z 4) ∧
    scores (gameState room') !! "ub"%string = Some (of_Z 0).
Proof.
  simpl.
  edestruct (score_events_converge WebSocket 1 "ua" (Some "ABC123"%string)
               (mkData None None None None None (Some "ua"%string))
               (Scenario.at_time 5000)
               (Scenario.state_after WebSocket Scenario.set1_played))
    as [_ Hscored].
  - vm_compute. reflexivity.
  - edestruct Hscored as (s' & room' & Hh & _ & _ & _ & _ & Hsp & Hothers & _).
    + reflexivity.
    + reflexivity.
    + vm_compute. apply list_elem_of_In. left. reflexivity.
    + exists s', room'. split; [exact Hh|]. split.
      * apply (Hsp 3%Z); [lia | vm_compute; reflexivity].
      * rewrite (Hothers "ub"%string) by discriminate. vm_compute. reflexivity.
Defined.

(** ** A rejected join still binds the connection *)

Lemma filter_others_absent pid (ps : list (string * Player)) :
  pid ∉ keys ps → filter (λ kv, kv.1 ≠ pid) ps = ps.
Proof.
  induction ps as [|[k p] ps IH]; simpl; [done|].
  intros [Hne Hnin]%not_elem_of_cons.
  rewrite filter_cons_True by (simpl; congruence). f_equal. auto.
Qed.

Lemma set_players_same room : set_players (players room) room = room.
Proof. by destruct room. Qed.

(** The deliveries of a disconnect of a connection bound to a room it is not
    a member of: [opponent_disconnected] to every member. *)
Lemma disconnect_of_non_member (t : Transport) s sock v r room :
  vars s !! sock = Some v → live v = true →
  roomId v = Some r → truthy r = true → rooms s !! r = Some room →
  playerId v ∉ keys (players room) →
  ∃ s', step t s (Disconnect sock) =
        Running s' (map (λ kv, (socketId kv.2, out_opponent_disconnected))
                        (players room)) ∧
        (players room ≠ [] → rooms s' = rooms s).
Proof.
  intros Hv Hl Hrid Ht Hr Hnin.
  assert (Hb : ∀ w, bound_room (Some r) (set_waitingPlayers w s) = Some (r, room))
    by (intros; by apply bound_room_intro).
  assert (Hb0 : bound_room (Some r) s = Some (r, room))
    by (by apply bound_room_intro).
  destruct t; simpl; rewrite Hv, Hl, Hrid.
  - unfold Sio.on_disconnect.
    destruct (alist_get (playerId v) (waitingPlayers s));
      rewrite ?Hb, ?Hb0, filter_others_absent, alist_del_absent by done.
    all: destruct (players room) as [|kv ps] eqn:Hps; simpl;
      (eexists; split; [reflexivity|]); intros Hne; try done.
    all: simpl; rewrite <- Hps, set_players_same; by apply insert_id.
  - unfold Ws.on_close.
    destruct (alist_get (playerId v) (waitingPlayers s));
      rewrite ?Hb, ?Hb0, filter_others_absent, alist_del_absent by done.
    all: destruct (players room) as [|kv ps] eqn:Hps; simpl;
      (eexists; split; [reflexivity|]); intros Hne; try done.
    all: simpl; rewrite <- Hps, set_players_same; by apply insert_id.
Qed.

(** C10: when a connection that is not a member of an existing room with
    two (or more) players submits its code, the join is refused with "Room
    is full", sent to that connection only, no room changes, and the [roomId]
    variable of the connection is nonetheless set to the code; when the
    connection then disconnects, [opponent_disconnected] is sent to every
    member of that room, which keeps its roster. *)
Theorem rejected_join_binds_then_notifies (t : Transport) s sock v data env
    submitted room :
  vars s !! sock = Some v → live v = true →
  d_roomId data = Some submitted →
  let code := toUpperCase (trim submitted) in
  truthy code = true →
  rooms s !! code = Some room →
  2 ≤ length (keys (players room)) →
  playerId v ∉ keys (players room) →
  ∃ s1 s2 v1,
    step t s (Message sock join_room (Some data) env) =
      Running s1 [(sock, out_error "Room is full")] ∧
    rooms s1 = rooms s ∧
    vars s1 !! sock = Some v1 ∧ roomId v1 = Some code ∧
    step t s1 (Disconnect sock) =
      Running s2 (map (λ kv, (socketId kv.2, out_opponent_disconnected))
                      (players room)) ∧
    rooms s2 = rooms s.
Proof.
  intros Hv Hl Hd code Ht Hr Hfull Hnin.
  assert (Hjoin : Sio.on_join_room sock (playerId v) (roomId v) (Some data) env s =
                  Done (Some code, s, [(sock, out_error "Room is full")])).
  { unfold Sio.on_join_room. cbv beta iota zeta. rewrite Hd. fold code.
    rewrite Hr. apply Nat.leb_le in Hfull. by rewrite Hfull. }
  set (v1 := mkVars (playerId v) (Some code) true).
  set (s1 := set_vars (<[sock := v1]> (vars s)) s).
  destruct (disconnect_of_non_member t s1 sock v1 code room)
    as (s2 & Hstep2 & Hrooms2); try done.
  { simpl. apply lookup_insert_eq. }
  exists s1, s2, v1. split_and!; try done.
  - destruct t; simpl; rewrite Hv, Hl;
      ws_as_sio; by rewrite Hjoin.
  - simpl. apply lookup_insert_eq.
  - apply Hrooms2. intros Hnil. rewrite Hnil in Hfull. simpl in Hfull. lia.
Qed.

Lemma rejected_join_binds_then_notifies_witness :
  let s := Scenario.state_after SocketIO
             (Scenario.started ++ [Connect 3 "uc"]) in
  ∃ s1 s2 v1,
    step SocketIO s
         (Message 3 join_room (Scenario.joining "C" "abc123 ") (Scenario.at_time 5000)) =
      Running s1 [(3, out_error "Room is full")] ∧
    rooms s1 = rooms s ∧
    vars s1 !! 3 = Some v1 ∧ roomId v1 = Some "ABC123"%string ∧
    step SocketIO s1 (Disconnect 3) =
      Running s2 [(1, out_opponent_disconnected); (2, out_opponent_disconnected)] ∧
    rooms s2 = rooms s.
Proof.
  intros s.
  edestruct (rejected_join_binds_then_notifies SocketIO s
               3 (mkVars "uc" None true)
               (mkData (Some "C"%string) (Some "abc123 "%string) None None None None)
               (Scenario.at_time 5000) "abc123 ")
    as (s1 & s2 & v1 & Hjoin & Hrooms1 & Hv1 & Hrid & Hleave & Hrooms2).
  - vm_compute. reflexivity.
  - reflexivity.
  - reflexivity.
  - reflexivity.
  - vm_compute. reflexivity.
  - vm_compute. lia.
  - vm_compute. intros Hin. apply list_elem_of_In in Hin.
    destruct Hin as [Heq|[Heq|[]]]; discriminate.
  - exists s1, s2, v1. split; [exact Hjoin|]. split; [exact Hrooms1|].
    split; [exact Hv1|]. split; [exact Hrid|]. split; [exact Hleave|].
    exact Hrooms2.
Defined.

(** ** Payloads without their required field *)

Lemma rebind_same s sock v :
  vars s !! sock = Some v → live v = true →
  set_vars (<[sock := mkVars (playerId v) (roomId v) true]> (vars s)) s = s.
Proof.
  intros Hv Hl. destruct v as [p r l]. simpl in *. subst l.
  unfold set_vars. rewrite insert_id by done. by destruct s.
Qed.

(** A message whose handler leaves everything as it was and emits nothing. *)
Lemma step_dropped (t : Transport) s sock type data env :
  (∀ pid rid, handler t type sock pid rid data env s = Done (rid, s, [])) →
  step t s (Message sock type data env) = Running s [].
Proof.
  intros Hh.
  destruct t; simpl.
  all: destruct (vars s !! sock) as [v|] eqn:Hv; [|done].
  all: destruct (live v) eqn:Hl; [|done].
  all: specialize (Hh (playerId v) (roomId v)); simpl in Hh.
  all: by rewrite Hh, rebind_same.
Qed.

(** C7, as stated, fails: a [score_update] without [scores] and a
    [player_scored] without [scoringPlayer] from a player of a started game
    produce no outbound event at all, so no error reaches the sender; a
    [join_room] without [roomId] is logged and dropped by the WebSocket
    server, again without any outbound event, and stops the Socket.io
    server, as does a [score_update] that this player emits without any
    payload.  A [paddle_move] without [y] is not dropped either: it stores
    an undefined paddle position and relays it to the opponent. *)
Lemma malformed_payload_not_reported :
  let s := Scenario.state_after SocketIO Scenario.started in
  let s_ws := Scenario.state_after WebSocket Scenario.started in
  let env := Scenario.at_time 1500 in
  step SocketIO s (Message 1 score_update Scenario.empty env) = Running s [] ∧
  step SocketIO s (Message 1 player_scored Scenario.empty env) = Running s [] ∧
  step WebSocket s_ws (Message 1 join_room (Scenario.named "A") env) =
    Running s_ws [] ∧
  step SocketIO s (Message 1 join_room (Scenario.named "A") env) = Crashed ∧
  step SocketIO s (Message 1 score_update None env) = Crashed ∧
  ∃ s' room room',
    step SocketIO s (Message 1 paddle_move Scenario.empty env) =
      Running s' [(2, out_opponent_move None)] ∧
    rooms s !! "ABC123"%string = Some room ∧
    rooms s' !! "ABC123"%string = Some room' ∧
    paddles (gameState room) !! "ua"%string = Some (Some 150%Z) ∧
    paddles (gameState room') !! "ua"%string = Some None.
Proof.
  simpl. split_and!; try (vm_compute; reflexivity).
  eexists _, _, _. split_and!; vm_compute; reflexivity.
Qed.

(** C7 (as the code has it): a [score_update] whose payload has no [scores]
    and a [player_scored] whose payload has no [scoringPlayer], on either
    server, and a [join_room] whose payload has no [roomId] on the WebSocket
    server, are dropped silently: nothing is sent to anybody, and rooms,
    queue, connection bindings and timers stay as they were.  The WebSocket
    server drops these three events in the same way when they come without
    any payload.  The Socket.io server drops a [score_update] or
    [player_scored] that comes without any payload only if the sender is
    not bound to an existing room; from a sender that is, the handler reads
    a field of [undefined] and the throw ends the server. *)
Theorem malformed_payload_dropped (t : Transport) s sock data env :
  (d_scores data = None →
   step t s (Message sock score_update (Some data) env) = Running s [])
  ∧ (d_scoringPlayer data = None →
     step t s (Message sock player_scored (Some data) env) = Running s [])
  ∧ (d_roomId data = None →
     step WebSocket s (Message sock join_room (Some data) env) = Running s [])
  ∧ (∀ type, type = score_update ∨ type = player_scored ∨ type = join_room →
     step WebSocket s (Message sock type None env) = Running s [])
  ∧ (∀ type v, type = score_update ∨ type = player_scored →
     vars s !! sock = Some v → live v = true →
     step SocketIO s (Message sock type None env) =
     match bound_room (roomId v) s with
     | Some _ => Crashed
     | None => Running s []
     end).
Proof.
  split_and!.
  - intros Hd. apply step_dropped. intros pid rid. rewrite handler_Some. simpl.
    unfold Sio.on_score_update. rewrite Hd. by repeat case_match.
  - intros Hd. apply step_dropped. intros pid rid. rewrite handler_Some. simpl.
    unfold Sio.on_player_scored. rewrite Hd. by repeat case_match.
  - intros Hd. simpl. unfold Ws.on_join_room. rewrite Hd.
    by repeat case_match.
  - intros type [-> | [-> | ->]].
    + apply step_dropped. intros pid rid. simpl.
      unfold Ws.on_score_update. by repeat case_match.
    + apply step_dropped. intros pid rid. simpl.
      unfold Ws.on_player_scored. by repeat case_match.
    + simpl. unfold Ws.on_join_room. simpl. by repeat case_match.
  - intros type v Htype Hv Hl. simpl. rewrite Hv, Hl.
    destruct Htype as [-> | ->]; simpl.
    + unfold Sio.on_score_update.
      destruct (bound_room (roomId v) s) as [[r room]|]; [done|].
      by rewrite rebind_same.
    + unfold Sio.on_player_scored.
      destruct (bound_room (roomId v) s) as [[r room]|]; [done|].
      by rewrite rebind_same.
Qed.

Lemma malformed_payload_dropped_witness :
  let s := Scenario.state_after WebSocket Scenario.started in
  let s_io := Scenario.state_after SocketIO Scenario.started in
  step WebSocket s
       (Message 2 score_update (Scenario.scored "ub") (Scenario.at_time 1500)) =
    Running s [] ∧
  step WebSocket s
       (Message 2 player_scored (Scenario.bulk [("ub"%string, of_Z 7)])
                (Scenario.at_time 1500)) =
    Running s [] ∧
  step WebSocket s
       (Message 2 join_room (Scenario.named "B") (Scenario.at_time 1500)) =
    Running s [] ∧
  step WebSocket s (Message 2 player_scored None (Scenario.at_time 1500)) =
    Running s [] ∧
  step SocketIO s_io (Message 2 player_scored None (Scenario.at_time 1500)) =
    Crashed.
Proof.
  intros s s_io.
  pose proof (malformed_payload_dropped WebSocket s 2
                (mkData None None None None None (Some "ub"%string))
                (Scenario.at_time 1500)) as (H1 & _ & _ & _ & _).
  pose proof (malformed_payload_dropped WebSocket s 2
                (mkData None None None None (Some [("ub"%string, of_Z 7)]) None)
                (Scenario.at_time 1500)) as (_ & H2 & _ & _ & _).
  pose proof (malformed_payload_dropped WebSocket s 2
                (mkData (Some "B"%string) None None None None None)
                (Scenario.at_time 1500)) as (_ & _ & H3 & H4 & _).
  pose proof (malformed_payload_dropped SocketIO s_io 2 no_data
                (Scenario.at_time 1500)) as (_ & _ & _ & _ & H5).
  split; [apply H1; reflexivity|].
  split; [apply H2; reflexivity|].
  split; [apply H3; reflexivity|].
  split; [apply H4; right; left; reflexivity|].
  apply (H5 player_scored (mkVars "ub" (Some "ABC123"%string) true)).
  - right. reflexivity.
  - vm_compute. reflexivity.
  - reflexivity.
Defined.

(** ** Room codes *)

Lemma length_toUpperCase s : String.length (toUpperCase s) = String.length s.
Proof. induction s; simpl; congruence. Qed.

Lemma length_substring n m s :
  String.length (substring n m s) = Nat.min m (String.length s - n).
Proof.
  revert n m. induction s as [|c s IH]; intros [|n] [|m]; simpl; try done.
  all: rewrite ?IH; simpl; rewrite ?Nat.sub_0_r; done.
Qed.

(** A generated code has the characters 2..7 of the rendering: at most six,
    and six exactly when the rendering has eight characters or more. *)
Lemma gen_room_code_length random36 :
  String.length (gen_room_code random36) = Nat.min 6 (String.length random36 - 2).
Proof. unfold gen_room_code. by rewrite length_toUpperCase, length_substring. Qed.

Lemma upper_char_code c : is_base36 c = true → is_code_char (upper_char c) = true.
Proof.
  unfold is_base36, is_code_char, upper_char.
  destruct c as [[] [] [] [] [] [] [] []]; vm_compute; done.
Qed.

Lemma string_forall_substring P n m s :
  string_forall P s = true → string_forall P (substring n m s) = true.
Proof.
  revert n m. induction s as [|c s IH]; intros [|n] [|m]; simpl; try done.
  all: intros [Hc ?]%andb_true_iff; rewrite ?Hc; simpl; auto.
Qed.

Lemma gen_room_code_alphabet random36 :
  string_forall is_base36 (substring 2 6 random36) = true →
  string_forall is_code_char (gen_room_code random36) = true.
Proof.
  unfold gen_room_code. generalize (substring 2 6 random36) as s.
  induction s as [|c s IH]; simpl; [done|].
  intros [Hc Hs]%andb_true_iff. by rewrite upper_char_code, IH.
Qed.

Example gen_room_code_typical : gen_room_code "0.abc123xyz" = "ABC123"%string.
Proof. reflexivity. Qed.

(** [join_room] looks the room up under the trimmed, upper-cased input. *)
Example join_room_normalizes :
  toUpperCase (trim "  abc123 ") = "ABC123"%string ∧
  toUpperCase (trim "a b") = "A B"%string ∧
  trim "   " = ""%string.
Proof. split_and!; reflexivity. Qed.

(** C8 fails on short renderings: [Math.random()] can return 0.5, whose
    rendering in base 36 is "0.i"; the code generated from it is "I", one
    character long, and [create_room] announces that code.  The rendering
    "0" of 0 gives the empty code. *)
Theorem short_room_code :
  gen_room_code "0.i" = "I"%string ∧
  String.length (gen_room_code "0.i") = 1 ∧
  gen_room_code "0" = ""%string ∧
  Sio.on_create_room 1 "ua" None (Scenario.named "A") (mkEnv "0.i" 0) initial =
    Done (Some "I"%string,
          set_rooms
            {[ "I"%string :=
                 mkRoom [("ua"%string, mkPlayer 1 false true "A")]
                        new_gameState false None None ]}
            initial,
          [(1, out_room_created "I")]).
Proof. split_and!; reflexivity. Qed.

(** ** Instances on concrete sessions *)

Lemma started_reachable (t : Transport) :
  reachable t (Scenario.state_after t Scenario.started).
Proof.
  exists Scenario.started, (Scenario.outs_after t Scenario.started).
  destruct t; vm_compute; reflexivity.
Qed.

Lemma room_capacity_witness :
  let s := Scenario.state_after SocketIO Scenario.started in
  (∃ room, rooms s !! "ABC123"%string = Some room ∧
           NoDup (keys (players room)) ∧ length (keys (players room)) ≤ 2) ∧
  handler SocketIO join_room 3 "uc" None (Scenario.joining "C" " abc123")
          (Scenario.at_time 5000) s =
    Done (Some "ABC123"%string, s, [(3, out_error "Room is full")]) ∧
  handler SocketIO join_room 3 "uc" None (Scenario.joining "C" "zzzzzz")
          (Scenario.at_time 5000) s =
    Done (None, s, [(3, out_error "Room not found")]).
Proof.
  intros s.
  destruct (room_capacity SocketIO) as (Hcap & Hjoin & _).
  split; [|split].
  - destruct (rooms s !! "ABC123"%string) as [room|] eqn:Hroom;
      [|vm_compute in Hroom; discriminate].
    exists room. split; [reflexivity|].
    apply (Hcap s "ABC123"%string room); [apply started_reachable | exact Hroom].
  - pose proof (Hjoin 3 "uc"%string None
                  (mkData (Some "C"%string) (Some " abc123"%string) None None None None)
                  (Scenario.at_time 5000) s " abc123"%string eq_refl) as H.
    cbv zeta in H.
    destruct (rooms s !! toUpperCase (trim " abc123")) as [room|] eqn:Hroom;
      [|vm_compute in Hroom; discriminate].
    destruct (decide (length (keys (players room)) < 2)) as [Hlt|_]; [|exact H].
    exfalso. vm_compute in Hroom. injection Hroom as <-.
    vm_compute in Hlt. lia.
  - pose proof (Hjoin 3 "uc"%string None
                  (mkData (Some "C"%string) (Some "zzzzzz"%string) None None None None)
                  (Scenario.at_time 5000) s "zzzzzz"%string eq_refl) as H.
    cbv zeta in H.
    destruct (rooms s !! toUpperCase (trim "zzzzzz")) as [room|] eqn:Hroom;
      [vm_compute in Hroom; discriminate | exact H].
Defined.

Lemma gameStarted_transitions_witness :
  let s := Scenario.state_after WebSocket
             (Scenario.lobby ++
              [Message 1 player_ready Scenario.empty (Scenario.at_time 500)]) in
  (∃ s' outs room',
     step WebSocket s (Message 2 player_ready Scenario.empty (Scenario.at_time 1000)) =
       Running s' outs ∧
     rooms s' !! "ABC123"%string = Some room' ∧ gameStarted room' = true) ∧
  (∃ room',
     rooms (Scenario.state_after WebSocket
              (Scenario.set1_played ++ [Disconnect 1])) !! "ABC123"%string =
       Some room' ∧
     gameStarted room' = true).
Proof.
  intros s.
  destruct (gameStarted_transitions WebSocket) as (Hiff & Hstable).
  split.
  - destruct (step WebSocket s
                (Message 2 player_ready Scenario.empty (Scenario.at_time 1000)))
      as [s' outs|] eqn:Hstep; [|vm_compute in Hstep; discriminate].
    destruct (rooms s !! "ABC123"%string) as [room|] eqn:Hroom;
      [|vm_compute in Hroom; discriminate].
    assert (Hflag : gameStarted room = false).
    { vm_compute in Hroom. injection Hroom as <-. reflexivity. }
    destruct (proj1 (Hiff s _ s' outs "ABC123"%string room Hstep Hroom Hflag))
      as (room' & Hroom' & Hstarted).
    + exists 2, Scenario.empty, (Scenario.at_time 1000),
        (mkVars "ub" (Some "ABC123"%string) true), (mkPlayer 2 false false "B").
      vm_compute in Hroom. injection Hroom as <-.
      split; [reflexivity|]. split; [vm_compute; reflexivity|].
      split; [reflexivity|]. split; [reflexivity|]. split; [reflexivity|].
      split; [reflexivity|]. split; reflexivity.
    + exists s', outs, room'. split; [reflexivity|]. split; assumption.
  - destruct (rooms (Scenario.state_after WebSocket
                       (Scenario.set1_played ++ [Disconnect 1]))
                !! "ABC123"%string) as [room'|] eqn:Hroom';
      [|vm_compute in Hroom'; discriminate].
    exists room'. split; [reflexivity|].
    destruct (rooms (Scenario.state_after WebSocket Scenario.started)
                !! "ABC123"%string) as [room|] eqn:Hroom;
      [|vm_compute in Hroom; discriminate].
    eapply (Hstable
              [Message 1 player_scored (Scenario.scored "ua") (Scenario.at_time 2000);
               Message 1 player_scored (Scenario.scored "ua") (Scenario.at_time 3000);
               Message 2 player_scored (Scenario.scored "ua") (Scenario.at_time 4000);
               Disconnect 1]
              (Scenario.state_after WebSocket Scenario.started)
              (Scenario.state_after WebSocket
                 (Scenario.set1_played ++ [Disconnect 1]))
              _ "ABC123"%string room room').
    + vm_compute. reflexivity.
    + repeat constructor; discriminate.
    + exact Hroom.
    + vm_compute in Hroom. injection Hroom as <-. reflexivity.
    + exact Hroom'.
Defined.

(** * Further properties of the servers *)

(** ** Rooms are never empty; match state and timer come with the start *)

Lemma rooms_live_insert s r room :
  room_live room → rooms_live s →
  map_Forall (λ _ room, room_live room) (<[r := room]> (rooms s)).
Proof. intros. by apply map_Forall_insert_2. Qed.

Lemma room_live_same room room' :
  players room' = players room → gameStarted room' = gameStarted room →
  (is_Some (matchState room') ↔ is_Some (matchState room)) →
  (is_Some (matchTimer room) → is_Some (matchTimer room')) →
  room_live room → room_live room'.
Proof.
  intros Hp Hg Hm Ht [H1 H2 H3]. split.
  - by rewrite Hp.
  - by rewrite Hg, Hm.
  - rewrite Hg. auto.
Qed.

Lemma alist_set_not_nil {A} k (v : A) l : alist_set k v l ≠ [].
Proof. destruct l as [|[k' v'] l]; simpl; [done|]. by destruct (String.eqb k k'). Qed.

Lemma handler_live type sock pid rid data env s rid' s' outs :
  Sio.handler type sock pid rid data env s = Done (rid', s', outs) →
  rooms_live s → rooms_live s'.
Proof.
  intros H Hl. destruct type; simpl in H.
  - unfold Sio.on_create_room in H. case_match; simplify_eq.
    apply rooms_live_insert; [|done].
    split; simpl; [done | | done]. split; [done | by intros []].
  - unfold Sio.on_join_room in H. repeat case_match; simplify_eq; try done.
    all: apply rooms_live_insert; [|done].
    all: match goal with H : rooms _ !! _ = Some ?room |- _ =>
           destruct (Hl _ _ H) as [? ? ?] end.
    all: split; [apply alist_set_not_nil | done | done].
  - unfold Sio.on_find_game in H. repeat case_match; simplify_eq; try done.
    apply rooms_live_insert; [|done].
    split; [simpl; by case_match | simpl | done].
    split; [done | by intros []].
  - unfold Sio.on_player_ready in H. repeat case_match; simplify_eq; try done.
    all: bound_room_inv.
    all: apply rooms_live_insert; [|done].
    all: match goal with H : rooms _ !! _ = Some ?room |- _ =>
           destruct (Hl _ _ H) as [? ? ?] end.
    all: split; try apply alist_set_not_nil; simpl; try done.
    all: split; eauto.
  - unfold Sio.on_paddle_move in H. repeat case_match; simplify_eq; try done.
    bound_room_inv. apply rooms_live_insert; [|done].
    eapply room_live_same; [..|by eapply Hl]; done.
  - unfold Sio.on_ball_update in H. repeat case_match; simplify_eq; try done.
    bound_room_inv. apply rooms_live_insert; [|done].
    eapply room_live_same; [..|by eapply Hl]; done.
  - unfold Sio.on_score_update in H. repeat case_match; simplify_eq; try done.
    bound_room_inv. apply rooms_live_insert; [|done].
    eapply room_live_same; [..|by eapply Hl]; done.
  - unfold Sio.on_player_scored in H. repeat case_match; simplify_eq; try done.
    bound_room_inv. apply rooms_live_insert; [|done].
    eapply room_live_same; [..|by eapply Hl]; done.
  - by simplify_eq.
Qed.

Lemma rooms_live_ext s s' : rooms s' = rooms s → rooms_live s → rooms_live s'.
Proof. unfold rooms_live. by intros ->. Qed.

Lemma length_keys_zero_nil {A} (l : list (string * A)) :
  (length (keys l) =? 0) = false → l ≠ [].
Proof. by destruct l. Qed.

Lemma on_disconnect_live sock pid rid s s' outs :
  Sio.on_disconnect sock pid rid s = (s', outs) → rooms_live s → rooms_live s'.
Proof.
  unfold Sio.on_disconnect. intros H Hl.
  repeat case_match; simplify_eq; try done; bound_room_inv; simpl in *.
  all: try (rewrite rooms_clearInterval; simpl).
  all: try (by apply map_Forall_delete).
  all: apply rooms_live_insert; [|done].
  all: match goal with H : rooms _ !! _ = Some ?room |- _ =>
         destruct (Hl _ _ H) as [? ? ?] end.
  all: split; simpl; [by apply length_keys_zero_nil | done | done].
Qed.

Lemma on_close_live sock pid rid s s' outs :
  Ws.on_close sock pid rid s = (s', outs) → rooms_live s → rooms_live s'.
Proof.
  unfold Ws.on_close. intros H Hl.
  repeat case_match; simplify_eq; try done; bound_room_inv; simpl in *.
  all: try (by apply map_Forall_delete).
  all: apply rooms_live_insert; [|done].
  all: match goal with H : rooms _ !! _ = Some ?room |- _ =>
         destruct (Hl _ _ H) as [? ? ?] end.
  all: split; simpl; [by apply length_keys_zero_nil | done | done].
Qed.

Lemma matchTimer_callback_live p0 p1 rid now s s' outs :
  Sio.matchTimer_callback p0 p1 rid now s = Done (s', outs) →
  rooms_live s → rooms_live s'.
Proof.
  unfold Sio.matchTimer_callback. intros H Hl.
  repeat case_match; simplify_eq; simpl in *.
  all: eapply rooms_live_ext; [try apply rooms_clearInterval; reflexivity|].
  all: apply rooms_live_insert; [|done].
  all: match goal with H : rooms _ !! _ = Some ?room |- _ =>
         destruct (Hl _ _ H) as [? Hm ?] end.
  all: split; simpl; try done.
  all: rewrite Hm; split; intros _; eauto.
Qed.

Lemma ball_start_callback_live owner rid px py s s' outs :
  Sio.ball_start_callback owner rid px py s = Done (s', outs) →
  rooms_live s → rooms_live s'.
Proof.
  unfold Sio.ball_start_callback. intros H Hl.
  repeat case_match; simplify_eq; simpl in *; try done.
  all: apply rooms_live_insert; [|done].
  all: eapply room_live_same; [..|by eapply Hl]; done.
Qed.

Lemma ball_confirm_callback_live rid s s' outs :
  Sio.ball_confirm_callback rid s = Done (s', outs) → rooms_live s → rooms_live s'.
Proof.
  unfold Sio.ball_confirm_callback. intros H Hl.
  repeat case_match; by simplify_eq.
Qed.

Lemma step_live t s e s' outs :
  step t s e = Running s' outs → rooms_live s → rooms_live s'.
Proof.
  intros H Hl. destruct t, e; simpl in H.
  all: repeat case_match; simplify_eq; try done.
  all: try match goal with
       | |- rooms_live (set_vars _ ?s0) => apply (rooms_live_ext s0); [reflexivity|]
       end.
  all: rewrite ?ws_handler_eq in *.
  all: try (by eapply handler_live).
  all: try (by eapply on_disconnect_live).
  all: try (by eapply on_close_live).
  all: try (by eapply matchTimer_callback_live).
  all: try (eapply ball_start_callback_live; [eassumption|]; by apply (rooms_live_ext s)).
  all: try (eapply ball_confirm_callback_live; [eassumption|]; by apply (rooms_live_ext s)).
Qed.

Lemma run_live t evs : ∀ s s' outs,
  run t s evs = Running s' outs → rooms_live s → rooms_live s'.
Proof.
  induction evs as [|e evs IH]; simpl; intros s s' outs H Hl.
  - by simplify_eq.
  - destruct (step t s e) as [s1 o1|] eqn:Hstep; [|done].
    destruct (run t s1 evs) as [s2 o2|] eqn:Hrun; [|done].
    simplify_eq. eapply IH; [eassumption|]. by eapply step_live.
Qed.

(** X1: in every state either server can reach, a room that exists has at
    least one player and at most one host, its match state exists exactly
    when its game has started, and a started game has a timer handle. *)
Theorem reachable_rooms_shape (t : Transport) s r room :
  reachable t s → rooms s !! r = Some room →
  1 ≤ length (players room) ∧ hosts (players room) ≤ 1 ∧
  (gameStarted room = true ↔ is_Some (matchState room)) ∧
  (gameStarted room = true → is_Some (matchTimer room)).
Proof.
  intros Hreach Hr.
  destruct (reachable_wf t s Hreach r room Hr) as [_ _ Hh].
  destruct Hreach as (evs & outs & Hrun).
  assert (Hl : rooms_live s).
  { eapply run_live; [eassumption|]. unfold rooms_live. simpl. apply map_Forall_empty. }
  destruct (Hl r room Hr) as [Hne Hm Ht].
  split_and!; try done. destruct (players room); simpl; [done | lia].
Qed.

Lemma reachable_rooms_shape_witness :
  ∃ room,
    rooms (Scenario.state_after WebSocket Scenario.set1_played) !! "ABC123"%string
      = Some room ∧
    1 ≤ length (players room) ∧ hosts (players room) ≤ 1 ∧
    (gameStarted room = true ↔ is_Some (matchState room)) ∧
    (gameStarted room = true → is_Some (matchTimer room)).
Proof.
  destruct (rooms (Scenario.state_after WebSocket Scenario.set1_played)
              !! "ABC123"%string) as [room|] eqn:Hroom;
    [|vm_compute in Hroom; discriminate].
  exists room. split; [reflexivity|].
  apply (reachable_rooms_shape WebSocket
           (Scenario.state_after WebSocket Scenario.set1_played)
           "ABC123"%string room); [|exact Hroom].
  exists Scenario.set1_played,
    (Scenario.outs_after WebSocket Scenario.set1_played).
  vm_compute. reflexivity.
Defined.

(** ** The matchmaking queue *)

Lemma waiting_clearInterval t s :
  waitingPlayers (clearInterval t s) = waitingPlayers s.
Proof. by destruct t. Qed.



Lemma eqb_false_sym (a b : string) : String.eqb a b = false → String.eqb b a = false.
Proof. rewrite !String.eqb_neq. congruence. Qed.



Lemma disconnect_queue sock pid rid s :
  waitingPlayers (Sio.on_disconnect sock pid rid s).1 =
    alist_del pid (waitingPlayers s) ∧
  waitingPlayers (Ws.on_close sock pid rid s).1 =
    alist_del pid (waitingPlayers s).
Proof.
  assert (Hdel : alist_get pid (waitingPlayers s) = None →
                 alist_del pid (waitingPlayers s) = waitingPlayers s).
  { intros H. apply alist_del_absent. by apply alist_get_None. }
  unfold Sio.on_disconnect, Ws.on_close.
  destruct (alist_get pid (waitingPlayers s)) eqn:Hg.
  - split; repeat case_match; simpl; rewrite ?waiting_clearInterval; done.
  - rewrite Hdel by done.
    split; repeat case_match; simpl; rewrite ?waiting_clearInterval; done.
Qed.





(** X3: two players who ask for a quick match one after the other, on an
    empty queue, are paired by the second request: the first caller is told
    to wait, the room is created under the drawn code with the second
    caller first in the roster and host and the first caller as non-host,
    each is sent [game_found] with the name of the other, and the queue is
    empty again.  Only the second caller's [roomId] variable is set to the
    new room; the [roomId] of the player who was waiting keeps its value. *)
Theorem quick_match_pairs_in_order (t : Transport) s sockA sockB vA vB dA dB envA envB :
  vars s !! sockA = Some vA → live vA = true →
  vars s !! sockB = Some vB → live vB = true →
  sockA ≠ sockB → playerId vA ≠ playerId vB → truthy (playerId vA) = true →
  waitingPlayers s = [] →
  let nameA := or_default (d_playerName dA) "Player" in
  let nameB := or_default (d_playerName dB) "Player" in
  let code := gen_room_code (random36 envB) in
  ∃ s' vA' vB',
    run t s [Message sockA find_game (Some dA) envA; Message sockB find_game (Some dB) envB] =
      Running s' [(sockA, out_waiting_for_opponent);
                  (sockB, out_game_found code true nameA);
                  (sockA, out_game_found code false nameB)] ∧
    rooms s' =
      <[code := mkRoom [(playerId vB, mkPlayer sockB false true nameB);
                        (playerId vA, mkPlayer sockA false false nameA)]
                       new_gameState false None None]> (rooms s) ∧
    waitingPlayers s' = [] ∧
    vars s' !! sockB = Some vB' ∧ roomId vB' = Some code ∧
    vars s' !! sockA = Some vA' ∧ roomId vA' = roomId vA.
Proof.
  intros HvA HlA HvB HlB Hsock Hpid HtA Hq nameA nameB code.
  assert (HAB : String.eqb (playerId vA) (playerId vB) = false)
    by (by apply String.eqb_neq).
  assert (HBA : String.eqb (playerId vB) (playerId vA) = false)
    by (by apply eqb_false_sym).
  assert (H1 : Sio.on_find_game sockA (playerId vA) (roomId vA) (Some dA) envA s =
               Done (roomId vA,
                     set_waitingPlayers [(playerId vA, mkWaiting sockA nameA)] s,
                     [(sockA, out_waiting_for_opponent)])).
  { unfold Sio.on_find_game. rewrite Hq. reflexivity. }
  set (s1 := set_vars (<[sockA := mkVars (playerId vA) (roomId vA) true]> (vars s))
               (set_waitingPlayers [(playerId vA, mkWaiting sockA nameA)] s)).
  assert (HvB1 : vars s1 !! sockB = Some vB).
  { simpl. by rewrite lookup_insert_ne. }
  assert (Hstep1 : step t s (Message sockA find_game (Some dA) envA) =
                   Running s1 [(sockA, out_waiting_for_opponent)]).
  { destruct t; simpl; rewrite HvA, HlA;
      ws_as_sio; by rewrite H1. }
  set (room := mkRoom [(playerId vB, mkPlayer sockB false true nameB);
                       (playerId vA, mkPlayer sockA false false nameA)]
                      new_gameState false None None).
  assert (H2 : Sio.on_find_game sockB (playerId vB) (roomId vB) (Some dB) envB s1 =
               Done (Some code,
                     set_waitingPlayers []
                       (set_rooms (<[code := room]> (rooms s))
                          (set_waitingPlayers
                             [(playerId vA, mkWaiting sockA nameA);
                              (playerId vB, mkWaiting sockB nameB)] s1)),
                     [(sockB, out_game_found code true nameA);
                      (sockA, out_game_found code false nameB)])).
  { unfold Sio.on_find_game. simpl.
    repeat (rewrite ?HAB, ?HBA, ?HtA, ?String.eqb_refl; simpl).
    reflexivity. }
  assert (Hstep2 : ∃ s2, step t s1 (Message sockB find_game (Some dB) envB) =
                   Running s2 [(sockB, out_game_found code true nameA);
                               (sockA, out_game_found code false nameB)] ∧
                   rooms s2 = <[code := room]> (rooms s) ∧
                   waitingPlayers s2 = [] ∧
                   vars s2 = <[sockB := mkVars (playerId vB) (Some code) true]> (vars s1)).
  { eexists. split.
    - destruct t; unfold step, Sio.step, Ws.step; rewrite HvB1, HlB;
        unfold Sio.handler, Ws.handler;
        ws_as_sio; rewrite H2; reflexivity.
    - done. }
  destruct Hstep2 as (s2 & Hstep2 & Hr2 & Hw2 & Hv2).
  exists s2, (mkVars (playerId vA) (roomId vA) true),
    (mkVars (playerId vB) (Some code) true).
  split_and!; try done.
  - cbn [run]. rewrite Hstep1, Hstep2. reflexivity.
  - rewrite Hv2. apply lookup_insert_eq.
  - rewrite Hv2. rewrite lookup_insert_ne by done. simpl. apply lookup_insert_eq.
Qed.

Lemma quick_match_pairs_in_order_witness :
  let s := Scenario.state_after WebSocket Session.two_connected in
  ∃ s',
    run WebSocket s
        [Message 1 find_game (Scenario.named "A") (Scenario.at_time 0);
         Message 2 find_game (Scenario.named "B") (Scenario.at_time 0)] =
      Running s' [(1, out_waiting_for_opponent);
                  (2, out_game_found "ABC123" true "A");
                  (1, out_game_found "ABC123" false "B")] ∧
    waitingPlayers s' = [].
Proof.
  intros s.
  edestruct (quick_match_pairs_in_order WebSocket s 1 2
               (mkVars "ua" None true) (mkVars "ub" None true)
               (mkData (Some "A"%string) None None None None None)
               (mkData (Some "B"%string) None None None None None)
               (Scenario.at_time 0) (Scenario.at_time 0))
    as (s' & vA' & vB' & Hrun & _ & Hw & _).
  - vm_compute. reflexivity.
  - reflexivity.
  - vm_compute. reflexivity.
  - reflexivity.
  - discriminate.
  - discriminate.
  - reflexivity.
  - vm_compute. reflexivity.
  - exists s'. split; [exact Hrun | exact Hw].
Defined.

Lemma alist_get_set_same {A} k (v : A) l : alist_get k (alist_set k v l) = Some v.
Proof.
  induction l as [|[k' v'] l IH]; simpl.
  - by rewrite String.eqb_refl.
  - destruct (String.eqb k k') eqn:Hk; simpl; by rewrite Hk.
Qed.

(** What [player_ready] leaves in the room, whether or not it starts the
    game: the roster with the caller marked ready. *)
Lemma on_player_ready_marks sock pid data env s r room me :
  truthy r = true → rooms s !! r = Some room →
  alist_get pid (players room) = Some me →
  ∃ s' outs room',
    Sio.on_player_ready sock pid (Some r) data env s = Done (Some r, s', outs) ∧
    rooms s' !! r = Some room' ∧
    players room' = alist_set pid (set_ready true me) (players room).
Proof.
  intros Ht Hr Hme. unfold Sio.on_player_ready.
  rewrite (bound_room_intro s r room Ht Hr), Hme.
  destruct (forallb _ _);
    destruct (keys (alist_set pid (set_ready true me) (players room)))
      as [|p0 [|p1 [|? ?]]]; simpl.
  all: eexists _, _, _; (split; [reflexivity|]); simpl;
    rewrite lookup_insert_eq; done.
Qed.

(** A message from a live connection whose handler changes nothing. *)
Lemma step_dropped_for (t : Transport) s sock v type data env :
  vars s !! sock = Some v → live v = true →
  handler t type sock (playerId v) (roomId v) data env s =
    Done (roomId v, s, []) →
  step t s (Message sock type data env) = Running s [].
Proof.
  intros Hv Hl Hh.
  destruct t; simpl in *.
  all: by rewrite Hv, Hl, Hh, rebind_same.
Qed.

(** X4: a member of a full room whose own [roomId] variable was never set
    (the player who was waiting when a quick match paired it) is ignored
    when it sends [player_ready]: nothing changes and nothing is sent.  If it
    first submits the room code with [join_room], it is answered "Room is
    full", and the [player_ready] that follows is accepted: the room then has
    it marked ready. *)
Theorem unbound_member_ready_needs_join (t : Transport) s sock v data env1 env2 d
    submitted room me :
  vars s !! sock = Some v → live v = true → roomId v = None →
  d_roomId data = Some submitted →
  let code := toUpperCase (trim submitted) in
  truthy code = true →
  rooms s !! code = Some room →
  length (keys (players room)) = 2 →
  alist_get (playerId v) (players room) = Some me →
  step t s (Message sock player_ready d env2) = Running s [] ∧
  ∃ s' outs room',
    run t s [Message sock join_room (Some data) env1; Message sock player_ready d env2] =
      Running s' ((sock, out_error "Room is full") :: outs) ∧
    rooms s' !! code = Some room' ∧
    alist_get (playerId v) (players room') = Some (set_ready true me).
Proof.
  intros Hv Hl Hrid Hd code Ht Hr Hfull Hme. split.
  - apply step_dropped_for with v; try done.
    rewrite handler_sio. simpl. unfold Sio.on_player_ready. by rewrite Hrid.
  - assert (Hjoin : Sio.on_join_room sock (playerId v) (roomId v) (Some data) env1 s =
                    Done (Some code, s, [(sock, out_error "Room is full")])).
    { unfold Sio.on_join_room. cbv beta iota zeta. rewrite Hd. fold code.
      by rewrite Hr, Hfull. }
    set (v1 := mkVars (playerId v) (Some code) true).
    set (s1 := set_vars (<[sock := v1]> (vars s)) s).
    assert (Hstep1 : step t s (Message sock join_room (Some data) env1) =
                     Running s1 [(sock, out_error "Room is full")]).
    { destruct t; simpl; rewrite Hv, Hl;
        ws_as_sio; by rewrite Hjoin. }
    destruct (on_player_ready_marks sock (playerId v)
                (match t with
                 | SocketIO => d
                 | WebSocket => Some (Ws.message_object d)
                 end) env2 s1 code room me)
      as (s2 & outs & room' & Hready & Hr' & Hps); try done.
    assert (Hstep2 : step t s1 (Message sock player_ready d env2) =
              Running (set_vars (<[sock := v1]> (vars s2)) s2) outs).
    { assert (Hv1 : vars s1 !! sock = Some v1) by (simpl; apply lookup_insert_eq).
      destruct t; unfold step, Sio.step, Ws.step; rewrite Hv1; simpl live;
        unfold Sio.handler, Ws.handler;
        ws_as_sio;
        simpl playerId; simpl roomId; rewrite Hready; reflexivity. }
    eexists _, outs, room'. split_and!.
    + cbn [run]. rewrite Hstep1, Hstep2. simpl. by rewrite app_nil_r.
    + exact Hr'.
    + rewrite Hps. apply alist_get_set_same.
Qed.

Lemma unbound_member_ready_needs_join_witness :
  let s := Scenario.state_after SocketIO Session.quick_paired in
  step SocketIO s (Message 1 player_ready None (Scenario.at_time 100)) =
    Running s [] ∧
  ∃ s' outs room',
    run SocketIO s
        [Message 1 join_room (Scenario.joining "A" "abc123") (Scenario.at_time 50);
         Message 1 player_ready None (Scenario.at_time 100)] =
      Running s' ((1, out_error "Room is full") :: outs) ∧
    rooms s' !! "ABC123"%string = Some room' ∧
    alist_get "ua" (players room') = Some (mkPlayer 1 true false "A").
Proof.
  intros s.
  edestruct (unbound_member_ready_needs_join SocketIO s 1 (mkVars "ua" None true)
               (mkData (Some "A"%string) (Some "abc123"%string) None None None None)
               (Scenario.at_time 50) (Scenario.at_time 100) None "abc123")
    as (Hignored & s' & outs & room' & Hrun & Hroom & Hme).
  - vm_compute. reflexivity.
  - reflexivity.
  - reflexivity.
  - reflexivity.
  - reflexivity.
  - vm_compute. reflexivity.
  - reflexivity.
  - vm_compute. reflexivity.
  - split; [exact Hignored|]. exists s', outs, room'.
    split; [exact Hrun|]. split; [exact Hroom | exact Hme].
Defined.

(** ** Room codes and their normalisation *)

Lemma is_code_char_not_space c : is_code_char c = true → is_space c = false.
Proof.
  unfold is_code_char, is_space.
  destruct c as [[] [] [] [] [] [] [] []]; vm_compute; done.
Qed.

Lemma is_code_char_upper c : is_code_char c = true → upper_char c = c.
Proof.
  unfold is_code_char, upper_char.
  destruct c as [[] [] [] [] [] [] [] []]; vm_compute; done.
Qed.

Lemma upper_char_idemp c : upper_char (upper_char c) = upper_char c.
Proof. destruct c as [[] [] [] [] [] [] [] []]; vm_compute; done. Qed.

Lemma is_space_upper c : is_space (upper_char c) = is_space c.
Proof. destruct c as [[] [] [] [] [] [] [] []]; vm_compute; done. Qed.

Lemma toUpperCase_code s :
  string_forall is_code_char s = true → toUpperCase s = s.
Proof.
  induction s as [|c s IH]; simpl; [done|].
  intros [Hc Hs]%andb_true_iff. by rewrite is_code_char_upper, IH.
Qed.

Lemma trimEnd_code s : string_forall is_code_char s = true → trimEnd s = s.
Proof.
  induction s as [|c s IH]; simpl; [done|].
  intros [Hc Hs]%andb_true_iff. rewrite IH by done.
  destruct s; [|done]. by rewrite is_code_char_not_space.
Qed.

Lemma trim_code s : string_forall is_code_char s = true → trim s = s.
Proof.
  intros H. unfold trim.
  assert (trimStart s = s) as ->; [|by apply trimEnd_code].
  destruct s as [|c s]; simpl in *; [done|].
  apply andb_true_iff in H as [Hc _]. by rewrite is_code_char_not_space.
Qed.

Lemma toUpperCase_idemp s : toUpperCase (toUpperCase s) = toUpperCase s.
Proof. induction s as [|c s IH]; simpl; [done|]. by rewrite upper_char_idemp, IH. Qed.

Lemma trimStart_upper s : trimStart (toUpperCase s) = toUpperCase (trimStart s).
Proof.
  induction s as [|c s IH]; simpl; [done|].
  rewrite is_space_upper. by destruct (is_space c).
Qed.

Lemma trimEnd_upper s : trimEnd (toUpperCase s) = toUpperCase (trimEnd s).
Proof.
  induction s as [|c s IH]; simpl; [done|].
  rewrite IH, is_space_upper.
  destruct (trimEnd s); simpl; [by destruct (is_space c) | done].
Qed.

Lemma trimStart_trimEnd_comm s : trimStart (trimEnd s) = trimEnd (trimStart s).
Proof.
  induction s as [|c s IH]; simpl; [done|].
  destruct (is_space c) eqn:Hc.
  - rewrite <- IH. destruct (trimEnd s) eqn:Hs; simpl; rewrite ?Hs, ?Hc; done.
  - destruct (trimEnd s) eqn:Hs; simpl; rewrite ?Hs, ?Hc; done.
Qed.

Lemma trimStart_idemp s : trimStart (trimStart s) = trimStart s.
Proof.
  induction s as [|c s IH]; simpl; [done|].
  destruct (is_space c) eqn:Hc; [done|]. simpl. by rewrite Hc.
Qed.

Lemma trimEnd_idemp s : trimEnd (trimEnd s) = trimEnd s.
Proof.
  induction s as [|c s IH]; simpl; [done|].
  destruct (trimEnd s) as [|c' s'] eqn:Hs.
  - destruct (is_space c) eqn:Hc; simpl; [done | by rewrite Hc].
  - simpl in *. rewrite IH. done.
Qed.

(** X5: the normalisation [join_room] applies to a submitted code
    ([trim], then [toUpperCase]) is idempotent, it does not matter in which
    order the two are applied, and its result has no white space at either
    end. *)
Theorem join_code_normalisation s :
  let norm := λ x, toUpperCase (trim x) in
  norm (norm s) = norm s ∧
  toUpperCase (trim s) = trim (toUpperCase s) ∧
  trimStart (norm s) = norm s ∧ trimEnd (norm s) = norm s.
Proof.
  simpl. unfold trim.
  assert (Hidem : trimEnd (trimStart (trimEnd (trimStart s))) = trimEnd (trimStart s)).
  { rewrite <- (trimStart_trimEnd_comm (trimEnd (trimStart s))) at 1.
    by rewrite trimEnd_idemp, trimStart_trimEnd_comm, trimStart_idemp. }
  split_and!.
  - by rewrite trimStart_upper, trimEnd_upper, Hidem, toUpperCase_idemp.
  - by rewrite trimStart_upper, trimEnd_upper.
  - rewrite trimStart_upper. f_equal.
    by rewrite <- trimStart_trimEnd_comm, trimStart_idemp.
  - rewrite trimEnd_upper. f_equal. by rewrite trimEnd_idemp.
Qed.

(** X6: a generated room code has at most six characters, and exactly six
    when the base-36 rendering of the random number has eight characters or
    more; when the characters taken from the rendering are base-36 digits,
    the code consists of upper-case letters and digits, and it is its own
    normal form, so that typing it back into [join_room] looks up the same
    key. *)
Theorem generated_code_shape random36 :
  String.length (gen_room_code random36) ≤ 6 ∧
  (8 ≤ String.length random36 → String.length (gen_room_code random36) = 6) ∧
  (string_forall is_base36 (substring 2 6 random36) = true →
   string_forall is_code_char (gen_room_code random36) = true ∧
   toUpperCase (trim (gen_room_code random36)) = gen_room_code random36).
Proof.
  rewrite gen_room_code_length. split_and!; try lia.
  intros Hb. pose proof (gen_room_code_alphabet _ Hb) as Hc.
  split; [done|]. by rewrite trim_code, toUpperCase_code.
Qed.

Lemma generated_code_shape_witness :
  String.length (gen_room_code "0.abc123xyz") = 6 ∧
  string_forall is_code_char (gen_room_code "0.abc123xyz") = true ∧
  toUpperCase (trim (gen_room_code "0.abc123xyz")) = gen_room_code "0.abc123xyz".
Proof.
  destruct (generated_code_shape "0.abc123xyz") as (_ & Hsix & Hnorm).
  split; [apply Hsix; vm_compute; lia|].
  apply Hnorm. reflexivity.
Defined.

(** ** Creating and joining *)

Lemma step_create_room (t : Transport) s sock v data env :
  vars s !! sock = Some v → live v = true →
  let code := gen_room_code (random36 env) in
  let room :=
    mkRoom [(playerId v, mkPlayer sock false true (or_default (d_playerName data) "Player"))]
           new_gameState false None None in
  step t s (Message sock create_room (Some data) env) =
  Running (set_vars (<[sock := mkVars (playerId v) (Some code) true]> (vars s))
             (set_rooms (<[code := room]> (rooms s)) s))
          [(sock, out_room_created code)].
Proof.
  intros Hv Hl. destruct t; simpl; by rewrite Hv, Hl.
Qed.

(** X7: a room created by A and then joined by another player B under a
    submission that normalises to the announced code is a lobby of two:
    A is sent [room_created] and then [player_joined] with B's id and name,
    B is sent [room_joined] with A's name, the roster is A (host) followed
    by B (not host), nobody is ready, the game is not started, and both
    connections are bound to the code. *)
Theorem create_then_join (t : Transport) s sockA sockB vA vB dA dB envA envB submitted :
  vars s !! sockA = Some vA → live vA = true →
  vars s !! sockB = Some vB → live vB = true →
  sockA ≠ sockB → playerId vA ≠ playerId vB →
  d_roomId dB = Some submitted →
  let code := gen_room_code (random36 envA) in
  toUpperCase (trim submitted) = code →
  let nameA := or_default (d_playerName dA) "Player" in
  let nameB := or_default (d_playerName dB) "Player" in
  ∃ s' vA' vB',
    run t s [Message sockA create_room (Some dA) envA; Message sockB join_room (Some dB) envB] =
      Running s' [(sockA, out_room_created code);
                  (sockA, out_player_joined (playerId vB) nameB);
                  (sockB, out_room_joined code nameA)] ∧
    rooms s' =
      <[code := mkRoom [(playerId vA, mkPlayer sockA false true nameA);
                        (playerId vB, mkPlayer sockB false false nameB)]
                       new_gameState false None None]> (rooms s) ∧
    vars s' !! sockA = Some vA' ∧ roomId vA' = Some code ∧
    vars s' !! sockB = Some vB' ∧ roomId vB' = Some code.
Proof.
  intros HvA HlA HvB HlB Hsock Hpid Hd code Hnorm nameA nameB.
  pose proof (step_create_room t s sockA vA dA envA HvA HlA) as Hstep1.
  cbv zeta in Hstep1. fold code nameA in Hstep1.
  set (roomA := mkRoom [(playerId vA, mkPlayer sockA false true nameA)]
                       new_gameState false None None) in *.
  set (s1 := set_vars (<[sockA := mkVars (playerId vA) (Some code) true]> (vars s))
               (set_rooms (<[code := roomA]> (rooms s)) s)) in *.
  assert (HvB1 : vars s1 !! sockB = Some vB) by (simpl; by rewrite lookup_insert_ne).
  assert (HBA : String.eqb (playerId vB) (playerId vA) = false)
    by (apply String.eqb_neq; congruence).
  assert (Hjoin : Sio.on_join_room sockB (playerId vB) (roomId vB) (Some dB) envB s1 =
            Done (Some code,
                  set_rooms
                    (<[code := mkRoom [(playerId vA, mkPlayer sockA false true nameA);
                                       (playerId vB, mkPlayer sockB false false nameB)]
                                      new_gameState false None None]> (rooms s1)) s1,
                  [(sockA, out_player_joined (playerId vB) nameB);
                   (sockB, out_room_joined code nameA)])).
  { unfold Sio.on_join_room. cbv beta iota zeta. rewrite Hd, Hnorm. simpl. rewrite lookup_insert_eq.
    simpl. rewrite HBA. simpl. reflexivity. }
  assert (Hstep2 : step t s1 (Message sockB join_room (Some dB) envB) =
            Running (set_vars (<[sockB := mkVars (playerId vB) (Some code) true]> (vars s1))
                       (set_rooms
                          (<[code := mkRoom [(playerId vA, mkPlayer sockA false true nameA);
                                             (playerId vB, mkPlayer sockB false false nameB)]
                                            new_gameState false None None]> (rooms s1)) s1))
                    [(sockA, out_player_joined (playerId vB) nameB);
                     (sockB, out_room_joined code nameA)]).
  { destruct t; unfold step, Sio.step, Ws.step; rewrite HvB1, HlB;
      unfold Sio.handler, Ws.handler;
      ws_as_sio; rewrite Hjoin; reflexivity. }
  eexists _, (mkVars (playerId vA) (Some code) true),
    (mkVars (playerId vB) (Some code) true).
  split_and!.
  - cbn [run]. rewrite Hstep1, Hstep2. reflexivity.
  - simpl. apply insert_insert_eq.
  - simpl. rewrite lookup_insert_ne by done. apply lookup_insert_eq.
  - reflexivity.
  - simpl. apply lookup_insert_eq.
  - reflexivity.
Qed.

Lemma create_then_join_witness :
  let s := Scenario.state_after SocketIO Session.two_connected in
  ∃ s',
    run SocketIO s
        [Message 1 create_room (Scenario.named "A") (Scenario.at_time 0);
         Message 2 join_room (Scenario.joining "B" "  abc123") (Scenario.at_time 9)] =
      Running s' [(1, out_room_created "ABC123");
                  (1, out_player_joined "ub" "B");
                  (2, out_room_joined "ABC123" "A")].
Proof.
  intros s.
  edestruct (create_then_join SocketIO s 1 2
               (mkVars "ua" None true) (mkVars "ub" None true)
               (mkData (Some "A"%string) None None None None None) (mkData (Some "B"%string) (Some "  abc123"%string) None None None None)
               (Scenario.at_time 0) (Scenario.at_time 9) "  abc123")
    as (s' & vA' & vB' & Hrun & _).
  - vm_compute. reflexivity.
  - reflexivity.
  - vm_compute. reflexivity.
  - reflexivity.
  - discriminate.
  - discriminate.
  - reflexivity.
  - reflexivity.
  - exists s'. exact Hrun.
Defined.

(** X8: a player who submits the code of a room in which it is the only
    member (the creator joining its own room) is written over in place as a
    non-host: the room is left without any host, nobody is sent
    [player_joined], and the reply names the host "Host". *)
Theorem own_room_join_drops_host (t : Transport) s sock v data env submitted room me :
  vars s !! sock = Some v → live v = true →
  d_roomId data = Some submitted →
  let code := toUpperCase (trim submitted) in
  rooms s !! code = Some room →
  players room = [(playerId v, me)] →
  ∃ s' room',
    step t s (Message sock join_room (Some data) env) =
      Running s' [(sock, out_room_joined code "Host")] ∧
    rooms s' !! code = Some room' ∧
    players room' =
      [(playerId v, mkPlayer sock false false (or_default (d_playerName data) "Player"))] ∧
    hosts (players room') = 0.
Proof.
  intros Hv Hl Hd code Hr Hps.
  assert (Hjoin : Sio.on_join_room sock (playerId v) (roomId v) (Some data) env s =
            Done (Some code,
                  set_rooms
                    (<[code := set_players
                         [(playerId v,
                           mkPlayer sock false false
                             (or_default (d_playerName data) "Player"))] room]>
                       (rooms s)) s,
                  [(sock, out_room_joined code "Host")])).
  { unfold Sio.on_join_room. cbv beta iota zeta. rewrite Hd. fold code. rewrite Hr, Hps. simpl.
    rewrite String.eqb_refl. simpl. reflexivity. }
  eexists _, _. split_and!.
  - destruct t; simpl; rewrite Hv, Hl;
      ws_as_sio; rewrite Hjoin; reflexivity.
  - simpl. apply lookup_insert_eq.
  - reflexivity.
  - reflexivity.
Qed.

Lemma own_room_join_drops_host_witness :
  let s := Scenario.state_after WebSocket
             [Connect 1 "ua";
              Message 1 create_room (Scenario.named "A") (Scenario.at_time 0)] in
  ∃ s' room',
    step WebSocket s
         (Message 1 join_room (Scenario.joining "A" "abc123") (Scenario.at_time 1)) =
      Running s' [(1, out_room_joined "ABC123" "Host")] ∧
    rooms s' !! "ABC123"%string = Some room' ∧
    hosts (players room') = 0.
Proof.
  intros s.
  edestruct (own_room_join_drops_host WebSocket s 1 (mkVars "ua" (Some "ABC123"%string) true)
               (mkData (Some "A"%string) (Some "abc123"%string) None None None None) (Scenario.at_time 1) "abc123")
    as (s' & room' & Hstep & Hroom & _ & Hhosts).
  - vm_compute. reflexivity.
  - reflexivity.
  - reflexivity.
  - vm_compute. reflexivity.
  - reflexivity.
  - exists s', room'. split; [exact Hstep|]. split; [exact Hroom | exact Hhosts].
Defined.

(** ** Paddle moves *)

(** X9: a [paddle_move] from a member of a started room that has no
    paddle entry (a player who joined after the game had started) throws:
    the Socket.io server stops, the WebSocket server drops the message, with
    nothing changed and nothing sent. *)
Theorem paddle_move_without_paddle s sock v data env r room me :
  vars s !! sock = Some v → live v = true →
  roomId v = Some r → truthy r = true → rooms s !! r = Some room →
  alist_get (playerId v) (players room) = Some me →
  gameStarted room = true →
  paddles (gameState room) !! playerId v = None →
  step SocketIO s (Message sock paddle_move data env) = Crashed ∧
  step WebSocket s (Message sock paddle_move data env) = Running s [].
Proof.
  intros Hv Hl Hrid Ht Hr Hme Hst Hpad.
  assert (Hh : ∀ d, Sio.on_paddle_move sock (playerId v) (roomId v) d env s = Thrown).
  { intros d. unfold Sio.on_paddle_move.
    by rewrite Hrid, (bound_room_intro s r room Ht Hr), Hme, Hst, Hpad. }
  split; simpl; rewrite Hv, Hl.
  - by rewrite Hh.
  - ws_as_sio. by rewrite Hh.
Qed.

Lemma paddle_move_without_paddle_witness :
  let s := Scenario.state_after SocketIO Session.late_joiner in
  let move := Message 3 paddle_move
                (Some (mkData None None (Some 80%Z) None None None))
                (Scenario.at_time 4000) in
  step SocketIO s move = Crashed ∧ step WebSocket s move = Running s [].
Proof.
  intros s move.
  edestruct (paddle_move_without_paddle s 3 (mkVars "uc" (Some "ABC123"%string) true)
               (Some (mkData None None (Some 80%Z) None None None))
               (Scenario.at_time 4000) "ABC123"%string) as [Hsio Hws].
  - vm_compute. reflexivity.
  - reflexivity.
  - reflexivity.
  - reflexivity.
  - vm_compute. reflexivity.
  - vm_compute. reflexivity.
  - reflexivity.
  - vm_compute. reflexivity.
  - split; [exact Hsio | exact Hws].
Defined.

(** X10: a [paddle_move] is honoured only for a member of a started room.
    Before the start it changes nothing and sends nothing.  In a started
    room where the sender has a paddle it stores the submitted position as
    the sender's paddle, touches no other paddle, neither the ball nor the
    scores, and relays the position in [opponent_move] to the first other
    member only, never to the sender. *)
Theorem paddle_move_relays_to_other (t : Transport) sock pid rid data env s r room me :
  bound_room rid s = Some (r, room) →
  alist_get pid (players room) = Some me →
  (gameStarted room = false →
   handler t paddle_move sock pid rid (Some data) env s = Done (rid, s, []))
  ∧ (gameStarted room = true → is_Some (paddles (gameState room) !! pid) →
     ∃ s' outs room',
       handler t paddle_move sock pid rid (Some data) env s = Done (rid, s', outs) ∧
       rooms s' !! r = Some room' ∧
       paddles (gameState room') !! pid = Some (d_y data) ∧
       (∀ k, k ≠ pid → paddles (gameState room') !! k = paddles (gameState room) !! k) ∧
       ball (gameState room') = ball (gameState room) ∧
       scores (gameState room') = scores (gameState room) ∧
       match find (λ kv, negb (String.eqb kv.1 pid)) (players room) with
       | Some other =>
           outs = [(socketId other.2, out_opponent_move (d_y data))] ∧
           other ∈ players room ∧ other.1 ≠ pid
       | None => outs = []
       end).
Proof.
  intros Hb Hme. rewrite handler_Some. simpl. unfold Sio.on_paddle_move.
  rewrite Hb, Hme. split.
  - by intros ->.
  - intros -> [y Hy]. rewrite Hy.
    eexists _, _, _. split; [reflexivity|]. simpl.
    split; [apply lookup_insert_eq|]. split; [apply lookup_insert_eq|].
    split; [intros k Hk; by apply lookup_insert_ne|]. split; [done|]. split; [done|].
    unfold Sio.emit_other.
    destruct (find _ (players room)) as [other|] eqn:Hfind; [|done].
    apply find_other_elem in Hfind as [Hin Hne]. done.
Qed.

Lemma paddle_move_relays_to_other_witness :
  let s := Scenario.state_after SocketIO Scenario.started in
  ∃ s' room',
    handler SocketIO paddle_move 2 "ub" (Some "ABC123"%string)
            (Some (mkData None None (Some 80%Z) None None None))
            (Scenario.at_time 1500) s =
      Done (Some "ABC123"%string, s', [(1, out_opponent_move (Some 80%Z))]) ∧
    rooms s' !! "ABC123"%string = Some room' ∧
    paddles (gameState room') !! "ub"%string = Some (Some 80%Z) ∧
    paddles (gameState room') !! "ua"%string = Some (Some 150%Z).
Proof.
  intros s.
  edestruct (paddle_move_relays_to_other SocketIO 2 "ub" (Some "ABC123"%string)
               (mkData None None (Some 80%Z) None None None) (Scenario.at_time 1500) s)
    as [_ Hmove].
  - vm_compute. reflexivity.
  - vm_compute. reflexivity.
  - destruct Hmove as (s' & outs & room' & Hh & Hroom & Hmine & Hothers & _ & _ & Hrelay).
    + reflexivity.
    + vm_compute. eauto.
    + vm_compute in Hrelay. destruct Hrelay as (-> & _).
      exists s', room'. split; [exact Hh|]. split; [exact Hroom|].
      split; [exact Hmine|].
      rewrite (Hothers "ua"%string) by discriminate. vm_compute. reflexivity.
Defined.

(** ** The match clock *)

Lemma step_interval (t : Transport) s h now iv r :
  intervals s !! h = Some iv → Sio.roomId_of (iv_owner iv) s = Some r →
  step t s (IntervalFires h now) =
  match Sio.matchTimer_callback (iv_p0 iv) (iv_p1 iv) (Some r) now s with
  | Done (s', outs) => Running s' outs
  | Thrown => Crashed
  end.
Proof.
  intros Hiv Hrid. destruct t; simpl; rewrite Hiv;
    change (Ws.roomId_of (iv_owner iv) s) with (Sio.roomId_of (iv_owner iv) s);
    rewrite Hrid; reflexivity.
Qed.

(** X11: while time is left, a tick of the match timer takes
    [floor((now - lastUpdateTime) / 1000)] whole seconds off the running
    clock ([timeRemaining] during a set, [restTimeRemaining] during the
    rest), sets [lastUpdateTime] to [now], changes nothing else and sends the
    new value to every member ([timer_update], or [rest_period_update]).
    The fraction of a second is dropped: a tick that comes less than 1000 ms
    after the previous one leaves the clock where it was, and a tick with a
    clock reading before [lastUpdateTime] moves the clock up. *)
Theorem tick_counts_whole_seconds (t : Transport) s h now iv r room ms :
  intervals s !! h = Some iv →
  Sio.roomId_of (iv_owner iv) s = Some r →
  rooms s !! r = Some room → matchState room = Some ms →
  let elapsed := ((now - lastUpdateTime ms) / 1000)%Z in
  (isRestPeriod ms = false → (0 < timeRemaining ms - elapsed)%Z →
   step t s (IntervalFires h now) =
   Running
     (set_rooms
        (<[r := set_matchState
                  (Some (mkMatchState (currentSet ms) (timeRemaining ms - elapsed)
                           false (restTimeRemaining ms) (set1Scores ms)
                           (set2Scores ms) now)) room]> (rooms s)) s)
     (map (λ kv, (socketId kv.2,
                  out_timer_update (timeRemaining ms - elapsed) (currentSet ms)))
          (players room)))
  ∧ (isRestPeriod ms = true → (0 < restTimeRemaining ms - elapsed)%Z →
     step t s (IntervalFires h now) =
     Running
       (set_rooms
          (<[r := set_matchState
                    (Some (mkMatchState (currentSet ms) (timeRemaining ms) true
                             (restTimeRemaining ms - elapsed) (set1Scores ms)
                             (set2Scores ms) now)) room]> (rooms s)) s)
       (map (λ kv, (socketId kv.2,
                    out_rest_period_update (restTimeRemaining ms - elapsed)))
            (players room)))
  ∧ ((0 ≤ now - lastUpdateTime ms < 1000)%Z → elapsed = 0%Z)
  ∧ ((now < lastUpdateTime ms)%Z → (elapsed < 0)%Z).
Proof.
  intros Hiv Hrid Hr Hms elapsed. split_and!.
  - intros Hrest Hpos. rewrite (step_interval t s h now iv r Hiv Hrid).
    unfold Sio.matchTimer_callback. simpl. rewrite Hr, Hms, Hrest.
    fold elapsed. apply Z.leb_gt in Hpos. rewrite Hpos. reflexivity.
  - intros Hrest Hpos. rewrite (step_interval t s h now iv r Hiv Hrid).
    unfold Sio.matchTimer_callback. simpl. rewrite Hr, Hms, Hrest.
    fold elapsed. apply Z.leb_gt in Hpos. rewrite Hpos. reflexivity.
  - intros Hsmall. unfold elapsed. by apply Z.div_small.
  - intros Hback. unfold elapsed. apply Z.div_lt_upper_bound; lia.
Qed.

Lemma tick_counts_whole_seconds_witness :
  let s := Scenario.state_after SocketIO Scenario.started in
  ∃ s' room' ms',
    step SocketIO s (IntervalFires 0 3999) =
      Running s' [(1, out_timer_update 118 1); (2, out_timer_update 118 1)] ∧
    rooms s' !! "ABC123"%string = Some room' ∧ matchState room' = Some ms' ∧
    lastUpdateTime ms' = 3999%Z.
Proof.
  intros s.
  edestruct (tick_counts_whole_seconds SocketIO s 0 3999) as (Hset & _).
  - vm_compute. reflexivity.
  - vm_compute. reflexivity.
  - vm_compute. reflexivity.
  - vm_compute. reflexivity.
  - eexists _, _, _. split; [apply Hset; [reflexivity | vm_compute; reflexivity]|].
    split; [simpl; apply lookup_insert_eq|]. split; reflexivity.
Defined.

(** X12: the tick that brings [timeRemaining] of set 2 to 0 or below copies
    the live scores of the two captured player ids into [set2Scores], sends
    [match_results] with the final match state to every member, and stops
    the timer recorded in the room: when that is the timer that ticked, it
    is no longer registered, and a further tick of it does nothing.  The
    room and its [gameStarted] flag stay. *)
Theorem set2_expiry_ends_match (t : Transport) s h now iv r room ms :
  intervals s !! h = Some iv →
  Sio.roomId_of (iv_owner iv) s = Some r →
  rooms s !! r = Some room → matchState room = Some ms →
  matchTimer room = Some h →
  isRestPeriod ms = false → currentSet ms ≠ 1%Z →
  (timeRemaining ms - (now - lastUpdateTime ms) / 1000 ≤ 0)%Z →
  let g := gameState room in
  ∃ s' ms' room',
    step t s (IntervalFires h now) =
      Running s' (map (λ kv, (socketId kv.2, out_match_results ms')) (players room)) ∧
    set2Scores ms' =
      <[iv_p1 iv := scores g !! iv_p1 iv]>
        (<[iv_p0 iv := scores g !! iv_p0 iv]> (set2Scores ms)) ∧
    set1Scores ms' = set1Scores ms ∧
    rooms s' !! r = Some room' ∧ matchState room' = Some ms' ∧
    gameStarted room' = gameStarted room ∧ gameState room' = g ∧
    intervals s' = delete h (intervals s) ∧
    ∀ now', step t s' (IntervalFires h now') = Running s' [].
Proof.
  intros Hiv Hrid Hr Hms Htimer Hrest Hset Hle. simpl.
  rewrite (step_interval t s h now iv r Hiv Hrid).
  unfold Sio.matchTimer_callback. simpl. rewrite Hr, Hms, Hrest.
  apply Z.leb_le in Hle. rewrite Hle.
  apply Z.eqb_neq in Hset. rewrite Hset, Htimer.
  eexists _, _, _. split; [reflexivity|]. simpl.
  split; [done|]. split; [done|]. split; [apply lookup_insert_eq|].
  split; [done|]. split; [done|]. split; [done|]. split; [done|].
  intros now'. destruct t; simpl; by rewrite lookup_delete_eq.
Qed.

(** X13: a tick of a match timer throws, and ends the process of either
    server, when the [roomId] variable of the connection that started the
    game names no room any more, or names a room that has no match state
    (the connection has meanwhile created or joined another room). *)
Theorem tick_on_foreign_room_crashes (t : Transport) s h now iv :
  intervals s !! h = Some iv →
  (room_at (Sio.roomId_of (iv_owner iv) s) s = None ∨
   ∃ room, room_at (Sio.roomId_of (iv_owner iv) s) s = Some room ∧
           matchState room = None) →
  step t s (IntervalFires h now) = Crashed.
Proof.
  intros Hiv Hcase.
  assert (Hthrown : Sio.matchTimer_callback (iv_p0 iv) (iv_p1 iv)
                      (Sio.roomId_of (iv_owner iv) s) now s = Thrown).
  { destruct Hcase as [Hnone|(room & Hroom & Hms)].
    - by apply matchTimer_callback_deleted_room.
    - destruct (Sio.roomId_of (iv_owner iv) s) as [r|]; [|done].
      simpl in Hroom. unfold Sio.matchTimer_callback. simpl.
      by rewrite Hroom, Hms. }
  destruct t; simpl; rewrite Hiv;
    change (Ws.roomId_of (iv_owner iv) s) with (Sio.roomId_of (iv_owner iv) s);
    rewrite ?ws_matchTimer_callback_eq; by rewrite Hthrown.
Qed.

Lemma tick_on_foreign_room_crashes_witness :
  step SocketIO (Scenario.state_after SocketIO Session.starter_moves_on)
       (IntervalFires 0 4000) = Crashed.
Proof.
  eapply (tick_on_foreign_room_crashes SocketIO
            (Scenario.state_after SocketIO Session.starter_moves_on) 0 4000).
  - vm_compute. reflexivity.
  - right. eexists. split; vm_compute; reflexivity.
Defined.

Lemma set2_expiry_ends_match_witness :
  let s := Scenario.state_after WebSocket Session.set2_running in
  ∃ s' ms',
    step WebSocket s (IntervalFires 0 271000) =
      Running s' [(1, out_match_results ms'); (2, out_match_results ms')] ∧
    set1Scores ms' !! "ua"%string = Some (Some (of_Z 3)) ∧
    set2Scores ms' !! "ua"%string = Some (Some (of_Z 0)) ∧
    intervals s' = ∅ ∧
    step WebSocket s' (IntervalFires 0 272000) = Running s' [].
Proof.
  intros s.
  edestruct (set2_expiry_ends_match WebSocket s 0 271000)
    as (s' & ms' & room' & Hstep & Hs2 & Hs1 & _ & _ & _ & _ & Hiv & Hstopped).
  - vm_compute. reflexivity.
  - vm_compute. reflexivity.
  - vm_compute. reflexivity.
  - vm_compute. reflexivity.
  - reflexivity.
  - reflexivity.
  - discriminate.
  - vm_compute. discriminate.
  - exists s', ms'. split; [exact Hstep|].
    split; [rewrite Hs1; vm_compute; reflexivity|].
    split; [rewrite Hs2; vm_compute; reflexivity|].
    split; [rewrite Hiv; vm_compute; reflexivity | apply Hstopped].
Defined.

(** ** Starting, and starting again *)

Ltac fresh_solve Hf :=
  unfold timers_fresh in *; simpl in *; intros ? Hh;
  repeat match goal with
  | H : context [clearInterval ?t _] |- _ => destruct t; simpl in *
  | |- context [clearInterval ?t _] => destruct t; simpl in *
  end;
  try (apply lookup_insert_is_Some in Hh as [<-|[_ Hh]]; [lia|]);
  try (apply lookup_delete_is_Some in Hh as [_ Hh]);
  try (specialize (Hf _ Hh); lia).

Lemma handler_timers_fresh type sock pid rid data env s rid' s' outs :
  Sio.handler type sock pid rid data env s = Done (rid', s', outs) →
  timers_fresh s → timers_fresh s'.
Proof.
  intros H Hf. destruct type; simpl in H;
    [unfold Sio.on_create_room in H | unfold Sio.on_join_room in H
    | unfold Sio.on_find_game in H | unfold Sio.on_player_ready in H
    | unfold Sio.on_paddle_move in H | unfold Sio.on_ball_update in H
    | unfold Sio.on_score_update in H | unfold Sio.on_player_scored in H | ];
    repeat case_match; simplify_eq; try done; fresh_solve Hf.
Qed.

Lemma timers_fresh_ext s s' :
  intervals s' = intervals s → nextTimer s' = nextTimer s →
  timers_fresh s → timers_fresh s'.
Proof. unfold timers_fresh. by intros -> ->. Qed.

Lemma on_disconnect_timers_fresh sock pid rid s :
  timers_fresh s →
  timers_fresh (Sio.on_disconnect sock pid rid s).1 ∧
  timers_fresh (Ws.on_close sock pid rid s).1.
Proof.
  intros Hf. unfold Sio.on_disconnect, Ws.on_close.
  split; repeat case_match; simplify_eq; simpl; try done; fresh_solve Hf.
Qed.

Lemma callbacks_timers_fresh s :
  timers_fresh s →
  (∀ p0 p1 rid now s' outs,
     Sio.matchTimer_callback p0 p1 rid now s = Done (s', outs) → timers_fresh s') ∧
  (∀ owner rid px py s' outs,
     Sio.ball_start_callback owner rid px py s = Done (s', outs) → timers_fresh s') ∧
  (∀ rid s' outs,
     Sio.ball_confirm_callback rid s = Done (s', outs) → timers_fresh s').
Proof.
  intros Hf. split_and!.
  - intros p0 p1 rid now s' outs H. unfold Sio.matchTimer_callback in H.
    repeat case_match; simplify_eq; fresh_solve Hf.
  - intros owner rid px py s' outs H. unfold Sio.ball_start_callback in H.
    repeat case_match; simplify_eq; try done; fresh_solve Hf.
  - intros rid s' outs H. unfold Sio.ball_confirm_callback in H.
    repeat case_match; by simplify_eq.
Qed.

Lemma step_timers_fresh t s e s' outs :
  step t s e = Running s' outs → timers_fresh s → timers_fresh s'.
Proof.
  intros H Hf.
  destruct e as [sock uuid|sock type data env|sock|h now|h px py].
  - destruct t; simpl in H; destruct (vars s !! sock); by simplify_eq.
  - destruct t; simpl in H.
    all: destruct (vars s !! sock) as [v|]; [|by simplify_eq].
    all: destruct (live v); [|by simplify_eq].
    all: rewrite ?ws_handler_eq in H.
    all: match type of H with
         | context [Sio.handler _ _ _ _ ?d _ _] =>
             destruct (Sio.handler type sock (playerId v) (roomId v) d env s)
               as [[[rid' s1] o1]|] eqn:Hh
         end; simplify_eq; try done.
    all: apply (timers_fresh_ext s1); [done | done |].
    all: by eapply handler_timers_fresh.
  - destruct t; simpl in H.
    all: destruct (vars s !! sock) as [v|]; [|by simplify_eq].
    all: destruct (live v); [|by simplify_eq].
    all: destruct (on_disconnect_timers_fresh sock (playerId v) (roomId v) s Hf)
           as [H1 H2].
    + destruct (Sio.on_disconnect sock (playerId v) (roomId v) s) as [s1 o1].
      simplify_eq. by apply (timers_fresh_ext s1).
    + destruct (Ws.on_close sock (playerId v) (roomId v) s) as [s1 o1].
      simplify_eq. by apply (timers_fresh_ext s1).
  - destruct (callbacks_timers_fresh s Hf) as (Hcb & _ & _).
    destruct t; simpl in H; repeat case_match; simplify_eq; try done.
    all: by eapply Hcb.
  - assert (Hf0 : timers_fresh (set_timeouts (delete h (timeouts s)) s))
      by (by apply (timers_fresh_ext s)).
    destruct (callbacks_timers_fresh _ Hf0) as (_ & Hcb1 & Hcb2).
    destruct t; simpl in H; repeat case_match; simplify_eq; try done.
    all: try (by eapply Hcb1).
    all: by eapply Hcb2.
Qed.

Lemma reachable_timers_fresh t s : reachable t s → timers_fresh s.
Proof.
  intros (evs & outs & Hrun).
  assert (Hgen : ∀ evs s0 s1 o, run t s0 evs = Running s1 o →
                 timers_fresh s0 → timers_fresh s1).
  { clear. induction evs as [|e evs IH]; simpl; intros s0 s1 o H Hf.
    - by simplify_eq.
    - destruct (step t s0 e) as [s2 o2|] eqn:Hstep; [|done].
      destruct (run t s2 evs) as [s3 o3|] eqn:Hrun; [|done].
      simplify_eq. eapply IH; [eassumption|]. by eapply step_timers_fresh. }
  eapply Hgen; [eassumption|]. intros h [iv Hh]. by simpl in Hh.
Qed.

(** X14: every [player_ready] that the handler accepts and that finds the
    roster at two players, all ready, starts the match, whether or not it
    was started before: [gameStarted] is set, both players get a paddle at
    150 and the score 0, the match state is a fresh one (set 1, 120 s, no
    rest), each member is sent [game_starting] with its own id, and a new
    match timer is registered under a new handle and recorded in the room.
    No timer is stopped: in a reachable state the running timers grow by one,
    so a repeated [player_ready] in a started game leaves the earlier timer
    of the room running beside the new one. *)
Theorem ready_starts_or_restarts (t : Transport) s sock v d env r room me p0 p1 :
  reachable t s →
  vars s !! sock = Some v → live v = true →
  roomId v = Some r → truthy r = true → rooms s !! r = Some room →
  alist_get (playerId v) (players room) = Some me →
  let ps := alist_set (playerId v) (set_ready true me) (players room) in
  keys ps = [p0; p1] → forallb (λ kv, ready kv.2) ps = true →
  ∃ s' room',
    step t s (Message sock player_ready d env) =
      Running s'
        (map (λ kv, (socketId kv.2,
                     out_game_starting (gameState room') [p0; p1]
                       (map (λ kv, (kv.1, name kv.2)) ps) kv.1)) ps) ∧
    rooms s' !! r = Some room' ∧
    gameStarted room' = true ∧ players room' = ps ∧
    paddles (gameState room') !! p0 = Some (Some 150%Z) ∧
    paddles (gameState room') !! p1 = Some (Some 150%Z) ∧
    scores (gameState room') !! p0 = Some (of_Z 0) ∧
    scores (gameState room') !! p1 = Some (of_Z 0) ∧
    ball (gameState room') = ball (gameState room) ∧
    matchState room' = Some (new_matchState p0 p1 (now env)) ∧
    matchTimer room' = Some (nextTimer s) ∧
    intervals s' = <[nextTimer s := mkInterval sock p0 p1]> (intervals s) ∧
    size (intervals s') = S (size (intervals s)) ∧
    timeouts s' = <[S (nextTimer s) := ball_start sock]> (timeouts s).
Proof.
  intros Hreach Hv Hl Hrid Ht Hr Hme ps Hkeys Hall.
  assert (Hp01 : p0 ≠ p1).
  { destruct (reachable_wf t s Hreach r room Hr) as [Hnd _ _].
    pose proof (NoDup_keys_alist_set (playerId v) (set_ready true me) _ Hnd) as Hnd'.
    fold ps in Hnd'. rewrite Hkeys in Hnd'.
    apply NoDup_cons in Hnd' as [Hnin _]. intros ->. apply Hnin. left. }
  assert (Hnone : intervals s !! nextTimer s = None).
  { destruct (intervals s !! nextTimer s) eqn:E; [|done].
    pose proof (reachable_timers_fresh t s Hreach (nextTimer s)) as Hlt.
    rewrite E in Hlt. specialize (Hlt (ltac:(eauto))). lia. }
  set (room' :=
      mkRoom ps
        (set_scores (<[p1 := of_Z 0]> (<[p0 := of_Z 0]> (scores (gameState room))))
           (set_paddles
              (<[p1 := Some 150%Z]> (<[p0 := Some 150%Z]> (paddles (gameState room))))
              (gameState room)))
        true (Some (new_matchState p0 p1 (now env))) (Some (nextTimer s))).
  assert (Hroom' : room' = room') by done.
  assert (Hh : ∀ d0, ∃ s1,
    Sio.on_player_ready sock (playerId v) (roomId v) d0 env s =
      Done (roomId v, s1,
            map (λ kv, (socketId kv.2,
                        out_game_starting (gameState room') [p0; p1]
                          (map (λ kv, (kv.1, name kv.2)) ps) kv.1)) ps) ∧
    rooms s1 = <[r := room']> (rooms s) ∧ vars s1 = vars s ∧
    intervals s1 = <[nextTimer s := mkInterval sock p0 p1]> (intervals s) ∧
    timeouts s1 = <[S (nextTimer s) := ball_start sock]> (timeouts s)).
  { intros d0. unfold Sio.on_player_ready.
    rewrite Hrid, (bound_room_intro s r room Ht Hr), Hme. fold ps.
    rewrite Hall, Hkeys. eexists. split; [reflexivity|]. done. }
  destruct (Hh (match t with
                | SocketIO => d
                | WebSocket => Some (Ws.message_object d)
                end)) as (s1 & Hh1 & Hrooms & Hvars & Hiv & Hto).
  exists (set_vars (<[sock := mkVars (playerId v) (roomId v) true]> (vars s1)) s1), room'.
  split_and!.
  - destruct t; simpl; rewrite Hv, Hl;
      ws_as_sio; by rewrite Hh1.
  - simpl. rewrite Hrooms. apply lookup_insert_eq.
  - done.
  - done.
  - simpl. rewrite lookup_insert_ne by done. apply lookup_insert_eq.
  - simpl. apply lookup_insert_eq.
  - simpl. rewrite lookup_insert_ne by done. apply lookup_insert_eq.
  - simpl. apply lookup_insert_eq.
  - done.
  - done.
  - done.
  - simpl. exact Hiv.
  - simpl. rewrite Hiv. by apply map_size_insert_None.
  - simpl. exact Hto.
Qed.

Lemma ready_starts_or_restarts_witness :
  let s := Scenario.state_after SocketIO Scenario.set1_played in
  ∃ s' room',
    step SocketIO s (Message 1 player_ready Scenario.empty (Scenario.at_time 9000)) =
      Running s'
        (map (λ kv, (socketId kv.2,
                     out_game_starting (gameState room') ["ua"; "ub"]%string
                       [("ua", "A"); ("ub", "B")]%string kv.1))
             (players room')) ∧
    scores (gameState room') !! "ua"%string = Some (of_Z 0) ∧
    size (intervals s) = 1 ∧ size (intervals s') = 2.
Proof.
  intros s.
  edestruct (ready_starts_or_restarts SocketIO s 1 (mkVars "ua" (Some "ABC123"%string) true)
               Scenario.empty (Scenario.at_time 9000) "ABC123"%string)
    as (s' & room' & Hstep & _ & _ & Hps & _ & _ & Hsc & _ & _ & _ & _ & _ & Hsize & _).
  - exists Scenario.set1_played, (Scenario.outs_after SocketIO Scenario.set1_played).
    vm_compute. reflexivity.
  - vm_compute. reflexivity.
  - reflexivity.
  - reflexivity.
  - reflexivity.
  - vm_compute. reflexivity.
  - vm_compute. reflexivity.
  - vm_compute. reflexivity.
  - vm_compute. reflexivity.
  - exists s', room'. split; [rewrite Hps; exact Hstep|].
    split; [exact Hsc|]. split; [vm_compute; reflexivity|].
    rewrite Hsize. vm_compute. reflexivity.
Defined.

(** ** Releasing the ball *)

(** X15: when the two-second timeout of a start fires and the starter's
    [roomId] names no room, nothing happens (no throw, unlike the match
    timer).  When it names a room whose ball is defined, the ball is put at
    (400, 200) with speed +10 or -10 on each axis as drawn (never 0), every
    member is sent [ball_moving] with it, paddles and scores stay, and a
    confirmation timeout is registered.  When the ball of the room is
    undefined (the host submitted a [ball_update] without [ball]) the
    callback throws and the server stops.  The confirmation timeout sends
    every member the ball as it is at that moment and changes nothing. *)
Theorem ball_release (t : Transport) s h owner px py :
  let s0 := set_timeouts (delete h (timeouts s)) s in
  (timeouts s !! h = Some (ball_start owner) →
   (room_at (Sio.roomId_of owner s) s = None →
    step t s (TimeoutFires h px py) = Running s0 [])
   ∧ (∀ r room, Sio.roomId_of owner s = Some r → rooms s !! r = Some room →
        (ball (gameState room) = None →
         step t s (TimeoutFires h px py) = Crashed)
        ∧ (is_Some (ball (gameState room)) →
           ∃ s' room' b,
             step t s (TimeoutFires h px py) =
               Running s' (map (λ kv, (socketId kv.2, out_ball_moving (Some b)))
                               (players room)) ∧
             rooms s' !! r = Some room' ∧ ball (gameState room') = Some b ∧
             x b = 400%Z ∧ y b = 200%Z ∧
             speedX b = (if px then 10 else -10)%Z ∧
             speedY b = (if py then 10 else -10)%Z ∧
             paddles (gameState room') = paddles (gameState room) ∧
             scores (gameState room') = scores (gameState room) ∧
             timeouts s' = <[nextTimer s := ball_confirm owner]> (delete h (timeouts s)))))
  ∧ (timeouts s !! h = Some (ball_confirm owner) →
     step t s (TimeoutFires h px py) =
     Running s0
       match room_at (Sio.roomId_of owner s) s with
       | Some room =>
           map (λ kv, (socketId kv.2, out_ball_moving (ball (gameState room))))
               (players room)
       | None => []
       end).
Proof.
  simpl.
  assert (Hstep : ∀ k, timeouts s !! h = Some k →
    step t s (TimeoutFires h px py) =
    match
      match k with
      | ball_start o =>
          Sio.ball_start_callback o (Sio.roomId_of o s) px py
            (set_timeouts (delete h (timeouts s)) s)
      | ball_confirm o =>
          Sio.ball_confirm_callback (Sio.roomId_of o s)
            (set_timeouts (delete h (timeouts s)) s)
      end
    with
    | Done (s', outs) => Running s' outs
    | Thrown => Crashed
    end).
  { intros k Hk. destruct t; simpl; rewrite Hk; destruct k; reflexivity. }
  split.
  - intros Hk. rewrite (Hstep _ Hk). split.
    + intros Hnone. unfold Sio.ball_start_callback.
      destruct (Sio.roomId_of owner s) as [r|]; [|done].
      simpl in *. by rewrite Hnone.
    + intros r room Hrid Hr. rewrite Hrid. unfold Sio.ball_start_callback.
      simpl. rewrite Hr. split.
      * by intros ->.
      * intros [b0 Hb]. rewrite Hb.
        eexists _, _, _. split; [reflexivity|]. simpl.
        split; [apply lookup_insert_eq|].
        split_and!; try done; by destruct px, py.
  - intros Hk. rewrite (Hstep _ Hk). unfold Sio.ball_confirm_callback.
    destruct (Sio.roomId_of owner s) as [r|]; simpl; [|done].
    by destruct (rooms s !! r).
Qed.

Lemma ball_release_witness :
  let s := Scenario.state_after WebSocket Scenario.started in
  ∃ s' room' b,
    step WebSocket s (TimeoutFires 1 true false) =
      Running s' [(1, out_ball_moving (Some b)); (2, out_ball_moving (Some b))] ∧
    rooms s' !! "ABC123"%string = Some room' ∧ ball (gameState room') = Some b ∧
    b = mkBall 400 200 10 (-10) ∧
    timeouts s' !! 2 = Some (ball_confirm 2).
Proof.
  intros s.
  destruct (ball_release WebSocket s 1 2 true false) as [Hstart _].
  destruct Hstart as [_ Hroom]; [vm_compute; reflexivity|].
  edestruct Hroom as [_ Hdefined].
  - vm_compute. reflexivity.
  - vm_compute. reflexivity.
  - destruct Hdefined as (s' & room' & b & Hstep & Hr & Hb & Hx & Hy & Hsx & Hsy & _ & _ & Hto).
    + vm_compute. eauto.
    + exists s', room', b. split; [exact Hstep|]. split; [exact Hr|].
      split; [exact Hb|]. split.
      * destruct b; simpl in *; congruence.
      * rewrite Hto. vm_compute. reflexivity.
Defined.

(** ** Leaving *)

Lemma alist_del_not_in {A} k (l : list (string * A)) : k ∉ keys (alist_del k l).
Proof.
  rewrite keys_alist_del. intros Hin.
  apply list_elem_of_filter in Hin as [Hne _]. done.
Qed.

Lemma on_close_effects sock pid rid s :
  let s' := (Ws.on_close sock pid rid s).1 in
  let outs := (Ws.on_close sock pid rid s).2 in
  waitingPlayers s' = alist_del pid (waitingPlayers s) ∧
  (∀ r', rid ≠ Some r' → rooms s' !! r' = rooms s !! r') ∧
  (bound_room rid s = None → outs = [] ∧ rooms s' = rooms s) ∧
  (∀ r room, bound_room rid s = Some (r, room) →
     outs = map (λ kv, (socketId kv.2, out_opponent_disconnected))
                (filter (λ kv, kv.1 ≠ pid) (players room)) ∧
     rooms s' !! r =
       (if decide (alist_del pid (players room) = []) then None
        else Some (set_players (alist_del pid (players room)) room))).
Proof.
  simpl. split; [apply (disconnect_queue sock pid rid s)|].
  unfold Ws.on_close.
  set (s1 := match alist_get pid (waitingPlayers s) with
             | Some _ => set_waitingPlayers (alist_del pid (waitingPlayers s)) s
             | None => s
             end).
  assert (Hrooms : rooms s1 = rooms s) by (unfold s1; by case_match).
  assert (Hb : bound_room rid s1 = bound_room rid s) by (by apply bound_room_ext).
  rewrite Hb. split_and!.
  - intros r' Hne. destruct (bound_room rid s) as [[r room]|] eqn:Hbr;
      [|simpl; by rewrite Hrooms].
    apply bound_room_Some in Hbr as (-> & _ & _).
    assert (r ≠ r') by congruence.
    case_match; simpl; rewrite Hrooms;
      [by rewrite lookup_delete_ne | by rewrite lookup_insert_ne].
  - by intros ->.
  - intros r room ->. split; [by case_match|].
    destruct (alist_del pid (players room)) as [|kv l] eqn:Hdel; simpl.
    + apply lookup_delete_eq.
    + apply lookup_insert_eq.
Qed.

(** X16: when a connection closes, its player is taken out of the
    matchmaking queue, and only the room its [roomId] variable names is
    touched.  In that room every roster entry under another id is sent
    [opponent_disconnected]; the player is taken out of the roster, and the
    room is deleted when that leaves it empty.  A connection bound to no
    existing room notifies nobody.  Rooms the player entered earlier under
    another code keep it in their roster.  After that the connection is
    closed: a message from it does nothing. *)
Theorem disconnect_effects (t : Transport) s sock v :
  vars s !! sock = Some v → live v = true →
  let pid := playerId v in
  ∃ s' outs,
    step t s (Disconnect sock) = Running s' outs ∧
    waitingPlayers s' = alist_del pid (waitingPlayers s) ∧
    (pid ∉ keys (waitingPlayers s')) ∧
    (∀ r', roomId v ≠ Some r' → rooms s' !! r' = rooms s !! r') ∧
    (bound_room (roomId v) s = None → outs = [] ∧ rooms s' = rooms s) ∧
    (∀ r room, bound_room (roomId v) s = Some (r, room) →
       outs = map (λ kv, (socketId kv.2, out_opponent_disconnected))
                  (filter (λ kv, kv.1 ≠ pid) (players room)) ∧
       rooms s' !! r =
         (if decide (alist_del pid (players room) = []) then None
          else Some (set_players (alist_del pid (players room)) room))) ∧
    (∀ type data env, step t s' (Message sock type data env) = Running s' []).
Proof.
  intros Hv Hl pid.
  pose proof (on_close_effects sock pid (roomId v) s) as Hws. simpl in Hws.
  destruct (disconnect_close_frame sock pid (roomId v) s s)
    as (Houts & Hrooms & Hwait & _); [by split_and!|].
  destruct Hws as (Hw & Hframe & Hnone & Hsome).
  destruct t; simpl; rewrite Hv, Hl; fold pid.
  - destruct (Sio.on_disconnect sock pid (roomId v) s) as [s1 o1] eqn:Hd.
    simpl in *. eexists _, _. split; [reflexivity|]. simpl.
    rewrite Hrooms, Hwait, Houts. split_and!; try done.
    + rewrite Hw. apply alist_del_not_in.
    + intros type data env. by rewrite lookup_insert_eq.
  - destruct (Ws.on_close sock pid (roomId v) s) as [s1 o1] eqn:Hd.
    simpl in *. eexists _, _. split; [reflexivity|]. simpl.
    split_and!; try done.
    + rewrite Hw. apply alist_del_not_in.
    + intros type data env. by rewrite lookup_insert_eq.
Qed.

Lemma disconnect_effects_witness :
  let s := Scenario.state_after SocketIO Scenario.started in
  ∃ s' room',
    step SocketIO s (Disconnect 1) = Running s' [(2, out_opponent_disconnected)] ∧
    rooms s' !! "ABC123"%string = Some room' ∧ keys (players room') = ["ub"%string] ∧
    step SocketIO s' (Message 1 player_ready Scenario.empty (Scenario.at_time 1)) =
      Running s' [].
Proof.
  intros s.
  edestruct (disconnect_effects SocketIO s 1 (mkVars "ua" (Some "ABC123"%string) true))
    as (s' & outs & Hstep & _ & _ & _ & _ & Hroom & Hclosed).
  - vm_compute. reflexivity.
  - reflexivity.
  - edestruct Hroom as [Houts Hr]; [vm_compute; reflexivity|].
    vm_compute in Houts. subst outs.
    eexists s', _. split; [exact Hstep|]. split; [|split; [|apply Hclosed]].
    + rewrite Hr. rewrite decide_False by (vm_compute; discriminate). reflexivity.
    + vm_compute. reflexivity.
Defined.

Lemma step_disconnect_rooms (t : Transport) s sock v :
  vars s !! sock = Some v → live v = true →
  ∃ s' outs,
    step t s (Disconnect sock) = Running s' outs ∧
    rooms s' = rooms (Ws.on_close sock (playerId v) (roomId v) s).1 ∧
    outs = (Ws.on_close sock (playerId v) (roomId v) s).2.
Proof.
  intros Hv Hl.
  destruct (disconnect_close_frame sock (playerId v) (roomId v) s s)
    as (Houts & Hrooms & _); [by split_and!|].
  destruct t; simpl; rewrite Hv, Hl.
  - destruct (Sio.on_disconnect sock (playerId v) (roomId v) s) as [s1 o1].
    simpl in *. eauto.
  - destruct (Ws.on_close sock (playerId v) (roomId v) s) as [s1 o1].
    simpl in *. eauto.
Qed.

(** X17: a connection that creates a room and then a second one under
    another code is cleaned up, when it closes, only out of the second: the
    second room is deleted, and the first stays in the table for good, with
    the departed player as its only member and host. *)
Theorem first_room_is_orphaned (t : Transport) s sock v d1 d2 env1 env2 :
  vars s !! sock = Some v → live v = true →
  let c1 := gen_room_code (random36 env1) in
  let c2 := gen_room_code (random36 env2) in
  c1 ≠ c2 → truthy c2 = true →
  ∃ s' outs,
    run t s [Message sock create_room (Some d1) env1; Message sock create_room (Some d2) env2;
             Disconnect sock] =
      Running s' outs ∧
    rooms s' !! c1 =
      Some (mkRoom [(playerId v,
                     mkPlayer sock false true (or_default (d_playerName d1) "Player"))]
                   new_gameState false None None) ∧
    rooms s' !! c2 = None.
Proof.
  intros Hv Hl c1 c2 Hne Ht2.
  pose proof (step_create_room t s sock v d1 env1 Hv Hl) as Hstep1.
  cbv zeta in Hstep1. fold c1 in Hstep1.
  set (room1 := mkRoom [(playerId v,
                         mkPlayer sock false true (or_default (d_playerName d1) "Player"))]
                       new_gameState false None None) in *.
  set (v1 := mkVars (playerId v) (Some c1) true) in *.
  set (s1 := set_vars (<[sock := v1]> (vars s))
               (set_rooms (<[c1 := room1]> (rooms s)) s)) in *.
  assert (Hv1 : vars s1 !! sock = Some v1) by (simpl; apply lookup_insert_eq).
  pose proof (step_create_room t s1 sock v1 d2 env2 Hv1 eq_refl) as Hstep2.
  cbv zeta in Hstep2. fold c2 in Hstep2.
  set (room2 := mkRoom [(playerId v1,
                         mkPlayer sock false true (or_default (d_playerName d2) "Player"))]
                       new_gameState false None None) in *.
  set (v2 := mkVars (playerId v1) (Some c2) true) in *.
  set (s2 := set_vars (<[sock := v2]> (vars s1))
               (set_rooms (<[c2 := room2]> (rooms s1)) s1)) in *.
  assert (Hv2 : vars s2 !! sock = Some v2) by (simpl; apply lookup_insert_eq).
  destruct (step_disconnect_rooms t s2 sock v2 Hv2 eq_refl)
    as (s3 & o3 & Hstep3 & Hrooms3 & _).
  pose proof (on_close_effects sock (playerId v2) (roomId v2) s2) as Heff.
  cbv zeta in Heff. destruct Heff as (_ & Hframe & _ & Hbound).
  exists s3, ([(sock, out_room_created c1)] ++ [(sock, out_room_created c2)] ++ o3 ++ []).
  split_and!.
  - cbn [run]. by rewrite Hstep1, Hstep2, Hstep3.
  - rewrite Hrooms3. rewrite (Hframe c1) by (simpl; congruence).
    simpl. rewrite lookup_insert_ne by done. apply lookup_insert_eq.
  - rewrite Hrooms3.
    assert (Hb : bound_room (Some c2) s2 = Some (c2, room2)).
    { apply bound_room_intro; [done|]. simpl. apply lookup_insert_eq. }
    destruct (Hbound c2 room2 Hb) as [_ Hr]. rewrite Hr.
    simpl. by rewrite String.eqb_refl.
Qed.

Lemma first_room_is_orphaned_witness :
  let s := Scenario.state_after WebSocket [Connect 1 "ua"] in
  ∃ s' outs room,
    run WebSocket s
        [Message 1 create_room (Scenario.named "A") (mkEnv "0.abc123xyz" 0);
         Message 1 create_room (Scenario.named "A") (mkEnv "0.zzzzzzzz" 5);
         Disconnect 1] = Running s' outs ∧
    rooms s' !! "ABC123"%string = Some room ∧ keys (players room) = ["ua"%string] ∧
    rooms s' !! "ZZZZZZ"%string = None.
Proof.
  intros s.
  edestruct (first_room_is_orphaned WebSocket s 1 (mkVars "ua" None true)
               (mkData (Some "A"%string) None None None None None) (mkData (Some "A"%string) None None None None None)
               (mkEnv "0.abc123xyz" 0) (mkEnv "0.zzzzzzzz" 5))
    as (s' & outs & Hrun & Hfirst & Hsecond).
  - vm_compute. reflexivity.
  - reflexivity.
  - discriminate.
  - reflexivity.
  - eexists s', outs, _. split; [exact Hrun|]. split; [exact Hfirst|].
    split; [reflexivity | exact Hsecond].
Defined.

(** ** Scores *)

Lemma assign_scores_cons k z upd sc :
  assign_scores ((k, z) :: upd) sc =
  assign_scores upd (if String.eqb k "__proto__" then sc else <[k := z]> sc).
Proof. reflexivity. Qed.

Lemma assign_scores_absent upd sc k :
  k ∉ keys upd → assign_scores upd sc !! k = sc !! k.
Proof.
  revert sc.
  induction upd as [|[k' z] upd IH]; intros sc Hk; [done|].
  apply not_elem_of_cons in Hk as [Hne Hk]. simpl in Hne.
  rewrite assign_scores_cons, IH by done.
  destruct (String.eqb k' "__proto__"); [done|]. by rewrite lookup_insert_ne.
Qed.

Lemma assign_scores_proto upd sc :
  assign_scores upd sc !! "__proto__"%string = sc !! "__proto__"%string.
Proof.
  revert sc. induction upd as [|[k z] upd IH]; intros sc; [done|].
  rewrite assign_scores_cons, IH.
  destruct (String.eqb_spec k "__proto__"); [done|]. by rewrite lookup_insert_ne.
Qed.

Lemma assign_scores_present upd sc k z :
  NoDup (keys upd) → (k, z) ∈ upd → k ≠ "__proto__"%string →
  assign_scores upd sc !! k = Some z.
Proof.
  revert sc.
  induction upd as [|[k' z'] upd IH]; intros sc Hnd Hin Hk.
  - by apply elem_of_nil in Hin.
  - apply NoDup_cons in Hnd as [Hnin Hnd]. rewrite assign_scores_cons.
    apply elem_of_cons in Hin as [Heq|Hin].
    + injection Heq as <- <-. simpl in Hnin.
      rewrite assign_scores_absent by done.
      destruct (String.eqb_spec k "__proto__"); [done|]. apply lookup_insert_eq.
    + by apply IH.
Qed.

Lemma assign_scores_last upd k z sc :
  k ≠ "__proto__"%string → assign_scores (upd ++ [(k, z)]) sc !! k = Some z.
Proof.
  intros Hk. unfold assign_scores. rewrite fold_left_app. simpl.
  destruct (String.eqb_spec k "__proto__"); [done|]. apply lookup_insert_eq.
Qed.

(** X18: a bulk [score_update] overwrites exactly the submitted ids: an
    id that is not in the update keeps its score, an id that occurs once
    gets the submitted value, for an id submitted several times the last
    value wins, and applying the same update twice gives the same map as
    applying it once.  The ids need not be players of the room.  The one
    id that is never written is [__proto__]: what is submitted under it is
    dropped. *)
Theorem score_update_overwrites upd sc :
  (∀ k, k ∉ keys upd → assign_scores upd sc !! k = sc !! k) ∧
  (NoDup (keys upd) → ∀ k z, (k, z) ∈ upd → k ≠ "__proto__"%string →
     assign_scores upd sc !! k = Some z) ∧
  (∀ k z, k ≠ "__proto__"%string →
     assign_scores (upd ++ [(k, z)]) sc !! k = Some z) ∧
  assign_scores upd sc !! "__proto__"%string = sc !! "__proto__"%string ∧
  (NoDup (keys upd) → assign_scores upd (assign_scores upd sc) = assign_scores upd sc).
Proof.
  split_and!.
  - intros. by apply assign_scores_absent.
  - intros. by apply assign_scores_present.
  - intros. by apply assign_scores_last.
  - apply assign_scores_proto.
  - intros Hnd. apply map_eq. intros k.
    destruct (decide (k = "__proto__"%string)) as [->|Hk];
      [by rewrite !assign_scores_proto|].
    destruct (decide (k ∈ keys upd)) as [Hin|Hnin].
    + apply list_elem_of_fmap in Hin as ([k' z] & -> & Hin). simpl in *.
      by rewrite !(assign_scores_present upd _ k' z).
    + by rewrite assign_scores_absent.
Qed.

Lemma score_update_overwrites_witness :
  assign_scores [("ua", of_Z 4); ("zz", of_Z 9)]%string
    (assign_scores [("ua", of_Z 4); ("zz", of_Z 9)]%string {[ "ub"%string := of_Z 2 ]}) =
  assign_scores [("ua", of_Z 4); ("zz", of_Z 9)]%string {[ "ub"%string := of_Z 2 ]}.
Proof.
  apply (score_update_overwrites [("ua", of_Z 4); ("zz", of_Z 9)]%string).
  unfold keys. simpl. repeat constructor.
  - intros Hin. apply list_elem_of_In in Hin. destruct Hin as [Heq|[]]. discriminate.
  - intros Hin. by apply elem_of_nil in Hin.
Defined.

(** X19: no handler checks that the sender of a [score_update] is a
    member of the room.  A connection whose [join_room] was refused with
    "Room is full" can rewrite the scores of that room: after the refusal
    its [score_update] is applied, and every member of the room is sent the
    rewritten score map. *)
Theorem refused_joiner_rewrites_scores (t : Transport) s sock v data env dS envS
    submitted room upd :
  vars s !! sock = Some v → live v = true →
  d_roomId data = Some submitted →
  let code := toUpperCase (trim submitted) in
  truthy code = true →
  rooms s !! code = Some room →
  2 ≤ length (keys (players room)) →
  playerId v ∉ keys (players room) →
  d_scores dS = Some upd →
  let sc := assign_scores upd (scores (gameState room)) in
  ∃ s' room',
    run t s [Message sock join_room (Some data) env; Message sock score_update (Some dS) envS] =
      Running s' ((sock, out_error "Room is full") ::
                  map (λ kv, (socketId kv.2, out_score_update sc)) (players room)) ∧
    rooms s' !! code = Some room' ∧
    scores (gameState room') = sc ∧ players room' = players room.
Proof.
  intros Hv Hl Hd code Ht Hr Hfull Hnin Hupd sc.
  assert (Hjoin : Sio.on_join_room sock (playerId v) (roomId v) (Some data) env s =
                  Done (Some code, s, [(sock, out_error "Room is full")])).
  { unfold Sio.on_join_room. cbv beta iota zeta. rewrite Hd. fold code. rewrite Hr.
    apply Nat.leb_le in Hfull. by rewrite Hfull. }
  set (v1 := mkVars (playerId v) (Some code) true).
  set (s1 := set_vars (<[sock := v1]> (vars s)) s).
  assert (Hstep1 : step t s (Message sock join_room (Some data) env) =
                   Running s1 [(sock, out_error "Room is full")]).
  { destruct t; simpl; rewrite Hv, Hl;
      ws_as_sio; by rewrite Hjoin. }
  assert (Hv1 : vars s1 !! sock = Some v1) by (simpl; apply lookup_insert_eq).
  assert (Hb : bound_room (Some code) s1 = Some (code, room))
    by (by apply bound_room_intro).
  assert (Hscore : Sio.on_score_update sock (playerId v1) (roomId v1) (Some dS) envS s1 =
            Done (Some code,
                  set_rooms
                    (<[code := set_gameState (set_scores sc (gameState room)) room]>
                       (rooms s1)) s1,
                  map (λ kv, (socketId kv.2, out_score_update sc)) (players room))).
  { unfold Sio.on_score_update. simpl roomId. by rewrite Hb, Hupd. }
  assert (Hstep2 : ∃ s2, step t s1 (Message sock score_update (Some dS) envS) =
            Running s2 (map (λ kv, (socketId kv.2, out_score_update sc)) (players room)) ∧
            rooms s2 = <[code := set_gameState (set_scores sc (gameState room)) room]>
                         (rooms s1)).
  { eexists. split.
    - destruct t; unfold step, Sio.step, Ws.step; rewrite Hv1; simpl live;
        unfold Sio.handler, Ws.handler;
        ws_as_sio;
        rewrite Hscore; reflexivity.
    - done. }
  destruct Hstep2 as (s2 & Hstep2 & Hrooms2).
  eexists s2, _. split_and!.
  - cbn [run]. rewrite Hstep1, Hstep2. simpl. by rewrite app_nil_r.
  - rewrite Hrooms2. apply lookup_insert_eq.
  - done.
  - done.
Qed.

Lemma refused_joiner_rewrites_scores_witness :
  let s := Scenario.state_after SocketIO (Scenario.started ++ [Connect 3 "uc"]) in
  ∃ s' room',
    run SocketIO s
        [Message 3 join_room (Scenario.joining "C" "abc123") (Scenario.at_time 5000);
         Message 3 score_update (Scenario.bulk [("ua"%string, of_Z 99)])
                 (Scenario.at_time 5001)] =
      Running s' [(3, out_error "Room is full");
                  (1, out_score_update (scores (gameState room')));
                  (2, out_score_update (scores (gameState room')))] ∧
    rooms s' !! "ABC123"%string = Some room' ∧
    scores (gameState room') !! "ua"%string = Some (of_Z 99).
Proof.
  intros s.
  edestruct (refused_joiner_rewrites_scores SocketIO s 3 (mkVars "uc" None true)
               (mkData (Some "C"%string) (Some "abc123"%string) None None None None) (Scenario.at_time 5000)
               (mkData None None None None (Some [("ua"%string, of_Z 99)]) None) (Scenario.at_time 5001) "abc123")
    as (s' & room' & Hrun & Hroom & Hsc & _).
  - vm_compute. reflexivity.
  - reflexivity.
  - reflexivity.
  - reflexivity.
  - vm_compute. reflexivity.
  - vm_compute. lia.
  - vm_compute. intros Hin. apply list_elem_of_In in Hin.
    destruct Hin as [Heq|[Heq|[]]]; discriminate.
  - reflexivity.
  - exists s', room'. split; [rewrite Hsc; exact Hrun|]. split; [exact Hroom|].
    rewrite Hsc. vm_compute. reflexivity.
Defined.


(** ** The socket adapter *)

Section adapter_facts.
Context {V : Type} (str : string → V) (to_key : V → string).
Implicit Types (a : Adapter.SocketAdapter) (data : list (string * V))
  (payload : option (list (string * V))).

Lemma alist_get_alist_set {A} k k' (v : A) l :
  alist_get k' (alist_set k v l) =
  if decide (k' = k) then Some v else alist_get k' l.
Proof.
  induction l as [|[k0 v0] l IH]; simpl.
  - destruct (String.eqb_spec k' k); case_decide; done.
  - destruct (String.eqb_spec k k0) as [->|Hne]; simpl.
    + destruct (String.eqb_spec k' k0); case_decide; done.
    + destruct (String.eqb_spec k' k0) as [->|Hne'].
      * case_decide; [congruence | done].
      * apply IH.
Qed.

Lemma alist_set_absent {A} k (v : A) l :
  k ∉ keys l → alist_set k v l = l ++ [(k, v)].
Proof.
  induction l as [|[k' v'] l IH]; simpl; [done|].
  intros [Hne Hnin]%not_elem_of_cons.
  destruct (String.eqb_spec k k'); [done|]. f_equal. auto.
Qed.

Lemma dispatch_acc payload cbs : ∀ (acc : Adapter.SocketAdapter * list (@Adapter.Call V)),
  let r := fold_left (Adapter.invoke payload) cbs acc in
  r.2 = acc.2 ++ map (λ id, (id, payload)) (Adapter.user_ids cbs) ∧
  Adapter.callbacks r.1 = Adapter.callbacks acc.1 ∧
  Adapter.connectionType r.1 = Adapter.connectionType acc.1 ∧
  Adapter.connected r.1 =
    (if existsb (λ cb, match cb with Adapter.resolve_connect => true | _ => false end) cbs
     then true else Adapter.connected acc.1).
Proof.
  induction cbs as [|cb cbs IH]; simpl; intros acc.
  - by rewrite app_nil_r.
  - destruct (IH (Adapter.invoke payload acc cb)) as (H1 & H2 & H3 & H4).
    rewrite H1, H2, H3, H4. destruct cb; simpl.
    + by rewrite <- app_assoc.
    + split; [done|]. split; [done|]. split; [done|]. by case_match.
Qed.

Lemma dispatch_spec cbs payload a :
  (Adapter.dispatch cbs payload a).2 =
    map (λ id, (id, payload)) (Adapter.user_ids cbs) ∧
  Adapter.callbacks (Adapter.dispatch cbs payload a).1 = Adapter.callbacks a ∧
  Adapter.connectionType (Adapter.dispatch cbs payload a).1 = Adapter.connectionType a ∧
  Adapter.connected (Adapter.dispatch cbs payload a).1 =
    (if existsb (λ cb, match cb with Adapter.resolve_connect => true | _ => false end) cbs
     then true else Adapter.connected a).
Proof. apply (dispatch_acc payload cbs (a, [])). Qed.

Lemma registered_on e e' cb a :
  Adapter.registered e (Adapter.on e' cb a) =
  if decide (e = e') then Adapter.registered e a ++ [cb] else Adapter.registered e a.
Proof.
  unfold Adapter.registered at 1. unfold Adapter.on. simpl.
  rewrite alist_get_alist_set. by case_decide; subst.
Qed.

Lemma is_Some_on e e' cb a :
  is_Some (alist_get e (Adapter.callbacks (Adapter.on e' cb a))) ↔
  e = e' ∨ is_Some (alist_get e (Adapter.callbacks a)).
Proof.
  unfold Adapter.on. simpl. rewrite alist_get_alist_set.
  case_decide; split; eauto. by intros [?|?].
Qed.

Lemma register_spec regs : ∀ a e,
  Adapter.registered e (Adapter.register regs a) =
    Adapter.registered e a ++
    map (λ r, Adapter.user_callback r.2) (filter (λ r, r.1 = e) regs) ∧
  (is_Some (alist_get e (Adapter.callbacks (Adapter.register regs a))) ↔
   is_Some (alist_get e (Adapter.callbacks a)) ∨ e ∈ map fst regs) ∧
  Adapter.connected (Adapter.register regs a) = Adapter.connected a ∧
  Adapter.connectionType (Adapter.register regs a) = Adapter.connectionType a.
Proof.
  induction regs as [|[e' id] regs IH]; simpl; intros a e.
  - rewrite app_nil_r. split_and!; try done. split; [eauto|].
    intros [?|Hin]; [done | by apply elem_of_nil in Hin].
  - destruct (IH (Adapter.on e' (Adapter.user_callback id) a) e) as (H1 & H2 & H3 & H4).
    unfold Adapter.register in *. simpl. rewrite H1, H2, H3, H4.
    rewrite registered_on, is_Some_on. split_and!; try done.
    + case_decide as Heq.
      * subst. rewrite filter_cons_True by done. simpl. by rewrite <- app_assoc.
      * rewrite filter_cons_False by (simpl; congruence). done.
    + rewrite elem_of_cons. split; [intros [[?|?]|?] | intros [?|[?|?]]]; eauto.
Qed.

Lemma user_ids_app (l1 l2 : list Adapter.Callback) :
  Adapter.user_ids (l1 ++ l2) = Adapter.user_ids l1 ++ Adapter.user_ids l2.
Proof. unfold Adapter.user_ids. apply flat_map_app. Qed.

Lemma user_ids_users (ids : list (string * nat)) :
  Adapter.user_ids (map (λ r, Adapter.user_callback r.2) ids) = map snd ids.
Proof. induction ids as [|r ids IH]; simpl; [done|]. by rewrite IH. Qed.

Lemma lookup_registered e a :
  alist_get e (Adapter.callbacks a) =
  if decide (is_Some (alist_get e (Adapter.callbacks a)))
  then Some (Adapter.registered e a) else None.
Proof.
  unfold Adapter.registered.
  destruct (alist_get e (Adapter.callbacks a)) eqn:E; case_decide as H; try done.
  all: try (exfalso; apply H; eauto; fail).
  all: try (by destruct H).
Qed.

Lemma existsb_resolve_users (ids : list (string * nat)) :
  existsb (λ cb, match cb with Adapter.resolve_connect => true | _ => false end)
          (map (λ r, Adapter.user_callback r.2) ids) = false.
Proof. induction ids as [|r ids IH]; simpl; done. Qed.

Lemma registered_new e : Adapter.registered e (Adapter.new) = [].
Proof. done. Qed.

(** The callbacks of an event after [connect], with user callbacks
    registered before it and after it. *)
Lemma registered_session hostname regs1 regs2 e :
  let a := Adapter.register regs2
             (Adapter.connect hostname (Adapter.register regs1 Adapter.new)) in
  Adapter.registered e a =
    map (λ r, Adapter.user_callback r.2) (filter (λ r, r.1 = e) regs1) ++
    (if decide (e = "connection"%string) then [Adapter.resolve_connect] else []) ++
    map (λ r, Adapter.user_callback r.2) (filter (λ r, r.1 = e) regs2).
Proof.
  simpl.
  destruct (register_spec regs2
              (Adapter.connect hostname (Adapter.register regs1 Adapter.new)) e)
    as (-> & _).
  unfold Adapter.connect. rewrite registered_on.
  assert (∀ a, Adapter.registered e
                 (Adapter.mkAdapter (Adapter.callbacks a) (Adapter.connected a)
                    (Some (if Adapter.isProduction hostname
                           then Adapter.socketio else Adapter.websocket))) =
               Adapter.registered e a) as -> by done.
  destruct (register_spec regs1 Adapter.new e) as (-> & _).
  rewrite registered_new. simpl.
  case_decide; by rewrite <- ?app_assoc, ?app_nil_r.
Qed.

Lemma session_flags hostname regs1 regs2 :
  let a := Adapter.register regs2
             (Adapter.connect hostname (Adapter.register regs1 Adapter.new)) in
  Adapter.connected a = false ∧
  Adapter.connectionType a =
    Some (if Adapter.isProduction hostname then Adapter.socketio else Adapter.websocket).
Proof.
  simpl.
  destruct (register_spec regs2
              (Adapter.connect hostname (Adapter.register regs1 Adapter.new))
              ""%string) as (_ & _ & -> & ->).
  unfold Adapter.connect, Adapter.on. simpl.
  destruct (register_spec regs1 Adapter.new ""%string) as (_ & _ & -> & _).
  done.
Qed.

Lemma session_listens hostname regs1 regs2 e :
  let a := Adapter.register regs2
             (Adapter.connect hostname (Adapter.register regs1 Adapter.new)) in
  is_Some (alist_get e (Adapter.callbacks a)) ↔
  e = "connection"%string ∨ e ∈ map fst (regs1 ++ regs2).
Proof.
  simpl.
  destruct (register_spec regs2
              (Adapter.connect hostname (Adapter.register regs1 Adapter.new)) e)
    as (_ & -> & _).
  unfold Adapter.connect. rewrite is_Some_on. simpl.
  destruct (register_spec regs1 Adapter.new e) as (_ & -> & _).
  rewrite map_app, elem_of_app. simpl.
  split; [intros [[?|[[]%is_Some_None|?]]|?] | intros [?|[?|?]]]; eauto.
Qed.

Lemma filter_key_nil (regs : list (string * nat)) e :
  e ∉ map fst regs → filter (λ r, r.1 = e) regs = [].
Proof.
  induction regs as [|r regs IH]; simpl; [done|].
  intros [Hne Hnin]%not_elem_of_cons.
  rewrite filter_cons_False by (simpl; congruence). auto.
Qed.

(** What a lookup-and-dispatch does, whether or not the event has
    callbacks. *)
Lemma lookup_dispatch e payload a :
  match alist_get e (Adapter.callbacks a) with
  | Some cbs => Adapter.dispatch cbs payload a
  | None => (a, [])
  end = Adapter.dispatch (Adapter.registered e a) payload a.
Proof.
  unfold Adapter.registered. by destruct (alist_get e (Adapter.callbacks a)).
Qed.

Lemma fold_set_absent data : ∀ (l0 : list (string * V)) k,
  k ∉ keys data →
  alist_get k (fold_left (λ o kv, alist_set kv.1 kv.2 o) data l0) = alist_get k l0.
Proof.
  induction data as [|[k' v'] data IH]; simpl; intros l0 k Hk; [done|].
  apply not_elem_of_cons in Hk as [Hne Hk].
  rewrite IH by done. rewrite alist_get_alist_set. by case_decide.
Qed.

Lemma fold_set_present data : ∀ (l0 : list (string * V)) k v,
  NoDup (keys data) → (k, v) ∈ data →
  alist_get k (fold_left (λ o kv, alist_set kv.1 kv.2 o) data l0) = Some v.
Proof.
  induction data as [|[k' v'] data IH]; simpl; intros l0 k v Hnd Hin.
  - by apply elem_of_nil in Hin.
  - apply NoDup_cons in Hnd as [Hnin Hnd].
    apply elem_of_cons in Hin as [Heq|Hin].
    + injection Heq as <- <-. rewrite fold_set_absent by done.
      rewrite alist_get_alist_set. by case_decide.
    + by apply IH.
Qed.

Lemma fold_set_fresh data : ∀ (l0 : list (string * V)),
  NoDup (keys data) → (∀ k, k ∈ keys data → k ∉ keys l0) →
  fold_left (λ o kv, alist_set kv.1 kv.2 o) data l0 = l0 ++ data.
Proof.
  induction data as [|[k v] data IH]; simpl; intros l0 Hnd Hfresh.
  - by rewrite app_nil_r.
  - apply NoDup_cons in Hnd as [Hnin Hnd].
    rewrite alist_set_absent by (apply Hfresh; left).
    rewrite IH; [by rewrite <- app_assoc | done |].
    intros k' Hk'. unfold keys. rewrite map_app, elem_of_app. simpl.
    intros [Hin|Hin%list_elem_of_singleton].
    + by apply (Hfresh k'); [right|].
    + by subst.
Qed.

(** X20: the adapter sends nothing before the server's [connection] event
    has come and nothing after the connection closed.  Whatever callbacks
    the application registered, before or after [connect]: an [emit] before
    the [connection] event is dropped; the [connection] event calls the
    application's [connection] callbacks with its payload, in the order of
    their registration, and marks the adapter connected; from then on an
    [emit] hands the event to Socket.io on a production host and sends the
    frame [{type: event, ...data}] on a local one; when the connection
    closes, the [disconnect] callbacks are called without argument and an
    [emit] is dropped again. *)
Theorem adapter_connection_gates_emit hostname regs1 regs2 event
    (sent : option (list (string * V))) (hello_data : list (string * V)) :
  (∀ s, to_key (str s) = s) →
  "type"%string ∉ keys hello_data →
  let a := Adapter.register regs2
             (Adapter.connect hostname (Adapter.register regs1 Adapter.new)) in
  let hello :=
    if Adapter.isProduction hostname
    then Adapter.onAny "connection" (Some hello_data) a
    else Adapter.onmessage to_key
           (Some (("type"%string, str "connection") :: hello_data)) a in
  let bye := Adapter.onclose (V := V) hello.1 in
  Adapter.emit str event sent a = Done [] ∧
  hello.2 = map (λ r, (r.2, Some hello_data))
                (filter (λ r, r.1 = "connection"%string) (regs1 ++ regs2)) ∧
  Adapter.connected hello.1 = true ∧
  Adapter.emit str event sent hello.1 =
    Done [if Adapter.isProduction hostname then Adapter.sio_emit event sent
          else Adapter.ws_send (Adapter.frame str event (default [] sent))] ∧
  bye.2 = map (λ r, (r.2, None))
              (filter (λ r, r.1 = "disconnect"%string) (regs1 ++ regs2)) ∧
  Adapter.connected bye.1 = false ∧
  Adapter.emit str event sent bye.1 = Done [].
Proof.
  intros Hkey Htype a hello bye.
  destruct (session_flags hostname regs1 regs2) as [Hc Ht]. fold a in Hc, Ht.
  assert (Hhello : hello = Adapter.dispatch (Adapter.registered "connection" a)
                             (Some hello_data) a).
  { unfold hello, Adapter.onAny, Adapter.onmessage.
    destruct (Adapter.isProduction hostname); [apply lookup_dispatch|].
    simpl. rewrite Hkey.
    rewrite (alist_del_absent "type" hello_data) by done.
    apply lookup_dispatch. }
  destruct (dispatch_spec (Adapter.registered "connection" a) (Some hello_data) a)
    as (Hcalls & Hcbs & Hty & Hconn).
  rewrite <- Hhello in Hcalls, Hcbs, Hty, Hconn.
  assert (Hbye : bye = Adapter.dispatch (Adapter.registered "disconnect" a) None
                         (Adapter.set_connected false hello.1)).
  { unfold bye, Adapter.onclose.
    rewrite (lookup_dispatch "disconnect" None (Adapter.set_connected false hello.1)).
    unfold Adapter.registered. simpl. by rewrite Hcbs. }
  destruct (dispatch_spec (Adapter.registered "disconnect" a) None
              (Adapter.set_connected false hello.1))
    as (Hcalls2 & _ & Hty2 & Hconn2).
  rewrite <- Hbye in Hcalls2, Hty2, Hconn2.
  unfold a in Hcalls, Hconn, Hcalls2, Hconn2.
  rewrite registered_session in Hcalls, Hconn, Hcalls2, Hconn2.
  rewrite decide_True in Hcalls, Hconn by done.
  rewrite decide_False in Hcalls2, Hconn2 by done.
  rewrite !user_ids_app, !user_ids_users in Hcalls, Hcalls2. simpl in Hcalls, Hcalls2.
  rewrite !existsb_app, !existsb_resolve_users in Hconn, Hconn2.
  simpl in Hconn, Hconn2.
  split_and!.
  - unfold Adapter.emit. by rewrite Hc.
  - rewrite Hcalls, filter_app, map_app, <- !map_app.
    rewrite <- filter_app, !map_map. done.
  - exact Hconn.
  - unfold Adapter.emit. rewrite Hconn, Hty, Ht.
    by destruct (Adapter.isProduction hostname).
  - rewrite Hcalls2, <- map_app, <- filter_app, map_map. done.
  - exact Hconn2.
  - unfold Adapter.emit. by rewrite Hconn2.
Qed.

(** X21: the frame the adapter sends over a WebSocket is the payload with
    a [type] field in front, and a frame read back by [onmessage] calls the
    callbacks of the event with the payload as it was, as the Socket.io
    transport does; that holds for a payload without a [type] field of its
    own.  A [type] field in the payload replaces the name of the event in
    the frame. *)
Theorem adapter_frame_round_trip event data a :
  (∀ s, to_key (str s) = s) →
  NoDup (keys data) →
  ("type"%string ∉ keys data →
     Adapter.frame str event data = ("type"%string, str event) :: data ∧
     Adapter.onmessage to_key (Some (Adapter.frame str event data)) a =
       Adapter.onAny event (Some data) a)
  ∧ (∀ v, ("type"%string, v) ∈ data →
       alist_get "type" (Adapter.frame str event data) = Some v)
  ∧ (∀ k, k ≠ "type"%string →
       alist_get k (Adapter.frame str event data) = alist_get k data).
Proof.
  intros Hkey Hnd. split_and!.
  - intros Htype.
    assert (Hframe : Adapter.frame str event data = ("type"%string, str event) :: data).
    { unfold Adapter.frame. rewrite fold_set_fresh; [done | done |].
      intros k Hk [->|[]%elem_of_nil]%elem_of_cons. done. }
    split; [done|]. rewrite Hframe.
    unfold Adapter.onmessage, Adapter.onAny. simpl.
    by rewrite Hkey, (alist_del_absent "type" data).
  - intros v Hin. unfold Adapter.frame. by apply fold_set_present.
  - intros k Hk. unfold Adapter.frame.
    destruct (decide (k ∈ keys data)) as [Hin|Hnin].
    + apply list_elem_of_fmap in Hin as ([k' v] & -> & Hin). simpl in *.
      rewrite (fold_set_present data _ k' v) by done.
      symmetry. clear Hk.
      induction data as [|[k0 v0] data IH]; [by apply elem_of_nil in Hin|].
      apply NoDup_cons in Hnd as [Hnin Hnd]. simpl.
      apply elem_of_cons in Hin as [Heq|Hin].
      * injection Heq as <- <-. by rewrite String.eqb_refl.
      * destruct (String.eqb_spec k' k0) as [->|_]; [|by apply IH].
        exfalso. apply Hnin. apply list_elem_of_fmap. by exists (k0, v).
    + rewrite fold_set_absent by done. simpl.
      destruct (String.eqb_spec k "type"); [done|].
      symmetry. by apply alist_get_None.
Qed.

End adapter_facts.

Lemma adapter_connection_gates_emit_witness :
  let regs := [("connection", 1); ("game_found", 2); ("connection", 3)]%string in
  let a := Adapter.register regs (Adapter.connect "localhost" Adapter.new) in
  let hello :=
    Adapter.onmessage (V := string) id
      (Some [("type", "connection"); ("playerId", "ua")]%string) a in
  Adapter.emit id "find_game" None a = Done [] ∧
  hello.2 = [(1, Some [("playerId", "ua")]); (3, Some [("playerId", "ua")])]%string ∧
  Adapter.emit id "find_game" None hello.1 =
    Done [Adapter.ws_send [("type", "find_game")]%string].
Proof.
  intros regs a hello.
  destruct (adapter_connection_gates_emit (V := string) id id "localhost" [] regs
              "find_game" None [("playerId", "ua")]%string)
    as (H1 & H2 & _ & H4 & _).
  - reflexivity.
  - unfold keys. simpl. intros [?|[]%elem_of_nil]%elem_of_cons. discriminate.
  - split; [exact H1|]. split; [exact H2 | exact H4].
Defined.

Lemma adapter_frame_round_trip_witness :
  Adapter.frame (V := string) id "join_room"
    [("roomId", "abc123"); ("playerName", "B")]%string =
  [("type", "join_room"); ("roomId", "abc123"); ("playerName", "B")]%string.
Proof.
  destruct (adapter_frame_round_trip (V := string) id id "join_room"
              [("roomId", "abc123"); ("playerName", "B")]%string Adapter.new)
    as (Hframe & _).
  - reflexivity.
  - unfold keys. simpl. repeat constructor.
    + intros [?|[]%elem_of_nil]%elem_of_cons. discriminate.
    + by intros []%elem_of_nil.
  - apply Hframe. unfold keys. simpl.
    intros [?|[?|[]%elem_of_nil]%elem_of_cons]%elem_of_cons; discriminate.
Defined.
